(** * midi-2-synth: tempo segmentation of a beatmap, checked against its code

    A shallow embedding of the Python sources
    ([util.py], [midi.py], [audio.py], [beatmap.py], [merging.py],
    [split.py]).

    - Python [float] is the kernel's binary64 [float]; [+ - * /] and the
      comparisons are the primitive operations.  What Python computes on the
      exact value of a float (formatting, [round], [floor], [%], parsing a
      decimal string) is computed here on its exact value [m * 2^e], read
      off with [Prim2SF], in [Z].
    - Python [int] is [Z]; a [str] is the list of its code points, and what
      Python asks of the Unicode character database (the decimal digits of
      [\d], [int] and [float]; the case mapping of [lower]) is tabulated
      from Unicode 14.0, the database of CPython 3.11.
    - An exception is a value of [exn]; a function that may raise returns a
      [result].
    - A [dict] is an association list in insertion order.
    - Calls into other packages (mido, synth_mapping_helper, pydub, numpy)
      are the external collaborators of the specification; each one that a
      modelled function needs is given by its documented contract and is
      marked as such where it is defined. *)

From Stdlib Require Import ZArith NArith List Bool Lia Floats.
From Stdlib Require Import Strings.Byte.
From Stdlib Require Import Sorting.Sorted Sorting.Permutation.
Import ListNotations.

Local Open Scope list_scope.
Local Open Scope Z_scope.

(* ================================================================== *)
(** * The Python runtime the sources rely on *)
(* ================================================================== *)

Module Py.

(** ** Exceptions *)

Inductive exn : Type :=
| TypeError
| ValueError
| ZeroDivisionError
| OverflowError
| KeyError
| RuntimeError
| OSError.

Inductive result (A : Type) : Type :=
| Ok (a : A)
| Raise (e : exn).

Arguments Ok {A} a.
Arguments Raise {A} e.

Definition bind {A B : Type} (r : result A) (k : A -> result B) : result B :=
  match r with
  | Ok a => k a
  | Raise e => Raise e
  end.

Definition is_ok {A : Type} (r : result A) : bool :=
  match r with Ok _ => true | Raise _ => false end.

(** [mapM f l]: a loop whose body may raise, results collected in order. *)
Fixpoint mapM {A B : Type} (f : A -> result B) (l : list A) : result (list B) :=
  match l with
  | [] => Ok []
  | x :: l' =>
      bind (f x) (fun y => bind (mapM f l') (fun ys => Ok (y :: ys)))
  end.

(** ** Strings

    A character is its code point, a [str] the list of its characters. *)

Definition char : Set := N.

Definition str : Set := list char.

(** A literal ["..."] stands for the characters between the quotes, the
    source text being read as UTF-8; ["c"%chr] is the one character [c]. *)
Module Literal.

Definition continuation (b : N) : N := (b - 128)%N.

Fixpoint decode (fuel : nat) (l : list N) : list N :=
  match fuel with
  | O => []
  | S fuel =>
      match l with
      | [] => []
      | b0 :: r =>
          if (b0 <? 128)%N then b0 :: decode fuel r
          else if (b0 <? 224)%N then
            match r with
            | b1 :: r' => ((b0 - 192) * 64 + continuation b1)%N :: decode fuel r'
            | _ => [b0]
            end
          else if (b0 <? 240)%N then
            match r with
            | b1 :: b2 :: r' =>
                ((b0 - 224) * 4096 + continuation b1 * 64 + continuation b2)%N
                :: decode fuel r'
            | _ => [b0]
            end
          else
            match r with
            | b1 :: b2 :: b3 :: r' =>
                ((b0 - 240) * 262144 + continuation b1 * 4096
                 + continuation b2 * 64 + continuation b3)%N :: decode fuel r'
            | _ => [b0]
            end
      end
  end.

Definition encode_char (c : N) : list N :=
  if (c <? 128)%N then [c]
  else if (c <? 2048)%N then [192 + c / 64; 128 + c mod 64]%N
  else if (c <? 65536)%N then
    [224 + c / 4096; 128 + (c / 64) mod 64; 128 + c mod 64]%N
  else
    [240 + c / 262144; 128 + (c / 4096) mod 64; 128 + (c / 64) mod 64;
     128 + c mod 64]%N.

Inductive lit : Set :=
| lnil
| lcons (c : N) (s : lit).

Fixpoint lit_of (l : list N) : lit :=
  match l with
  | [] => lnil
  | c :: r => lcons c (lit_of r)
  end.

Fixpoint of_lit (l : lit) : list N :=
  match l with
  | lnil => []
  | lcons c r => c :: of_lit r
  end.

Fixpoint to_bytes (l : list N) : option (list Byte.byte) :=
  match l with
  | [] => Some []
  | b :: r =>
      match Byte.of_N b, to_bytes r with
      | Some x, Some xs => Some (x :: xs)
      | _, _ => None
      end
  end.

Definition parse (l : list Byte.byte) : lit :=
  lit_of (decode (List.length l) (map Byte.to_N l)).

Definition print (l : lit) : option (list Byte.byte) :=
  to_bytes (flat_map encode_char (of_lit l)).

Definition parse_char (l : list Byte.byte) : option N :=
  match decode (List.length l) (map Byte.to_N l) with
  | [c] => Some c
  | _ => None
  end.

Definition print_char (c : N) : option (list Byte.byte) := to_bytes (encode_char c).

End Literal.

Declare Scope str_scope.
Delimit Scope str_scope with str.
Bind Scope str_scope with str.
Declare Scope chr_scope.
Delimit Scope chr_scope with chr.
Bind Scope chr_scope with char.

#[warnings="-via-type-remapping,-via-type-mismatch"]
String Notation str Literal.parse Literal.print
  (via Literal.lit mapping [[nil] => Literal.lnil, [cons] => Literal.lcons])
  : str_scope.
String Notation N Literal.parse_char Literal.print_char : chr_scope.

Local Open Scope str_scope.

Notation "a +++ b" := (@app char a b) (right associativity, at level 60).

Definition char_eqb (a b : char) : bool := N.eqb a b.

Fixpoint str_eqb (s t : str) : bool :=
  match s, t with
  | [], [] => true
  | a :: s', b :: t' => char_eqb a b && str_eqb s' t'
  | _, _ => false
  end.

Definition newline : char := 10%N.

Definition slen (s : str) : Z := Z.of_nat (List.length s).

(** Whether [c] lies in one of the ranges [(first, last)]. *)
Definition in_ranges (ranges : list (char * char)) (c : char) : bool :=
  existsb (fun r => (fst r <=? c)%N && (c <=? snd r)%N) ranges.

(** *** Decimal digits

    The decimal digits of Unicode (general category Nd) are the characters
    that [\d] matches and that [int] and [float] read as digits.  They come
    in runs of ten, from a digit zero to a digit nine; [decimal_zeros]
    lists the zero of every run. *)
Definition decimal_zeros : list char :=
  [48; 1632; 1776; 1984; 2406; 2534; 2662; 2790; 2918; 3046; 3174; 3302;
   3430; 3558; 3664; 3792; 3872; 4160; 4240; 6112; 6160; 6470; 6608; 6784;
   6800; 6992; 7088; 7232; 7248; 42528; 43216; 43264; 43472; 43504; 43600;
   44016; 65296; 66720; 68912; 69734; 69872; 69942; 70096; 70384; 70736;
   70864; 71248; 71360; 71472; 71904; 72016; 72784; 73040; 73120; 92768;
   92864; 93008; 120782; 120792; 120802; 120812; 120822; 123200; 123632;
   125264; 130032]%N.

Definition decimal_value (c : char) : option Z :=
  match find (fun z => (z <=? c)%N && (c <? z + 10)%N) decimal_zeros with
  | Some z => Some (Z.of_N (c - z))
  | None => None
  end.

Definition is_digit (c : char) : bool :=
  match decimal_value c with
  | Some _ => true
  | None => false
  end.

Definition digit_val (c : char) : Z :=
  match decimal_value c with
  | Some d => d
  | None => 0
  end.

(** The ASCII digit of [d], for [d] from 0 to 9. *)
Definition digit_char (d : Z) : char := (48 + Z.to_N d)%N.

(** Decimal digits of a non-negative integer, most significant first. *)
Fixpoint digits_acc (fuel : nat) (n : Z) (acc : str) : str :=
  match fuel with
  | O => acc
  | S fuel' =>
      let acc' := digit_char (n mod 10) :: acc in
      if n <? 10 then acc' else digits_acc fuel' (n / 10) acc'
  end.

Definition str_of_nonneg (n : Z) : str :=
  digits_acc (S (Z.to_nat (Z.log2 n))) n "".

(** [sys.int_info.default_max_str_digits]: [str(n)] and [int(s)] raise
    [ValueError] when the number has more decimal digits. *)
Definition int_max_str_digits : Z := 4300.

(** [str(z)] for an [int], and [f"{z}"]. *)
Definition str_of_int (z : Z) : result str :=
  let digits := str_of_nonneg (Z.abs z) in
  if int_max_str_digits <? slen digits then Raise ValueError
  else Ok (if z <? 0 then "-"%chr :: digits else digits).

Fixpoint repeat_char (c : char) (n : nat) : str :=
  match n with
  | O => ""
  | S n' => c :: repeat_char c n'
  end.

(** [s.zfill(width)]: zeros on the left, after a leading sign. *)
Definition zfill (s : str) (width : Z) : str :=
  let pad := repeat_char "0" (Z.to_nat (width - slen s)) in
  match s with
  | c :: rest =>
      if char_eqb c "-" || char_eqb c "+" then c :: (pad +++ rest)
      else pad +++ s
  | [] => pad
  end.

(** [s.rstrip(c)] for a one-character set. *)
Fixpoint rstrip (c : char) (s : str) : str :=
  match s with
  | [] => []
  | a :: s' =>
      match rstrip c s' with
      | [] => if char_eqb a c then [] else [a]
      | r => a :: r
      end
  end.

Fixpoint all_digits (s : str) : bool :=
  match s with
  | [] => true
  | c :: s' => is_digit c && all_digits s'
  end.

Fixpoint digits_value (s : str) (acc : Z) : Z :=
  match s with
  | [] => acc
  | c :: s' => digits_value s' (10 * acc + digit_val c)
  end.

(** [int(s)] on the strings the filename pattern captures: a non-empty run
    of decimal digits, of at most [int_max_str_digits] digits.  [None] is
    what an optional group that took no part in the match yields, and
    [int(None)] raises [TypeError]. *)
Definition int_of_str (s : option str) : result Z :=
  match s with
  | None => Raise TypeError
  | Some [] => Raise ValueError
  | Some s =>
      if all_digits s then
        if int_max_str_digits <? slen s then Raise ValueError
        else Ok (digits_value s 0)
      else Raise ValueError
  end.

(** Index of the last occurrence of [c], as [str.rfind]. *)
Fixpoint rfind_from (c : char) (s : str) (i : Z) (found : Z) : Z :=
  match s with
  | [] => found
  | a :: s' => rfind_from c s' (i + 1) (if char_eqb a c then i else found)
  end.

Definition rfind (c : char) (s : str) : Z := rfind_from c s 0 (-1).

(** [s[:n]] and [s[n:]] for [n >= 0]. *)
Definition take (n : Z) (s : str) : str := firstn (Z.to_nat n) s.

Definition drop (n : Z) (s : str) : str := skipn (Z.to_nat n) s.

(** [pathlib], POSIX flavour.  The parts of a path are the runs between
    slashes, the empty ones and the ones that are a single dot left out;
    the name is the last part, or empty when there is none.  The suffix of
    a name starts at its last dot, unless that dot opens or closes the
    name; the stem is the name without the suffix. *)
Fixpoint split_slash (p : str) (current : str) : list str :=
  match p with
  | [] => [current]
  | c :: p' =>
      if char_eqb c "/" then current :: split_slash p' ""
      else split_slash p' (current +++ [c])
  end.

Definition path_parts (p : str) : list str :=
  filter (fun part => negb (str_eqb part "" || str_eqb part "."))
    (split_slash p "").

Definition path_name (p : str) : str := last (path_parts p) "".

Definition path_suffix (p : str) : str :=
  let name := path_name p in
  let i := rfind "." name in
  if (0 <? i) && (i <? slen name - 1) then drop i name else "".

Definition path_stem (p : str) : str :=
  let name := path_name p in
  let i := rfind "." name in
  if (0 <? i) && (i <? slen name - 1) then take i name else name.

(** *** [s.lower()]

    A character is mapped to its lowercase, one character, except the
    capital I with a dot above, which becomes two, and the capital sigma,
    which becomes the final sigma when a cased letter stands before it and
    none after it, characters that case ignores being skipped on both
    sides.  [lower_runs] lists the mapping as runs
    [(first, last, step, lower of first)]: every [step]-th character from
    [first] to [last] is mapped that far from itself.  [cased_ranges] lists
    the cased letters that are not case-ignorable, [case_ignorable_ranges]
    the case-ignorable characters. *)
Definition lower_runs : list (char * char * char * char) :=
  [(65, 90, 1, 97); (192, 214, 1, 224); (216, 222, 1, 248); (256, 302, 2,
   257); (306, 310, 2, 307); (313, 327, 2, 314); (330, 374, 2, 331); (376,
   376, 1, 255); (377, 381, 2, 378); (385, 385, 1, 595); (386, 388, 2, 387);
   (390, 390, 1, 596); (391, 391, 1, 392); (393, 394, 1, 598); (395, 395, 1,
   396); (398, 398, 1, 477); (399, 399, 1, 601); (400, 400, 1, 603); (401,
   401, 1, 402); (403, 403, 1, 608); (404, 404, 1, 611); (406, 406, 1, 617);
   (407, 407, 1, 616); (408, 408, 1, 409); (412, 412, 1, 623); (413, 413, 1,
   626); (415, 415, 1, 629); (416, 420, 2, 417); (422, 422, 1, 640); (423,
   423, 1, 424); (425, 425, 1, 643); (428, 428, 1, 429); (430, 430, 1, 648);
   (431, 431, 1, 432); (433, 434, 1, 650); (435, 437, 2, 436); (439, 439, 1,
   658); (440, 440, 1, 441); (444, 444, 1, 445); (452, 452, 1, 454); (453,
   453, 1, 454); (455, 455, 1, 457); (456, 456, 1, 457); (458, 458, 1, 460);
   (459, 475, 2, 460); (478, 494, 2, 479); (497, 497, 1, 499); (498, 500, 2,
   499); (502, 502, 1, 405); (503, 503, 1, 447); (504, 542, 2, 505); (544,
   544, 1, 414); (546, 562, 2, 547); (570, 570, 1, 11365); (571, 571, 1,
   572); (573, 573, 1, 410); (574, 574, 1, 11366); (577, 577, 1, 578); (579,
   579, 1, 384); (580, 580, 1, 649); (581, 581, 1, 652); (582, 590, 2, 583);
   (880, 882, 2, 881); (886, 886, 1, 887); (895, 895, 1, 1011); (902, 902, 1,
   940); (904, 906, 1, 941); (908, 908, 1, 972); (910, 911, 1, 973); (913,
   929, 1, 945); (931, 939, 1, 963); (975, 975, 1, 983); (984, 1006, 2, 985);
   (1012, 1012, 1, 952); (1015, 1015, 1, 1016); (1017, 1017, 1, 1010); (1018,
   1018, 1, 1019); (1021, 1023, 1, 891); (1024, 1039, 1, 1104); (1040, 1071,
   1, 1072); (1120, 1152, 2, 1121); (1162, 1214, 2, 1163); (1216, 1216, 1,
   1231); (1217, 1229, 2, 1218); (1232, 1326, 2, 1233); (1329, 1366, 1,
   1377); (4256, 4293, 1, 11520); (4295, 4295, 1, 11559); (4301, 4301, 1,
   11565); (5024, 5103, 1, 43888); (5104, 5109, 1, 5112); (7312, 7354, 1,
   4304); (7357, 7359, 1, 4349); (7680, 7828, 2, 7681); (7838, 7838, 1, 223);
   (7840, 7934, 2, 7841); (7944, 7951, 1, 7936); (7960, 7965, 1, 7952);
   (7976, 7983, 1, 7968); (7992, 7999, 1, 7984); (8008, 8013, 1, 8000);
   (8025, 8031, 2, 8017); (8040, 8047, 1, 8032); (8072, 8079, 1, 8064);
   (8088, 8095, 1, 8080); (8104, 8111, 1, 8096); (8120, 8121, 1, 8112);
   (8122, 8123, 1, 8048); (8124, 8124, 1, 8115); (8136, 8139, 1, 8050);
   (8140, 8140, 1, 8131); (8152, 8153, 1, 8144); (8154, 8155, 1, 8054);
   (8168, 8169, 1, 8160); (8170, 8171, 1, 8058); (8172, 8172, 1, 8165);
   (8184, 8185, 1, 8056); (8186, 8187, 1, 8060); (8188, 8188, 1, 8179);
   (8486, 8486, 1, 969); (8490, 8490, 1, 107); (8491, 8491, 1, 229); (8498,
   8498, 1, 8526); (8544, 8559, 1, 8560); (8579, 8579, 1, 8580); (9398, 9423,
   1, 9424); (11264, 11311, 1, 11312); (11360, 11360, 1, 11361); (11362,
   11362, 1, 619); (11363, 11363, 1, 7549); (11364, 11364, 1, 637); (11367,
   11371, 2, 11368); (11373, 11373, 1, 593); (11374, 11374, 1, 625); (11375,
   11375, 1, 592); (11376, 11376, 1, 594); (11378, 11378, 1, 11379); (11381,
   11381, 1, 11382); (11390, 11391, 1, 575); (11392, 11490, 2, 11393);
   (11499, 11501, 2, 11500); (11506, 11506, 1, 11507); (42560, 42604, 2,
   42561); (42624, 42650, 2, 42625); (42786, 42798, 2, 42787); (42802, 42862,
   2, 42803); (42873, 42875, 2, 42874); (42877, 42877, 1, 7545); (42878,
   42886, 2, 42879); (42891, 42891, 1, 42892); (42893, 42893, 1, 613);
   (42896, 42898, 2, 42897); (42902, 42920, 2, 42903); (42922, 42922, 1,
   614); (42923, 42923, 1, 604); (42924, 42924, 1, 609); (42925, 42925, 1,
   620); (42926, 42926, 1, 618); (42928, 42928, 1, 670); (42929, 42929, 1,
   647); (42930, 42930, 1, 669); (42931, 42931, 1, 43859); (42932, 42946, 2,
   42933); (42948, 42948, 1, 42900); (42949, 42949, 1, 642); (42950, 42950,
   1, 7566); (42951, 42953, 2, 42952); (42960, 42960, 1, 42961); (42966,
   42968, 2, 42967); (42997, 42997, 1, 42998); (65313, 65338, 1, 65345);
   (66560, 66599, 1, 66600); (66736, 66771, 1, 66776); (66928, 66938, 1,
   66967); (66940, 66954, 1, 66979); (66956, 66962, 1, 66995); (66964, 66965,
   1, 67003); (68736, 68786, 1, 68800); (71840, 71871, 1, 71872); (93760,
   93791, 1, 93792); (125184, 125217, 1, 125218)]%N.

Definition cased_ranges : list (char * char) :=
  [(65, 90); (97, 122); (170, 170); (181, 181); (186, 186); (192, 214); (216,
   246); (248, 442); (444, 447); (452, 659); (661, 687); (880, 883); (886,
   887); (891, 893); (895, 895); (902, 902); (904, 906); (908, 908); (910,
   929); (931, 1013); (1015, 1153); (1162, 1327); (1329, 1366); (1376, 1416);
   (4256, 4293); (4295, 4295); (4301, 4301); (4304, 4346); (4349, 4351);
   (5024, 5109); (5112, 5117); (7296, 7304); (7312, 7354); (7357, 7359);
   (7424, 7467); (7531, 7543); (7545, 7578); (7680, 7957); (7960, 7965);
   (7968, 8005); (8008, 8013); (8016, 8023); (8025, 8025); (8027, 8027);
   (8029, 8029); (8031, 8061); (8064, 8116); (8118, 8124); (8126, 8126);
   (8130, 8132); (8134, 8140); (8144, 8147); (8150, 8155); (8160, 8172);
   (8178, 8180); (8182, 8188); (8450, 8450); (8455, 8455); (8458, 8467);
   (8469, 8469); (8473, 8477); (8484, 8484); (8486, 8486); (8488, 8488);
   (8490, 8493); (8495, 8500); (8505, 8505); (8508, 8511); (8517, 8521);
   (8526, 8526); (8544, 8575); (8579, 8580); (9398, 9449); (11264, 11387);
   (11390, 11492); (11499, 11502); (11506, 11507); (11520, 11557); (11559,
   11559); (11565, 11565); (42560, 42605); (42624, 42651); (42786, 42863);
   (42865, 42887); (42891, 42894); (42896, 42954); (42960, 42961); (42963,
   42963); (42965, 42969); (42997, 42998); (43002, 43002); (43824, 43866);
   (43872, 43880); (43888, 43967); (64256, 64262); (64275, 64279); (65313,
   65338); (65345, 65370); (66560, 66639); (66736, 66771); (66776, 66811);
   (66928, 66938); (66940, 66954); (66956, 66962); (66964, 66965); (66967,
   66977); (66979, 66993); (66995, 67001); (67003, 67004); (68736, 68786);
   (68800, 68850); (71840, 71903); (93760, 93823); (119808, 119892); (119894,
   119964); (119966, 119967); (119970, 119970); (119973, 119974); (119977,
   119980); (119982, 119993); (119995, 119995); (119997, 120003); (120005,
   120069); (120071, 120074); (120077, 120084); (120086, 120092); (120094,
   120121); (120123, 120126); (120128, 120132); (120134, 120134); (120138,
   120144); (120146, 120485); (120488, 120512); (120514, 120538); (120540,
   120570); (120572, 120596); (120598, 120628); (120630, 120654); (120656,
   120686); (120688, 120712); (120714, 120744); (120746, 120770); (120772,
   120779); (122624, 122633); (122635, 122654); (125184, 125251); (127280,
   127305); (127312, 127337); (127344, 127369)]%N.

Definition case_ignorable_ranges : list (char * char) :=
  [(39, 39); (46, 46); (58, 58); (94, 94); (96, 96); (168, 168); (173, 173);
   (175, 175); (180, 180); (183, 184); (688, 879); (884, 885); (890, 890);
   (900, 901); (903, 903); (1155, 1161); (1369, 1369); (1375, 1375); (1425,
   1469); (1471, 1471); (1473, 1474); (1476, 1477); (1479, 1479); (1524,
   1524); (1536, 1541); (1552, 1562); (1564, 1564); (1600, 1600); (1611,
   1631); (1648, 1648); (1750, 1757); (1759, 1768); (1770, 1773); (1807,
   1807); (1809, 1809); (1840, 1866); (1958, 1968); (2027, 2037); (2042,
   2042); (2045, 2045); (2070, 2093); (2137, 2139); (2184, 2184); (2192,
   2193); (2200, 2207); (2249, 2306); (2362, 2362); (2364, 2364); (2369,
   2376); (2381, 2381); (2385, 2391); (2402, 2403); (2417, 2417); (2433,
   2433); (2492, 2492); (2497, 2500); (2509, 2509); (2530, 2531); (2558,
   2558); (2561, 2562); (2620, 2620); (2625, 2626); (2631, 2632); (2635,
   2637); (2641, 2641); (2672, 2673); (2677, 2677); (2689, 2690); (2748,
   2748); (2753, 2757); (2759, 2760); (2765, 2765); (2786, 2787); (2810,
   2815); (2817, 2817); (2876, 2876); (2879, 2879); (2881, 2884); (2893,
   2893); (2901, 2902); (2914, 2915); (2946, 2946); (3008, 3008); (3021,
   3021); (3072, 3072); (3076, 3076); (3132, 3132); (3134, 3136); (3142,
   3144); (3146, 3149); (3157, 3158); (3170, 3171); (3201, 3201); (3260,
   3260); (3263, 3263); (3270, 3270); (3276, 3277); (3298, 3299); (3328,
   3329); (3387, 3388); (3393, 3396); (3405, 3405); (3426, 3427); (3457,
   3457); (3530, 3530); (3538, 3540); (3542, 3542); (3633, 3633); (3636,
   3642); (3654, 3662); (3761, 3761); (3764, 3772); (3782, 3782); (3784,
   3789); (3864, 3865); (3893, 3893); (3895, 3895); (3897, 3897); (3953,
   3966); (3968, 3972); (3974, 3975); (3981, 3991); (3993, 4028); (4038,
   4038); (4141, 4144); (4146, 4151); (4153, 4154); (4157, 4158); (4184,
   4185); (4190, 4192); (4209, 4212); (4226, 4226); (4229, 4230); (4237,
   4237); (4253, 4253); (4348, 4348); (4957, 4959); (5906, 5908); (5938,
   5939); (5970, 5971); (6002, 6003); (6068, 6069); (6071, 6077); (6086,
   6086); (6089, 6099); (6103, 6103); (6109, 6109); (6155, 6159); (6211,
   6211); (6277, 6278); (6313, 6313); (6432, 6434); (6439, 6440); (6450,
   6450); (6457, 6459); (6679, 6680); (6683, 6683); (6742, 6742); (6744,
   6750); (6752, 6752); (6754, 6754); (6757, 6764); (6771, 6780); (6783,
   6783); (6823, 6823); (6832, 6862); (6912, 6915); (6964, 6964); (6966,
   6970); (6972, 6972); (6978, 6978); (7019, 7027); (7040, 7041); (7074,
   7077); (7080, 7081); (7083, 7085); (7142, 7142); (7144, 7145); (7149,
   7149); (7151, 7153); (7212, 7219); (7222, 7223); (7288, 7293); (7376,
   7378); (7380, 7392); (7394, 7400); (7405, 7405); (7412, 7412); (7416,
   7417); (7468, 7530); (7544, 7544); (7579, 7679); (8125, 8125); (8127,
   8129); (8141, 8143); (8157, 8159); (8173, 8175); (8189, 8190); (8203,
   8207); (8216, 8217); (8228, 8228); (8231, 8231); (8234, 8238); (8288,
   8292); (8294, 8303); (8305, 8305); (8319, 8319); (8336, 8348); (8400,
   8432); (11388, 11389); (11503, 11505); (11631, 11631); (11647, 11647);
   (11744, 11775); (11823, 11823); (12293, 12293); (12330, 12333); (12337,
   12341); (12347, 12347); (12441, 12446); (12540, 12542); (40981, 40981);
   (42232, 42237); (42508, 42508); (42607, 42610); (42612, 42621); (42623,
   42623); (42652, 42655); (42736, 42737); (42752, 42785); (42864, 42864);
   (42888, 42890); (42994, 42996); (43000, 43001); (43010, 43010); (43014,
   43014); (43019, 43019); (43045, 43046); (43052, 43052); (43204, 43205);
   (43232, 43249); (43263, 43263); (43302, 43309); (43335, 43345); (43392,
   43394); (43443, 43443); (43446, 43449); (43452, 43453); (43471, 43471);
   (43493, 43494); (43561, 43566); (43569, 43570); (43573, 43574); (43587,
   43587); (43596, 43596); (43632, 43632); (43644, 43644); (43696, 43696);
   (43698, 43700); (43703, 43704); (43710, 43711); (43713, 43713); (43741,
   43741); (43756, 43757); (43763, 43764); (43766, 43766); (43867, 43871);
   (43881, 43883); (44005, 44005); (44008, 44008); (44013, 44013); (64286,
   64286); (64434, 64450); (65024, 65039); (65043, 65043); (65056, 65071);
   (65106, 65106); (65109, 65109); (65279, 65279); (65287, 65287); (65294,
   65294); (65306, 65306); (65342, 65342); (65344, 65344); (65392, 65392);
   (65438, 65439); (65507, 65507); (65529, 65531); (66045, 66045); (66272,
   66272); (66422, 66426); (67456, 67461); (67463, 67504); (67506, 67514);
   (68097, 68099); (68101, 68102); (68108, 68111); (68152, 68154); (68159,
   68159); (68325, 68326); (68900, 68903); (69291, 69292); (69446, 69456);
   (69506, 69509); (69633, 69633); (69688, 69702); (69744, 69744); (69747,
   69748); (69759, 69761); (69811, 69814); (69817, 69818); (69821, 69821);
   (69826, 69826); (69837, 69837); (69888, 69890); (69927, 69931); (69933,
   69940); (70003, 70003); (70016, 70017); (70070, 70078); (70089, 70092);
   (70095, 70095); (70191, 70193); (70196, 70196); (70198, 70199); (70206,
   70206); (70367, 70367); (70371, 70378); (70400, 70401); (70459, 70460);
   (70464, 70464); (70502, 70508); (70512, 70516); (70712, 70719); (70722,
   70724); (70726, 70726); (70750, 70750); (70835, 70840); (70842, 70842);
   (70847, 70848); (70850, 70851); (71090, 71093); (71100, 71101); (71103,
   71104); (71132, 71133); (71219, 71226); (71229, 71229); (71231, 71232);
   (71339, 71339); (71341, 71341); (71344, 71349); (71351, 71351); (71453,
   71455); (71458, 71461); (71463, 71467); (71727, 71735); (71737, 71738);
   (71995, 71996); (71998, 71998); (72003, 72003); (72148, 72151); (72154,
   72155); (72160, 72160); (72193, 72202); (72243, 72248); (72251, 72254);
   (72263, 72263); (72273, 72278); (72281, 72283); (72330, 72342); (72344,
   72345); (72752, 72758); (72760, 72765); (72767, 72767); (72850, 72871);
   (72874, 72880); (72882, 72883); (72885, 72886); (73009, 73014); (73018,
   73018); (73020, 73021); (73023, 73029); (73031, 73031); (73104, 73105);
   (73109, 73109); (73111, 73111); (73459, 73460); (78896, 78904); (92912,
   92916); (92976, 92982); (92992, 92995); (94031, 94031); (94095, 94111);
   (94176, 94177); (94179, 94180); (110576, 110579); (110581, 110587);
   (110589, 110590); (113821, 113822); (113824, 113827); (118528, 118573);
   (118576, 118598); (119143, 119145); (119155, 119170); (119173, 119179);
   (119210, 119213); (119362, 119364); (121344, 121398); (121403, 121452);
   (121461, 121461); (121476, 121476); (121499, 121503); (121505, 121519);
   (122880, 122886); (122888, 122904); (122907, 122913); (122915, 122916);
   (122918, 122922); (123184, 123197); (123566, 123566); (123628, 123631);
   (125136, 125142); (125252, 125259); (127995, 127999); (917505, 917505);
   (917536, 917631); (917760, 917999)]%N.

Definition in_run (c : char) (run : char * char * char * char) : bool :=
  let '(first, last, step, _) := run in
  (first <=? c)%N && (c <=? last)%N && ((c - first) mod step =? 0)%N.

Definition lower_char (c : char) : str :=
  if (c =? 304)%N then [105; 775]%N
  else
    match find (in_run c) lower_runs with
    | Some (first, _, _, target) => [(target + (c - first))%N]
    | None => [c]
    end.

Definition capital_sigma : char := 931%N.

Fixpoint first_not_ignorable (s : str) : option char :=
  match s with
  | [] => None
  | c :: s' =>
      if in_ranges case_ignorable_ranges c then first_not_ignorable s' else Some c
  end.

(** [before] is what precedes the sigma, nearest character first. *)
Definition final_sigma (before after : str) : bool :=
  match first_not_ignorable before with
  | Some c =>
      in_ranges cased_ranges c
      && match first_not_ignorable after with
         | Some c' => negb (in_ranges cased_ranges c')
         | None => true
         end
  | None => false
  end.

Fixpoint lower_from (before : str) (s : str) : str :=
  match s with
  | [] => []
  | c :: s' =>
      (if char_eqb c capital_sigma
       then [if final_sigma before s' then 962%N else 963%N]
       else lower_char c)
      +++ lower_from (c :: before) s'
  end.

Definition lower (s : str) : str := lower_from "" s.

(** [s.endswith(t)] *)
Definition endswith (s t : str) : bool :=
  (slen t <=? slen s) && str_eqb (drop (slen s - slen t) s) t.

(** ** Floats: the exact value *)

Local Open Scope float_scope.

(** Round-half-even division of a non-negative [a] by a positive [b]. *)
Definition div_half_even (a b : Z) : Z :=
  let q := (a / b)%Z in
  let r := (a mod b)%Z in
  match (2 * r ?= b)%Z with
  | Lt => q
  | Gt => (q + 1)%Z
  | Eq => if Z.even q then q else (q + 1)%Z
  end.

(** The float nearest to [z] (ties to even); infinite beyond the range. *)
Definition SF_of_Z (z : Z) : spec_float := binary_normalize prec emax z 0 false.

(** The float nearest to [(-1)^neg * n / d], for [n >= 0] and [d > 0]. *)
Definition SF_of_ratio (neg : bool) (n d : Z) : spec_float :=
  match n, d with
  | Zpos pn, Zpos pd =>
      SFdiv prec emax (S754_finite neg pn 0) (S754_finite false pd 0)
  | Z0, Zpos _ => S754_zero neg
  | _, _ => S754_nan
  end.

(** [float(z)] for an [int]: [OverflowError] beyond the range of a float. *)
Definition float_of_int (z : Z) : result float :=
  match SF_of_Z z with
  | S754_infinity _ => Raise OverflowError
  | sf => Ok (SF2Prim sf)
  end.

(** The magnitude of a finite non-zero float [m * 2^e] as a fraction. *)
Definition frac_of (m : positive) (e : Z) : Z * Z :=
  match e with
  | Zneg pe => (Zpos m, 2 ^ Zpos pe)%Z
  | _ => (Zpos m * 2 ^ e, 1)%Z
  end.

(** [math.floor], [math.ceil] and [int] of a float. *)
Definition py_floor (x : float) : result Z :=
  match Prim2SF x with
  | S754_nan => Raise ValueError
  | S754_infinity _ => Raise OverflowError
  | S754_zero _ => Ok 0%Z
  | S754_finite s m e =>
      let '(n, d) := frac_of m e in
      Ok (if s then (- ((n + d - 1) / d))%Z else (n / d)%Z)
  end.

Definition py_ceil (x : float) : result Z :=
  match Prim2SF x with
  | S754_nan => Raise ValueError
  | S754_infinity _ => Raise OverflowError
  | S754_zero _ => Ok 0%Z
  | S754_finite s m e =>
      let '(n, d) := frac_of m e in
      Ok (if s then (- (n / d))%Z else ((n + d - 1) / d)%Z)
  end.

Definition py_int (x : float) : result Z :=
  match Prim2SF x with
  | S754_nan => Raise ValueError
  | S754_infinity _ => Raise OverflowError
  | S754_zero _ => Ok 0%Z
  | S754_finite s m e =>
      let '(n, d) := frac_of m e in
      Ok (if s then (- (n / d))%Z else (n / d)%Z)
  end.

(** C's [floor] on doubles: the result is again a float. *)
Definition float_floor (x : float) : float :=
  match Prim2SF x with
  | S754_finite s m e =>
      let '(n, d) := frac_of m e in
      let z := if s then (- ((n + d - 1) / d))%Z else (n / d)%Z in
      SF2Prim (binary_normalize prec emax z 0 s)
  | _ => x
  end.

(** C's [fmod]: [x - n*y] for the integer [n] nearest zero-wards of [x/y];
    the result is exact and carries the sign of [x]. *)
Definition fmod (x y : float) : float :=
  match Prim2SF x, Prim2SF y with
  | S754_nan, _ | _, S754_nan => nan
  | S754_infinity _, _ => nan
  | _, S754_zero _ => nan
  | _, S754_infinity _ => x
  | S754_zero _, _ => x
  | S754_finite sx mx ex, S754_finite _ my ey =>
      let e := Z.min ex ey in
      let X := (Zpos mx * 2 ^ (ex - e))%Z in
      let Y := (Zpos my * 2 ^ (ey - e))%Z in
      let R := (X mod Y)%Z in
      SF2Prim (binary_normalize prec emax (if sx then (- R)%Z else R) e sx)
  end.

Definition copysign_zero (y : float) : float :=
  if get_sign y then neg_zero else zero.

(** [x / y] on floats. *)
Definition py_div (x y : float) : result float :=
  if y =? 0 then Raise ZeroDivisionError else Ok (x / y).

(** [x % y] on floats: the remainder takes the sign of the divisor (a zero
    remainder too). *)
Definition py_mod (x y : float) : result float :=
  if y =? 0 then Raise ZeroDivisionError
  else
    let m := fmod x y in
    if m =? 0 then Ok (copysign_zero y)
    else if xorb (y <? 0) (m <? 0) then Ok (m + y)
    else Ok m.

(** [x // y] on floats: the quotient of [x] less the remainder, snapped to
    the nearest whole number. *)
Definition py_floordiv (x y : float) : result float :=
  if y =? 0 then Raise ZeroDivisionError
  else
    let m := fmod x y in
    let d := (x - m) / y in
    let d' :=
      if m =? 0 then d
      else if xorb (y <? 0) (m <? 0) then d - 1 else d in
    if d' =? 0 then Ok (copysign_zero (x / y))
    else
      let f := float_floor d' in
      Ok (if 0.5 <? d' - f then f + 1 else f).

(** [a / b] on ints: the quotient, correctly rounded. *)
Definition int_truediv (a b : Z) : result float :=
  if (b =? 0)%Z then Raise ZeroDivisionError
  else
    match SF_of_ratio (xorb (a <? 0)%Z (b <? 0)%Z) (Z.abs a) (Z.abs b) with
    | S754_infinity _ => Raise OverflowError
    | sf => Ok (SF2Prim sf)
    end.

(** ** Floats: decimal text *)

Definition sign_str (s : bool) : str := if s then "-" else "".

Definition pad_zeros (s : str) (w : Z) : str :=
  repeat_char "0" (Z.to_nat (w - slen s)) +++ s.

(** [n/d * 10^k], rounded half-even to an integer, on the exact value. *)
Definition scaled_round (n d k : Z) : Z :=
  if (0 <=? k)%Z then div_half_even (n * 10 ^ k) d
  else div_half_even n (d * 10 ^ (- k)).

Definition scaled_floor (n d k : Z) : Z :=
  if (0 <=? k)%Z then (n * 10 ^ k / d)%Z else (n / (d * 10 ^ (- k)))%Z.

(** [N] written with [k] digits after the point. *)
Definition fixed_digits (N k : Z) : str :=
  str_of_nonneg (N / 10 ^ k) +++
  (if (k <=? 0)%Z then "" else "."%chr :: (pad_zeros (str_of_nonneg (N mod 10 ^ k)) k)).

(** [f"{x:.kf}"]. *)
Definition format_fixed (k : Z) (x : float) : str :=
  match Prim2SF x with
  | S754_nan => "nan"
  | S754_infinity s => sign_str s +++ "inf"
  | S754_zero s => sign_str s +++ fixed_digits 0 k
  | S754_finite s m e =>
      let '(n, d) := frac_of m e in
      sign_str s +++ fixed_digits (scaled_round n d k) k
  end.

(** The decimal exponent [X] of [n/d]: [10^X <= n/d < 10^(X+1)]. *)
Definition ge_pow10 (n d X : Z) : bool :=
  if (0 <=? X)%Z then (10 ^ X * d <=? n)%Z else (d <=? n * 10 ^ (- X))%Z.

Fixpoint find_exp10 (fuel : nat) (n d X : Z) : Z :=
  match fuel with
  | O => X
  | S fuel' => if ge_pow10 n d X then X else find_exp10 fuel' n d (X - 1)
  end.

Definition exp10 (n d : Z) : Z :=
  find_exp10 6 n d ((Z.log2 n - Z.log2 d) * 30103 / 100000 + 2).

(** [p] significant digits of [n/d], rounded half-even: the digits as an
    integer [N] with [10^(p-1) <= N < 10^p], and the decimal exponent. *)
Definition normalize_digits (p N X : Z) : Z * Z :=
  if (N =? 10 ^ p)%Z then (10 ^ (p - 1), X + 1)%Z else (N, X).

Definition sig_digits (p n d : Z) : Z * Z :=
  let X := exp10 n d in
  normalize_digits p (scaled_round n d (p - 1 - X)) X.

(** Digits [N] ([p] of them) at decimal exponent [X], in positional
    notation, trailing zeros dropped. *)
Definition positional (p N X : Z) : str :=
  let k := (p - 1 - X)%Z in
  if (k <=? 0)%Z then str_of_nonneg (N * 10 ^ (- k))
  else
    let frac := rstrip "0" (pad_zeros (str_of_nonneg (N mod 10 ^ k)) k) in
    str_of_nonneg (N / 10 ^ k) +++
    (match frac with [] => "" | _ => "."%chr :: frac end).

(** The same digits in exponent notation, [d.ddde+XX]. *)
Definition exponential (p N X : Z) : str :=
  let frac := rstrip "0" (pad_zeros (str_of_nonneg (N mod 10 ^ (p - 1))) (p - 1)) in
  str_of_nonneg (N / 10 ^ (p - 1)) +++
  (match frac with [] => "" | _ => "."%chr :: frac end) +++
  "e" +++ (if (X <? 0)%Z then "-" else "+") +++ pad_zeros (str_of_nonneg (Z.abs X)) 2.

(** [f"{x:g}"]: six significant digits, positional notation for decimal
    exponents from -4 to 5, trailing zeros dropped. *)
Definition format_g (x : float) : str :=
  match Prim2SF x with
  | S754_nan => "nan"
  | S754_infinity s => sign_str s +++ "inf"
  | S754_zero s => sign_str s +++ "0"
  | S754_finite s m e =>
      let '(n, d) := frac_of m e in
      let '(N, X) := sig_digits 6 n d in
      sign_str s +++
      (if (X <? -4)%Z || (6 <=? X)%Z then exponential 6 N X else positional 6 N X)
  end.

(** The float nearest to [(-1)^s * N * 10^e10]. *)
Definition SF_of_decimal (s : bool) (N e10 : Z) : spec_float :=
  if (0 <=? e10)%Z then SF_of_ratio s (N * 10 ^ e10) 1
  else SF_of_ratio s N (10 ^ (- e10)).

(** [repr(x)]: the shortest digit str that reads back as [x]. *)
Definition reads_back (s : bool) (N e10 : Z) (x : float) : bool :=
  Leibniz.eqb (SF2Prim (SF_of_decimal s N e10)) x.

Fixpoint shortest_digits (fuel : nat) (p : Z) (s : bool) (n d : Z) (x : float)
  : Z * (Z * Z) :=
  let X := exp10 n d in
  let near := scaled_round n d (p - 1 - X) in
  let lo := scaled_floor n d (p - 1 - X) in
  let far := if (near =? lo)%Z then (lo + 1)%Z else lo in
  match fuel with
  | O => (p, normalize_digits p near X)
  | S fuel' =>
      if reads_back s near (X - (p - 1)) x then (p, normalize_digits p near X)
      else if reads_back s far (X - (p - 1)) x then (p, normalize_digits p far X)
      else shortest_digits fuel' (p + 1) s n d x
  end.

Definition float_repr (x : float) : str :=
  match Prim2SF x with
  | S754_nan => "nan"
  | S754_infinity s => sign_str s +++ "inf"
  | S754_zero s => sign_str s +++ "0.0"
  | S754_finite s m e =>
      let '(n, d) := frac_of m e in
      let '(p, (N, X)) := shortest_digits 16 1 s n d x in
      sign_str s +++
      (if (X <? -4)%Z || (16 <=? X)%Z then exponential p N X
       else
         let t := positional p N X in
         if (p - 1 - X <=? 0)%Z then t +++ ".0"
         else match rstrip "0" (pad_zeros (str_of_nonneg (N mod 10 ^ (p - 1 - X))) (p - 1 - X)) with
              | [] => t +++ ".0"
              | _ => t
              end)
  end.

(** [round(x, k)] for [k >= 0]: the float nearest to the decimal that is
    [x] rounded half-even, on its exact value, to [k] places. *)
Definition py_round (x : float) (k : Z) : float :=
  match Prim2SF x with
  | S754_finite s m e =>
      let '(n, d) := frac_of m e in
      SF2Prim (SF_of_ratio s (scaled_round n d k) (10 ^ k))
  | _ => x
  end.

(** [float(s)] on the strings the filename pattern captures: digits, then
    optionally a point and more digits.  [float(None)] raises [TypeError]. *)
Fixpoint split_point (s : str) : str * option str :=
  match s with
  | [] => ([], None)
  | c :: s' =>
      if char_eqb c "." then ([], Some s')
      else let '(a, b) := split_point s' in (c :: a, b)
  end.

Definition float_of_str (s : option str) : result float :=
  match s with
  | None => Raise TypeError
  | Some s =>
      let '(ip, fp) := split_point s in
      let fd := match fp with Some f => f | None => [] end in
      if all_digits ip && all_digits fd
         && negb (slen ip =? 0)%Z
         && match fp with Some f => negb (slen f =? 0)%Z | None => true end
      then Ok (SF2Prim (SF_of_decimal false (digits_value (ip +++ fd) 0) (- slen fd)))
      else Raise ValueError
  end.

(** ** Numbers that are [int] at one place and [float] at another *)

Inductive num : Type :=
| Int (z : Z)
| Flt (f : float).

Definition num_to_float (n : num) : result float :=
  match n with
  | Int z => float_of_int z
  | Flt f => Ok f
  end.

(** [a != z] for a float and an int: Python compares the exact values. *)
Definition float_eq_int (a : float) (z : Z) : bool :=
  match Prim2SF a with
  | S754_zero _ => (z =? 0)%Z
  | S754_finite s m e =>
      let '(n, d) := frac_of m e in
      ((if s then (- n)%Z else n) =? z * d)%Z
  | _ => false
  end.

Definition num_eqb (a b : num) : bool :=
  match a, b with
  | Int x, Int y => (x =? y)%Z
  | Flt x, Flt y => x =? y
  | Flt x, Int y => float_eq_int x y
  | Int x, Flt y => float_eq_int y x
  end.

(** [int(n)]. *)
Definition num_int (n : num) : result Z :=
  match n with
  | Int z => Ok z
  | Flt f => py_int f
  end.

(** ** [sorted] and [list.sort]: stable, comparing keys with [<] *)

Fixpoint insert_sorted {A : Type} (lt : A -> A -> bool) (x : A) (l : list A) : list A :=
  match l with
  | [] => [x]
  | y :: l' => if lt x y then x :: y :: l' else y :: insert_sorted lt x l'
  end.

Definition sorted {A : Type} (lt : A -> A -> bool) (l : list A) : list A :=
  fold_left (fun acc x => insert_sorted lt x acc) l [].

(** ** [dict] with float keys: insertion order, keys compared with [==] *)

Section Dict.
Context {V : Type}.

Definition dict : Type := list (float * V).

Fixpoint dict_get (d : dict) (k : float) : option V :=
  match d with
  | [] => None
  | (k', v) :: d' => if k' =? k then Some v else dict_get d' k
  end.

Fixpoint dict_set (d : dict) (k : float) (v : V) : dict :=
  match d with
  | [] => [(k, v)]
  | (k', v') :: d' => if k' =? k then (k', v) :: d' else (k', v') :: dict_set d' k v
  end.

Definition dict_keys (d : dict) : list float := map fst d.

End Dict.

Arguments dict V : clear implicits.

(** ** [re.match] for the constructs the filename pattern uses *)

Inductive cls : Type :=
| CDigit   (* \d *)
| CAny.    (* .  : any character but a newline *)

Definition cls_match (c : cls) (a : char) : bool :=
  match c with
  | CDigit => is_digit a
  | CAny => negb (char_eqb a newline)
  end.

Inductive regex : Type :=
| RLit (t : str)                (* literal text *)
| RPlus (greedy : bool) (c : cls)  (* c+  and  c+? *)
| RSeq (r1 r2 : regex)
| ROpt (r : regex)                 (* (?:r)? *)
| RGroup (n : nat) (r : regex).    (* the n-th capturing group *)

Definition groups : Type := list (nat * str).

Fixpoint group (g : groups) (n : nat) : option str :=
  match g with
  | [] => None
  | (m, s) :: g' => if Nat.eqb m n then Some s else group g' n
  end.

Fixpoint strip_prefix (t s : str) : option str :=
  match t, s with
  | [], _ => Some s
  | a :: t', b :: s' => if char_eqb a b then strip_prefix t' s' else None
  | _ :: _, [] => None
  end.

(** After one character of the class is taken: a greedy repetition tries
    to take more before it lets the rest of the pattern run, a lazy one
    lets the rest run first.  [k] is the rest of the pattern; a [None] from
    it makes the matcher backtrack. *)
Fixpoint plus_loop {A : Type} (greedy : bool) (c : cls) (s : str)
  (k : str -> option A) : option A :=
  match s with
  | a :: s' =>
      if cls_match c a then
        if greedy then
          match plus_loop greedy c s' k with
          | Some x => Some x
          | None => k s
          end
        else
          match k s with
          | Some x => Some x
          | None => plus_loop greedy c s' k
          end
      else k s
  | [] => k s
  end.

Fixpoint rmatch {A : Type} (r : regex) (s : str) (g : groups)
  (k : str -> groups -> option A) : option A :=
  match r with
  | RLit t =>
      match strip_prefix t s with
      | Some s' => k s' g
      | None => None
      end
  | RPlus greedy c =>
      match s with
      | a :: s' =>
          if cls_match c a then plus_loop greedy c s' (fun s'' => k s'' g) else None
      | [] => None
      end
  | RSeq r1 r2 => rmatch r1 s g (fun s' g' => rmatch r2 s' g' k)
  | ROpt r' =>
      match rmatch r' s g k with
      | Some x => Some x
      | None => k s g
      end
  | RGroup n r' =>
      rmatch r' s g (fun s' g' => k s' ((n, take (slen s - slen s') s) :: g'))
  end.

(** [re.match(r, s)]: the pattern must match at the start of [s]; what
    follows the match is free. *)
Definition re_match (r : regex) (s : str) : option groups :=
  rmatch r s [] (fun _ g => Some g).

End Py.

Import Py.

Local Open Scope str_scope.

Declare Scope py_scope.
Delimit Scope py_scope with py.
Notation "x <- e ;; k" := (Py.bind e (fun x => k))
  (at level 61, e at next level, right associativity) : py_scope.
Notation "r1 ;;; r2" := (Py.RSeq r1 r2)
  (at level 62, right associativity) : py_scope.
Local Open Scope py_scope.

Set Warnings "-inexact-float".

(* ================================================================== *)
(** * Data model *)
(* ================================================================== *)

Record TimeSignature : Type := {
  numerator : Z;
  denominator : Z
}.

(** A segment as [create_tempo_segments] builds it and as
    [generate_segment_filename] and [create_tempo_segment_with_audio] read
    it.  [seg_time_signature = None] is a segment dict without the key
    ["time_signature"]. *)
Record Segment : Type := {
  start_ms : float;
  end_ms : float;
  duration_ms : float;
  seg_bpm : float;
  seg_tempo : option num;
  seg_time_signature : option TimeSignature
}.

(** One entry of the change map that [midi.py] builds and [audio.py]
    reads: what changed at a millisecond offset. *)
Record TempoChange : Type := {
  tc_time_ms : float;
  tc_bpm : float;
  tc_tempo : num
}.

Record Change : Type := {
  ch_tempo : option TempoChange;
  ch_time_signature : option TimeSignature
}.

Definition ChangeMap : Type := dict Change.

(* ================================================================== *)
(** * External collaborators *)
(* ================================================================== *)

Module Synth.

Local Open Scope float_scope.

(** Modelled from the spec: the beatmap object of the external container
    package (synth_mapping_helper), as far as section 6 of the
    specification exposes it: [bpm], [offset_ms], the audio, the note
    positions of a difficulty by hand category, and the bookmarks.
    [timing] keeps the request made to the timing-marker generator, whose
    geometry is the external pattern generator's. *)
Record Notes : Type := {
  right : list float;
  left : list float;
  single : list float;
  both : list float
}.

Record TimingGrid : Type := {
  tg_beats_per_measure : Z;
  tg_note_value : float;
  tg_start_beat : Z;
  tg_end_beat : Z
}.

Inductive Audio : Type :=
| WholeTrack
| Slice (from_ms to_ms : float).

Record SynthFile : Type := {
  bpm : float;
  offset_ms : num;
  audio : Audio;
  expert : option Notes;
  bookmarks : list (num * str);
  timing : option TimingGrid
}.

(** Modelled from the spec: [second_to_beat], one beat lasting [60 / bpm]
    seconds. *)
Definition second_to_beat (second bpm : float) : float := second * bpm / 60.

(** Modelled from the spec: [change_bpm] and [change_offset] set the
    field. *)
Definition change_bpm (f : SynthFile) (new_bpm : float) : SynthFile :=
  {| bpm := new_bpm; offset_ms := offset_ms f; audio := audio f;
     expert := expert f; bookmarks := bookmarks f; timing := timing f |}.

Definition change_offset (f : SynthFile) (new_offset : num) : SynthFile :=
  {| bpm := bpm f; offset_ms := new_offset; audio := audio f;
     expert := expert f; bookmarks := bookmarks f; timing := timing f |}.

Definition set_audio (f : SynthFile) (a : Audio) : SynthFile :=
  {| bpm := bpm f; offset_ms := offset_ms f; audio := a;
     expert := expert f; bookmarks := bookmarks f; timing := timing f |}.

Definition set_timing (f : SynthFile) (t : TimingGrid) : SynthFile :=
  {| bpm := bpm f; offset_ms := offset_ms f; audio := audio f;
     expert := expert f; bookmarks := bookmarks f; timing := Some t |}.

Fixpoint bookmarks_set (l : list (num * str)) (beat : num) (label : str)
  : list (num * str) :=
  match l with
  | [] => [(beat, label)]
  | (k, v) :: l' =>
      if num_eqb k beat then (k, label) :: l' else (k, v) :: bookmarks_set l' beat label
  end.

Definition set_bookmark (f : SynthFile) (beat : num) (label : str) : SynthFile :=
  {| bpm := bpm f; offset_ms := offset_ms f; audio := audio f;
     expert := expert f;
     bookmarks := bookmarks_set (bookmarks f) beat label;
     timing := timing f |}.

(** Modelled from the spec: [offset_everything(delta_s)] shifts every
    timed entity by [delta_s] seconds expressed in the beats of the file's
    own BPM. *)
Definition shift_num (by_beats : float) (n : num) : num :=
  match n with
  | Flt x => Flt (x + by_beats)
  | Int z => match float_of_int z with Ok x => Flt (x + by_beats) | Raise _ => Int z end
  end.

Definition offset_everything (f : SynthFile) (delta_s : float) : SynthFile :=
  let by_beats := second_to_beat delta_s (bpm f) in
  let sh := map (fun x => x + by_beats) in
  {| bpm := bpm f; offset_ms := offset_ms f; audio := audio f;
     expert := match expert f with
               | Some n => Some {| right := sh (right n); left := sh (left n);
                                   single := sh (single n); both := sh (both n) |}
               | None => None
               end;
     bookmarks := map (fun b => (shift_num by_beats (fst b), snd b)) (bookmarks f);
     timing := timing f |}.

(** Modelled from the spec: [merge(other, adjust_bpm=True)] appends the
    other beatmap to the accumulating one.  The merged beatmap is kept as
    its base and the appended beatmaps in the order of the calls. *)
Record Merged : Type := {
  merged_base : SynthFile;
  merged_parts : list SynthFile
}.

Definition merge (m : Merged) (other : SynthFile) : Merged :=
  {| merged_base := merged_base m; merged_parts := merged_parts m ++ [other] |}.

End Synth.

(* ================================================================== *)
(** * util.py *)
(* ================================================================== *)

Module Util.

Local Open Scope float_scope.

(** [f"{x:.3f}".rstrip("0").rstrip(".")] *)
Definition seconds_str (x : float) : str :=
  rstrip "." (rstrip "0" (format_fixed 3 x)).

Definition generate_segment_filename
  (base_path : str) (index total_count : Z) (segment : Segment) : result str :=
  let stem := path_stem base_path in
  let suffix := path_suffix base_path in
  (* number of digits needed for zero-padding *)
  total_str <- str_of_int total_count ;;
  let digits := slen total_str in
  index_str <- str_of_int (index + 1) ;;
  let sequence_num := zfill index_str digits in
  let bpm_str := format_g (seg_bpm segment) in
  let start_sec := start_ms segment / 1000 in
  let end_sec := end_ms segment / 1000 in
  let duration_sec := duration_ms segment / 1000 in
  let start_str := seconds_str start_sec in
  let end_str := seconds_str end_sec in
  let duration_str := seconds_str duration_sec in
  time_sig_str <-
    match seg_time_signature segment with
    | Some ts =>
        numerator_str <- str_of_int (numerator ts) ;;
        denominator_str <- str_of_int (denominator ts) ;;
        Ok ("_TimeSignature" +++ numerator_str +++ "-" +++ denominator_str)
    | None => Ok ""
    end ;;
  Ok (stem +++ "_" +++ sequence_num +++ "_BPM" +++ bpm_str +++ time_sig_str +++
      "_" +++ start_str +++ "s-" +++ end_str +++ "s_dur" +++ duration_str +++
      "s_Segment" +++ suffix).

(** The argument dict of [beats_per_measure_from_time_signature]: either
    key may be missing. *)
Record ts_dict : Type := {
  td_numerator : option Z;
  td_denominator : option Z
}.

Definition beats_per_measure_from_time_signature (time_signature : ts_dict)
  : result Z :=
  let numerator := match td_numerator time_signature with Some n => n | None => 4%Z end in
  let denominator := match td_denominator time_signature with Some d => d | None => 4%Z end in
  ratio <- int_truediv denominator 4 ;;
  n <- float_of_int numerator ;;
  q <- py_div n ratio ;;
  py_int q.

(** [any(x)] for a [bool] [x]: a [bool] is not iterable, and [any] raises
    [TypeError]. *)
Definition any_of_bool (x : bool) : result bool := Raise TypeError.

(** The inner loop of [find_ogg_file_in_synth], over the files of one
    directory; [join] is [os.path.join]. *)
Fixpoint find_ogg_file_among (join : str -> str -> str) (root : str)
  (files : list str) : result (option str) :=
  match files with
  | [] => Ok None
  | file :: rest =>
      found <- any_of_bool (endswith (lower file) "ogg") ;;
      if found then Ok (Some (join root file))
      else find_ogg_file_among join root rest
  end.

(** [walk] is what [os.walk(temp_dir)] yields: each directory of the tree
    with the names of its subdirectories and of its files. *)
Fixpoint find_ogg_file_in_synth (join : str -> str -> str)
  (walk : list (str * list str * list str)) : result (option str) :=
  match walk with
  | [] => Ok None
  | (root, dirs, files) :: rest =>
      here <- find_ogg_file_among join root files ;;
      match here with
      | Some path => Ok (Some path)
      | None => find_ogg_file_in_synth join rest
      end
  end.

(** What [validate_inputs] asks of the file system: whether a path exists
    ([os.path.exists]), and whether the output directory is there or can be
    made ([mkdir(parents=True, exist_ok=True)] raises neither
    [PermissionError] nor [OSError]). *)
Record files : Type := {
  path_exists : str -> bool;
  mkdir_ok : str -> bool
}.

(** The messages that [validate_inputs] collects. *)
Inductive input_error : Type :=
| MidiMissing        (* MIDI file '...' does not exist. *)
| NotMidi            (* File '...' does not appear to be a MIDI file. *)
| SourceMissing      (* Source beatmap file '...' does not exist. *)
| NotSynth           (* Source file '...' does not appear to be a .synth file. *)
| NoOutputDir.       (* Cannot create output directory '...' *)

Definition input_errors (fs : files) (midi_file source_synth output_dir : str)
  : list input_error :=
  let errors := [] in
  (* check MIDI file *)
  let errors :=
    if negb (path_exists fs midi_file) then errors ++ [MidiMissing]
    else if negb (endswith (lower midi_file) ".mid"
                  || endswith (lower midi_file) ".midi")
         then errors ++ [NotMidi]
         else errors in
  (* check source synth file *)
  let errors :=
    if negb (path_exists fs source_synth) then errors ++ [SourceMissing]
    else if negb (endswith (lower source_synth) ".synth")
         then errors ++ [NotSynth]
         else errors in
  (* validate output directory path *)
  let errors :=
    if mkdir_ok fs output_dir then errors else errors ++ [NoOutputDir] in
  errors.

Definition validate_inputs (fs : files) (midi_file source_synth output_dir : str)
  : bool :=
  match input_errors fs midi_file source_synth output_dir with
  | [] => true
  | _ :: _ => false
  end.

End Util.

(* ================================================================== *)
(** * midi.py *)
(* ================================================================== *)

Module Midi.

Local Open Scope float_scope.

(** The parsed MIDI structure (mido): ticks per beat and, per track, the
    messages with their tick delta. *)
Inductive payload : Type :=
| SetTempo (tempo : Z)
| TimeSig (num den clocks_per_click notated_32nd_notes_per_beat : Z)
| Other.

Record Message : Type := {
  msg_time : Z;
  msg_type : payload
}.

Record MidiFile : Type := {
  ticks_per_beat : Z;
  tracks : list (list Message)
}.

Record TempoEvent : Type := {
  time_ticks : Z;
  tempo : Z;
  track : Z
}.

Record TimeSigChange : Type := {
  ts_numerator : Z;
  ts_denominator : Z;
  ts_time_ticks : Z;
  ts_time_ms : float;
  ts_clocks_per_click : Z;
  ts_notated_32nd_notes_per_beat : Z;
  ts_track : Z
}.

(** Modelled from the spec: [mido.tick2second], seconds elapsed over a span
    of ticks under one tempo (microseconds per beat).  The specification
    gives the span in milliseconds, [ticks * T / ticks_per_beat / 1000];
    mido returns seconds and computes them as [tick * scale] with
    [scale = tempo * 1e-6 / ticks_per_beat]. *)
Definition tick2second (tick ticks_per_beat : Z) (tempo : num) : result float :=
  t <- num_to_float tempo ;;
  tpb <- float_of_int ticks_per_beat ;;
  scale <- py_div (t * 1e-6) tpb ;;
  ft <- float_of_int tick ;;
  Ok (ft * scale).

(** Modelled from the spec: [mido.tempo2bpm], [60,000,000 / micros]. *)
Definition tempo2bpm (tempo : num) : result float :=
  match tempo with
  | Int z => int_truediv 60000000 z
  | Flt f => py_div 60000000 f
  end.

(** What both exits of the loop of [calculate_time_from_ticks] add: the
    span from the last tempo change to the target, when there is one. *)
Definition add_remaining (target_ticks ticks_per_beat : Z)
  (current_time_seconds : float) (current_tempo : num) (last_tick_position : Z)
  : result float :=
  let remaining_ticks := (target_ticks - last_tick_position)%Z in
  if (0 <? remaining_ticks)%Z then
    s <- tick2second remaining_ticks ticks_per_beat current_tempo ;;
    Ok (current_time_seconds + s)
  else Ok current_time_seconds.

(** The [for ... else] over the tempo events, with the loop's variables as
    arguments. *)
Fixpoint walk_tempo_events (target_ticks ticks_per_beat : Z)
  (tempo_events : list TempoEvent)
  (current_time_seconds : float) (current_tempo : num) (last_tick_position : Z)
  : result float :=
  match tempo_events with
  | [] =>
      (* else: no tempo change after the target *)
      add_remaining target_ticks ticks_per_beat
        current_time_seconds current_tempo last_tick_position
  | tempo_event :: rest =>
      let tempo_change_tick := time_ticks tempo_event in
      if (target_ticks <=? tempo_change_tick)%Z then
        (* break *)
        add_remaining target_ticks ticks_per_beat
          current_time_seconds current_tempo last_tick_position
      else
        time' <-
          (if (last_tick_position <? tempo_change_tick)%Z then
             s <- tick2second (tempo_change_tick - last_tick_position)
                    ticks_per_beat current_tempo ;;
             Ok (current_time_seconds + s)
           else Ok current_time_seconds) ;;
        walk_tempo_events target_ticks ticks_per_beat rest
          time' (Int (tempo tempo_event)) tempo_change_tick
  end.

(** Returns seconds, as its docstring says. *)
Definition calculate_time_from_ticks (target_ticks ticks_per_beat : Z)
  (tempo_events : list TempoEvent) (initial_tempo : Z) : result float :=
  if (target_ticks =? 0)%Z then Ok 0
  else walk_tempo_events target_ticks ticks_per_beat tempo_events
         0 (Int initial_tempo) 0.

(** The messages of one track, with the running tick counter. *)
Fixpoint track_tempo_events (track_idx : Z) (msgs : list Message)
  (current_time_ticks : Z) : list TempoEvent :=
  match msgs with
  | [] => []
  | msg :: rest =>
      let current_time_ticks := (current_time_ticks + msg_time msg)%Z in
      match msg_type msg with
      | SetTempo t =>
          {| time_ticks := current_time_ticks; tempo := t; track := track_idx |}
          :: track_tempo_events track_idx rest current_time_ticks
      | _ => track_tempo_events track_idx rest current_time_ticks
      end
  end.

Fixpoint all_tracks_tempo_events (track_idx : Z) (trs : list (list Message))
  : list TempoEvent :=
  match trs with
  | [] => []
  | tr :: rest =>
      track_tempo_events track_idx tr 0
      ++ all_tracks_tempo_events (track_idx + 1) rest
  end.

Definition extract_tempo_changes (midi_file : MidiFile) : list TempoEvent :=
  sorted (fun a b => (time_ticks a <? time_ticks b)%Z)
    (all_tracks_tempo_events 0 (tracks midi_file)).

Fixpoint track_time_sig_changes (ticks_per_beat : Z)
  (tempo_events : list TempoEvent) (initial_tempo : Z)
  (track_num : Z) (msgs : list Message) (track_time : Z)
  : result (list TimeSigChange) :=
  match msgs with
  | [] => Ok []
  | msg :: rest =>
      let track_time := (track_time + msg_time msg)%Z in
      match msg_type msg with
      | TimeSig n d c n32 =>
          absolute_time <- calculate_time_from_ticks track_time ticks_per_beat
                             tempo_events initial_tempo ;;
          more <- track_time_sig_changes ticks_per_beat tempo_events
                    initial_tempo track_num rest track_time ;;
          Ok ({| ts_numerator := n; ts_denominator := d;
                 ts_time_ticks := track_time;
                 ts_time_ms := absolute_time * 1000;
                 ts_clocks_per_click := c;
                 ts_notated_32nd_notes_per_beat := n32;
                 ts_track := track_num |} :: more)
      | _ => track_time_sig_changes ticks_per_beat tempo_events
               initial_tempo track_num rest track_time
      end
  end.

Fixpoint all_tracks_time_sig_changes (ticks_per_beat : Z)
  (tempo_events : list TempoEvent) (initial_tempo : Z)
  (track_num : Z) (trs : list (list Message)) : result (list TimeSigChange) :=
  match trs with
  | [] => Ok []
  | tr :: rest =>
      here <- track_time_sig_changes ticks_per_beat tempo_events initial_tempo
                track_num tr 0 ;;
      more <- all_tracks_time_sig_changes ticks_per_beat tempo_events
                initial_tempo (track_num + 1) rest ;;
      Ok (here ++ more)
  end.

Definition extract_time_signature_changes (midi_file : MidiFile)
  (tempo_events : list TempoEvent) (initial_tempo : Z)
  : result (list TimeSigChange) :=
  time_sig_changes <- all_tracks_time_sig_changes (ticks_per_beat midi_file)
                        tempo_events initial_tempo 0 (tracks midi_file) ;;
  Ok (sorted (fun a b => ts_time_ms a <? ts_time_ms b) time_sig_changes).

Definition empty_change : Change :=
  {| ch_tempo := None; ch_time_signature := None |}.

(** [time_changes[key]['tempo'] = t], the entry created when missing. *)
Definition set_tempo_at (time_changes : ChangeMap) (key : float) (t : TempoChange)
  : ChangeMap :=
  let c := match dict_get time_changes key with Some c => c | None => empty_change end in
  dict_set time_changes key
    {| ch_tempo := Some t; ch_time_signature := ch_time_signature c |}.

(** [time_changes[key]['time_signature'] = ts], likewise. *)
Definition set_time_signature_at (time_changes : ChangeMap) (key : float)
  (ts : TimeSignature) : ChangeMap :=
  let c := match dict_get time_changes key with Some c => c | None => empty_change end in
  dict_set time_changes key
    {| ch_tempo := ch_tempo c; ch_time_signature := Some ts |}.

(** The variables of the loop over the tempo events. *)
Record tempo_loop : Type := {
  time_changes : ChangeMap;
  current_time_ms : float;
  current_tempo : num;
  last_time_ticks : Z
}.

Definition tempo_loop_step (ticks_per_beat : Z) (st : tempo_loop) (event : TempoEvent)
  : result tempo_loop :=
  now_ms <-
    (if (last_time_ticks st <? time_ticks event)%Z then
       let delta_ticks := (time_ticks event - last_time_ticks st)%Z in
       s <- tick2second delta_ticks ticks_per_beat (current_tempo st) ;;
       Ok (current_time_ms st + s * 1000)
     else Ok (current_time_ms st)) ;;
  (* only add if the tempo actually changed *)
  if negb (num_eqb (current_tempo st) (Int (tempo event))) then
    bpm <- tempo2bpm (Int (tempo event)) ;;
    let key := py_round now_ms 3 in
    Ok {| time_changes :=
            set_tempo_at (time_changes st) key
              {| tc_time_ms := now_ms; tc_bpm := py_round bpm 2;
                 tc_tempo := Int (tempo event) |};
          current_time_ms := now_ms;
          current_tempo := Int (tempo event);
          last_time_ticks := time_ticks event |}
  else
    Ok {| time_changes := time_changes st;
          current_time_ms := now_ms;
          current_tempo := current_tempo st;
          last_time_ticks := time_ticks event |}.

Fixpoint tempo_loop_run (ticks_per_beat : Z) (st : tempo_loop)
  (events : list TempoEvent) : result tempo_loop :=
  match events with
  | [] => Ok st
  | event :: rest =>
      st' <- tempo_loop_step ticks_per_beat st event ;;
      tempo_loop_run ticks_per_beat st' rest
  end.

Definition time_sig_step (time_changes : ChangeMap) (c : TimeSigChange) : ChangeMap :=
  set_time_signature_at time_changes (py_round (ts_time_ms c) 3)
    {| numerator := ts_numerator c; denominator := ts_denominator c |}.

(** The body of the [try]. *)
Definition extract_body (midi_file : MidiFile) (bpm : float) : result ChangeMap :=
  let all_tempo_events := extract_tempo_changes midi_file in
  current_tempo <- py_div 60000000 bpm ;;
  (* add the initial tempo if there is no tempo change at the start *)
  time_changes <-
    (if match all_tempo_events with
        | [] => true
        | first :: _ => (0 <? time_ticks first)%Z
        end
     then
       bpm' <- tempo2bpm (Flt current_tempo) ;;
       Ok [(0, {| ch_tempo := Some {| tc_time_ms := 0; tc_bpm := py_round bpm' 2;
                                      tc_tempo := Flt current_tempo |};
                  ch_time_signature := None |})]
     else Ok []) ;;
  st <- tempo_loop_run (ticks_per_beat midi_file)
          {| time_changes := time_changes; current_time_ms := 0;
             current_tempo := Flt current_tempo; last_time_ticks := 0 |}
          all_tempo_events ;;
  initial_tempo <- num_int (Midi.current_tempo st) ;;
  time_sig_changes <- extract_time_signature_changes midi_file all_tempo_events
                        initial_tempo ;;
  Ok (fold_left time_sig_step time_sig_changes (Midi.time_changes st)).

(** An exception inside the [try] is logged and the function returns the
    empty list. *)
Definition extract_tempo_and_time_signature_changes (midi_file : MidiFile)
  (bpm : float) : ChangeMap :=
  match extract_body midi_file bpm with
  | Ok time_changes => time_changes
  | Raise _ => []
  end.

End Midi.

(* ================================================================== *)
(** * audio.py *)
(* ================================================================== *)

Module Audio.

Local Open Scope float_scope.

(** The loop over the sorted keys, with [last_bpm], [last_tempo] and
    [last_time_signature] as arguments.  The log line at the end of the
    body formats [segment['time_signature']['numerator']]: with no time
    signature seen so far that is a subscript of [None]. *)
Fixpoint segments_loop (tempo_and_time_changes : ChangeMap) (keys : list float)
  (audio_duration_ms : float)
  (last_bpm : float) (last_tempo : option num)
  (last_time_signature : option TimeSignature) : result (list Segment) :=
  match keys with
  | [] => Ok []
  | start_time :: rest =>
      match dict_get tempo_and_time_changes start_time with
      | None => Raise KeyError
      | Some events =>
          (* end time: the next change, or the end of the audio *)
          let end_time :=
            match rest with
            | next :: _ => next
            | [] => audio_duration_ms
            end in
          let duration := end_time - start_time in
          let '(bpm, tempo) :=
            match ch_tempo events with
            | Some t => (tc_bpm t, Some (tc_tempo t))
            | None => (last_bpm, last_tempo)
            end in
          let time_signature :=
            match ch_time_signature events with
            | Some ts => Some ts
            | None => last_time_signature
            end in
          match time_signature with
          | None => Raise TypeError
          | Some ts =>
              more <- segments_loop tempo_and_time_changes rest audio_duration_ms
                        bpm tempo time_signature ;;
              Ok ({| start_ms := start_time; end_ms := end_time;
                     duration_ms := duration;
                     seg_bpm := bpm; seg_tempo := tempo;
                     seg_time_signature := Some ts |} :: more)
          end
      end
  end.

Definition create_tempo_segments (tempo_and_time_changes : ChangeMap)
  (audio_duration_ms : float) (initial_bpm : float) : result (list Segment) :=
  let keys := sorted PrimFloat.ltb (dict_keys tempo_and_time_changes) in
  segments_loop tempo_and_time_changes keys audio_duration_ms
    initial_bpm None None.

End Audio.

(* ================================================================== *)
(** * beatmap.py *)
(* ================================================================== *)

Module Beatmap.

Import Synth.
Local Open Scope float_scope.

(** Whether the external steps succeed: slicing the audio (pydub, in
    [segment_beatmap_audio]), generating the timing markers (numpy and the
    spiral generator, in [add_timing_notes]) and writing the file
    ([save_as]). *)
Record externals : Type := {
  slice_ok : bool;
  notes_ok : bool;
  save_ok : bool
}.

(** [segment_beatmap_audio]: the new beatmap gets the slice, and the
    function reports success; a failure is caught inside and reported as
    [False]. *)
Definition segment_beatmap_audio (ext : externals)
  (start_time_ms end_time_ms : float) (beatmap_segment : SynthFile)
  : bool * SynthFile :=
  if slice_ok ext
  then (true, set_audio beatmap_segment (Slice start_time_ms end_time_ms))
  else (false, beatmap_segment).

(** [add_timing_notes]: the request is kept; the marker geometry is
    external. *)
Definition add_timing_notes (ext : externals) (synth_file : SynthFile)
  (beats_per_measure : Z) (note_value : float) (start_beat end_beat : Z)
  : result SynthFile :=
  if notes_ok ext then
    Ok (set_timing synth_file
          {| tg_beats_per_measure := beats_per_measure;
             tg_note_value := note_value;
             tg_start_beat := start_beat;
             tg_end_beat := end_beat |})
  else Raise RuntimeError.

(** The body of the [try]; the result is the beatmap that is saved. *)
Definition create_body (ext : externals) (beatmap : SynthFile) (segment : Segment)
  : result SynthFile :=
  let beatmap_segment := beatmap in
  let bpm := seg_bpm segment in
  let start_time := start_ms segment in
  let end_time := end_ms segment in
  let beatmap_segment := change_bpm beatmap_segment bpm in
  seconds_per_beat <- py_div 60 bpm ;;
  ts <- match seg_time_signature segment with
        | Some ts => Ok ts
        | None => Raise KeyError
        end ;;
  beats_per_measure <-
    Util.beats_per_measure_from_time_signature
      {| Util.td_numerator := Some (numerator ts);
         Util.td_denominator := Some (denominator ts) |} ;;
  note_value <- int_truediv (denominator ts) 4 ;;
  beats_per_measure_f <- float_of_int beats_per_measure ;;
  let seconds_per_measure := seconds_per_beat * beats_per_measure_f in
  (* the editor requires at least 2 seconds of silence *)
  remainder <- py_mod 2 seconds_per_measure ;;
  let time_to_next_1 :=
    if remainder =? 0 then Int 0 else Flt (seconds_per_measure - remainder) in
  let total_offset :=
    if start_time =? 0 then Int 0
    else match time_to_next_1 with
         | Int z => Int ((2 + z) * 1000)
         | Flt f => Flt ((2 + f) * 1000)
         end in
  let beatmap_segment := change_offset beatmap_segment total_offset in
  let '(success, beatmap_segment) :=
    segment_beatmap_audio ext start_time end_time beatmap_segment in
  let segment_length := end_time - start_time in
  (* minimum delay in beats, and the first measure boundary after it *)
  let min_delay_beats := second_to_beat 2 (Synth.bpm beatmap_segment) in
  whole <- py_floordiv min_delay_beats beats_per_measure_f ;;
  whole_i <- py_int whole ;;
  let first_measure_after_delay := (whole_i + 1)%Z in
  let start_beat := (first_measure_after_delay * beats_per_measure)%Z in
  (* length of the segment in beats *)
  floor_beats <- py_floor (second_to_beat (segment_length / 1000) (Synth.bpm beatmap_segment)) ;;
  measures <- int_truediv floor_beats beats_per_measure ;;
  measures_up <- py_ceil measures ;;
  let total_beats := (measures_up * beats_per_measure)%Z in
  let total_beats :=
    if (total_beats <? beats_per_measure)%Z then beats_per_measure else total_beats in
  let end_beat := (total_beats / beats_per_measure * beats_per_measure)%Z in
  let end_beat :=
    if negb (start_time =? 0) then (end_beat + start_beat)%Z else end_beat in
  beatmap_segment <- add_timing_notes ext beatmap_segment
                       beats_per_measure note_value start_beat end_beat ;;
  if negb success then Raise RuntimeError
  else if save_ok ext then Ok beatmap_segment
  else Raise OSError.

(** Returns [True] and saves the beatmap, or logs the exception and
    returns [False]. *)
Definition create_tempo_segment_with_audio (ext : externals)
  (beatmap : SynthFile) (segment : Segment) : bool * option SynthFile :=
  match create_body ext beatmap segment with
  | Ok saved => (true, Some saved)
  | Raise _ => (false, None)
  end.

(** What [load_beatmap_from_synth] returns: the beatmap, or [False] when
    the loader raised. *)
Inductive loaded : Type :=
| Loaded (beatmap : SynthFile)
| NotLoaded.

Definition load_beatmap_from_synth (from_synth : str -> result SynthFile)
  (synth_file_path : str) : loaded :=
  match from_synth synth_file_path with
  | Ok beatmap => Loaded beatmap
  | Raise _ => NotLoaded
  end.

End Beatmap.

(* ================================================================== *)
(** * merging.py *)
(* ================================================================== *)

Module Merging.

Local Open Scope float_scope.

(** [\d+(?:\.\d+)?] *)
Definition decimal : regex :=
  RPlus true CDigit ;;; ROpt (RLit "." ;;; RPlus true CDigit).

(** [(.+?)_(\d+)_BPM(\d+(?:\.\d+)?)(?:_TimeSignature(\d+)-(\d+))?_(\d+(?:\.\d+)?)s-(\d+(?:\.\d+)?)s_dur(\d+(?:\.\d+)?)s_Segment\.(.+)] *)
Definition pattern : regex :=
  RGroup 1 (RPlus false CAny) ;;; RLit "_" ;;;
  RGroup 2 (RPlus true CDigit) ;;; RLit "_BPM" ;;;
  RGroup 3 decimal ;;;
  ROpt (RLit "_TimeSignature" ;;; RGroup 4 (RPlus true CDigit) ;;; RLit "-" ;;;
        RGroup 5 (RPlus true CDigit)) ;;;
  RLit "_" ;;; RGroup 6 decimal ;;; RLit "s-" ;;;
  RGroup 7 decimal ;;; RLit "s_dur" ;;;
  RGroup 8 decimal ;;; RLit "s_Segment." ;;;
  RGroup 9 (RPlus true CAny).

Record SegmentInfo : Type := {
  base_name : option str;
  segment_number : Z;
  bpm : float;
  time_signature : option TimeSignature;
  start_time : float;
  end_time : float;
  duration : float;
  file_extension : option str
}.

Definition parse_segment_filename (filename : str) : result SegmentInfo :=
  match re_match pattern filename with
  | None => Raise ValueError
  | Some m =>
      segment_number <- int_of_str (group m 2) ;;
      bpm <- float_of_str (group m 3) ;;
      numerator <- int_of_str (group m 4) ;;
      denominator <- int_of_str (group m 5) ;;
      start_time <- float_of_str (group m 6) ;;
      end_time <- float_of_str (group m 7) ;;
      duration <- float_of_str (group m 8) ;;
      Ok {| base_name := group m 1;
            segment_number := segment_number;
            bpm := bpm;
            time_signature :=
              Some {| numerator := numerator; denominator := denominator |};
            start_time := start_time;
            end_time := end_time;
            duration := duration;
            file_extension := group m 9 |}
  end.

(** [min] and [max] of a non-empty list of floats, comparing with [<]. *)
Definition list_min (x : float) (l : list float) : float :=
  fold_left (fun m y => if y <? m then y else m) l x.

Definition list_max (x : float) (l : list float) : float :=
  fold_left (fun m y => if m <? y then y else m) l x.

(** One turn of the loop over the sorted segments: the segment copy with
    its offset zeroed, everything shifted by the start time, and the
    bookmark set at the first note. *)
Definition prepare_segment (info : SegmentInfo) (segment_file : Synth.SynthFile)
  : result Synth.SynthFile :=
  let segment_copy := Synth.change_offset segment_file (Int 0) in
  let beats_per_measure :=
    match time_signature info with
    | Some ts => numerator ts
    | None => 4%Z
    end in
  let segment_copy := Synth.offset_everything segment_copy (start_time info) in
  notes <- match Synth.expert segment_copy with
           | Some n => Ok n
           | None => Raise KeyError
           end ;;
  let all_note_positions :=
    Synth.right notes ++ Synth.left notes ++ Synth.single notes ++ Synth.both notes in
  let first :=
    match all_note_positions with
    | x :: l => Flt (list_min x l)
    | [] => Int 0
    end in
  beats_str <- str_of_int beats_per_measure ;;
  four_str <- str_of_int 4 ;;
  Ok (Synth.set_bookmark segment_copy first
        (float_repr (Synth.bpm segment_copy) +++ " BPM || Time Signature " +++
         beats_str +++ "/" +++ four_str)).

Fixpoint merge_loop (merged_file : Synth.Merged)
  (segment_data : list (SegmentInfo * Synth.SynthFile)) : result Synth.Merged :=
  match segment_data with
  | [] => Ok merged_file
  | (info, segment_file) :: rest =>
      segment_copy <- prepare_segment info segment_file ;;
      merge_loop (Synth.merge merged_file segment_copy) rest
  end.

(** The segment files with their decoded names, in the order in which the
    loop merges them.  [from_synth] is the loader of the external container
    package: what a path holds. *)
Definition load_segments (from_synth : str -> result Synth.SynthFile)
  (segments : list str) : result (list (SegmentInfo * Synth.SynthFile)) :=
  mapM (fun segment =>
          filename_info <- parse_segment_filename (path_name segment) ;;
          synth_file <- from_synth segment ;;
          Ok (filename_info, synth_file)) segments.

Definition sort_segments (segment_data : list (SegmentInfo * Synth.SynthFile))
  : list (SegmentInfo * Synth.SynthFile) :=
  sorted (fun x y => start_time (fst x) <? start_time (fst y)) segment_data.

Definition merge_synth_segments (from_synth : str -> result Synth.SynthFile)
  (base_beatmap : str) (segments : list str) : result Synth.Merged :=
  segment_data <- load_segments from_synth segments ;;
  let segment_data := sort_segments segment_data in
  match segment_data with
  | [] => Raise ValueError
  | _ =>
      base_beatmap_synth_file <- from_synth base_beatmap ;;
      merge_loop {| Synth.merged_base := base_beatmap_synth_file;
                    Synth.merged_parts := [] |} segment_data
  end.

End Merging.

(* ================================================================== *)
(** * split.py *)
(* ================================================================== *)

Module Split.

Local Open Scope float_scope.

(** What [main] meets outside the program: the file system, the loader of
    the container package ([SynthFile.from_synth]), the MIDI parser
    ([mido.MidiFile]), the duration in seconds of a beatmap's audio
    ([beatmap.audio.duration]), and how the external steps of the [i]-th
    call of [create_tempo_segment_with_audio] go. *)
Record world : Type := {
  fs : Util.files;
  from_synth : str -> result Synth.SynthFile;
  read_midi : str -> result Midi.MidiFile;
  audio_duration : Synth.SynthFile -> float;
  externals_at : nat -> Beatmap.externals
}.

(** The parsed command line. *)
Record arguments : Type := {
  midi : str;
  output_dir : str;
  source : str
}.

(** The counters of the loop over the segments, and the files saved so
    far, each under its name in the output directory. *)
Record tally : Type := {
  successful_variants : Z;
  failed_variants : Z;
  saved : list (str * Synth.SynthFile)
}.

Fixpoint variants_loop (w : world) (beatmap : Synth.SynthFile)
  (source_filename : str) (total : Z) (i : nat) (tempo_segments : list Segment)
  (t : tally) : result tally :=
  match tempo_segments with
  | [] => Ok t
  | segment :: rest =>
      output_filename <-
        Util.generate_segment_filename source_filename (Z.of_nat i) total segment ;;
      let t' :=
        match Beatmap.create_tempo_segment_with_audio (externals_at w i) beatmap segment with
        | (true, Some file) =>
            {| successful_variants := (successful_variants t + 1)%Z;
               failed_variants := failed_variants t;
               saved := saved t ++ [(output_filename, file)] |}
        | _ =>
            {| successful_variants := successful_variants t;
               failed_variants := (failed_variants t + 1)%Z;
               saved := saved t |}
        end in
      variants_loop w beatmap source_filename total (S i) rest t'
  end.

(** How [main] ends: it returns its exit code, having saved some files, or
    an exception leaves it that nothing catches.  [AttributeError] is what
    an attribute of [False] raises. *)
Inductive ending : Type :=
| Returns (code : Z) (files : list (str * Synth.SynthFile))
| Raises (e : exn)
| RaisesAttributeError.

Definition main (w : world) (args : arguments) : ending :=
  if negb (Util.validate_inputs (fs w) (midi args) (source args) (output_dir args))
  then Returns 1 []
  else
    (* [beatmap is None] never holds: a failed load yields [False] *)
    let beatmap := Beatmap.load_beatmap_from_synth (from_synth w) (source args) in
    match read_midi w (midi args) with
    | Raise e => Raises e
    | Ok midi_file =>
        match beatmap with
        | Beatmap.NotLoaded => RaisesAttributeError
        | Beatmap.Loaded beatmap =>
            let tempo_and_time_changes :=
              Midi.extract_tempo_and_time_signature_changes midi_file (Synth.bpm beatmap) in
            match tempo_and_time_changes with
            | [] => Returns 1 []
            | _ :: _ =>
                let audio_duration_ms := audio_duration w beatmap * 1000 in
                match Audio.create_tempo_segments tempo_and_time_changes
                        audio_duration_ms (Synth.bpm beatmap) with
                | Raise e => Raises e
                | Ok [] => Returns 1 []
                | Ok tempo_segments =>
                    let source_filename := path_name (source args) in
                    match variants_loop w beatmap source_filename
                            (Z.of_nat (List.length tempo_segments)) 0 tempo_segments
                            {| successful_variants := 0; failed_variants := 0;
                               saved := [] |} with
                    | Raise e => Raises e
                    | Ok t =>
                        if (0 <? failed_variants t)%Z then Returns 1 (saved t)
                        else Returns 0 (saved t)
                    end
                end
            end
        end
    end.

End Split.

(* ================================================================== *)
(** * The statements of the specification, and the inputs of its examples *)
(* ================================================================== *)

Module Spec.

Local Open Scope float_scope.

(** [k0 < k1 < ... < kn] *)
Fixpoint increasing (keys : list float) : bool :=
  match keys with
  | a :: (b :: _) as rest => (a <? b) && increasing rest
  | _ => true
  end.

(** The segment ends that go with the keys: each key's successor, and the
    audio duration for the last. *)
Definition segment_ends (keys : list float) (audio_duration_ms : float) : list float :=
  match keys with
  | [] => []
  | _ :: rest => rest ++ [audio_duration_ms]
  end.

(** [t * T0 / ppb / 1000], the value section 8 gives for a converter with
    no tempo change, as Python evaluates it. *)
Definition claimed_linear_ms (t ppb T0 : Z) : result float :=
  q <- int_truediv (t * T0) ppb ;;
  Ok (q / 1000).

(** Key [0.0] resolves to a defined tempo and a defined time signature. *)
Definition zero_key_defined (time_changes : ChangeMap) : Prop :=
  exists c t ts,
    dict_get time_changes 0 = Some c /\ ch_tempo c = Some t /\
    ch_time_signature c = Some ts.

(** No tempo message of the MIDI structure stands at tick 0. *)
Definition no_tempo_event_at_tick_zero (midi_file : Midi.MidiFile) : bool :=
  forallb (fun e => (0 <? Midi.time_ticks e)%Z)
    (Midi.all_tracks_tempo_events 0 (Midi.tracks midi_file)).

(** Some track has a time-signature message at tick 0. *)
Fixpoint track_has_time_signature_at_zero (msgs : list Midi.Message) (track_time : Z)
  : bool :=
  match msgs with
  | [] => false
  | msg :: rest =>
      let track_time := (track_time + Midi.msg_time msg)%Z in
      match Midi.msg_type msg with
      | Midi.TimeSig _ _ _ _ =>
          (track_time =? 0)%Z || track_has_time_signature_at_zero rest track_time
      | _ => track_has_time_signature_at_zero rest track_time
      end
  end.

Definition time_signature_at_tick_zero (midi_file : Midi.MidiFile) : bool :=
  existsb (fun tr => track_has_time_signature_at_zero tr 0) (Midi.tracks midi_file).

(** The leading-silence rule of section 4.4, in milliseconds. *)
Definition leading_silence_offset_ms (bpm : float) (beats_per_measure : Z)
  (segment_start_ms : float) : result float :=
  seconds_per_beat <- py_div 60 bpm ;;
  beats <- float_of_int beats_per_measure ;;
  let seconds_per_measure := seconds_per_beat * beats in
  remainder <- py_mod 2 seconds_per_measure ;;
  let extra_padding :=
    if remainder =? 0 then 0 else seconds_per_measure - remainder in
  Ok (if segment_start_ms =? 0 then 0 else (2 + extra_padding) * 1000).

(** The end-beat rule of section 4.4: the duration in beats rounded down to
    whole measures, one measure at least, shifted by [start_beat] for a
    segment that is not the first. *)
Definition end_beat_rounded_down (duration_beats beats_per_measure start_beat : Z)
  (initial : bool) : Z :=
  let whole := Z.max beats_per_measure
                 (duration_beats / beats_per_measure * beats_per_measure)%Z in
  if initial then whole else (whole + start_beat)%Z.

(** The integers from [lo], [n] of them. *)
Definition Zrange (lo : Z) (n : nat) : list Z :=
  map (fun i => (lo + Z.of_nat i)%Z) (seq 0 n).

(** [beats_per_measure_from_time_signature] returns the truncated quotient
    on every numerator and denominator of the two ranges. *)
Definition truncates_on (nums dens : list Z) : bool :=
  forallb (fun n =>
    forallb (fun d =>
      match Util.beats_per_measure_from_time_signature
              {| Util.td_numerator := Some n; Util.td_denominator := Some d |} with
      | Ok v => (v =? 4 * n / d)%Z
      | Raise _ => false
      end) dens) nums.

(** Order on the floats that are not NaN, through a key in [Z * Z * Z]
    compared lexicographically. *)
Definition sf_key (x : spec_float) : Z * Z * Z :=
  match x with
  | S754_nan => (0, 0, 0)%Z
  | S754_infinity s => (if s then -2 else 2, 0, 0)%Z
  | S754_zero _ => (0, 0, 0)%Z
  | S754_finite s m e => if s then (-1, - e, Zneg m)%Z else (1, e, Zpos m)%Z
  end.

Definition lex_le (a b : Z * Z * Z) : Prop :=
  let '(a1, a2, a3) := a in
  let '(b1, b2, b3) := b in
  (a1 < b1 \/ (a1 = b1 /\ (a2 < b2 \/ (a2 = b2 /\ a3 <= b3))))%Z.

Definition start_le (a b : Merging.SegmentInfo * Synth.SynthFile) : Prop :=
  (Merging.start_time (fst a) <=? Merging.start_time (fst b)) = true.

(** What group [n] of the filename pattern captures in a name. *)
Definition group_of (filename : str) (n : nat) : option str :=
  match re_match Merging.pattern filename with
  | Some m => group m n
  | None => None
  end.

(** What key [0.0] of a dict resolves to satisfies [good]. *)
Definition at_zero {V : Type} (good : V -> Prop) (d : dict V) : Prop :=
  exists c, dict_get d 0 = Some c /\ good c.

Definition has_tempo (c : Change) : Prop := exists t, ch_tempo c = Some t.

Definition has_time_signature (c : Change) : Prop :=
  exists ts, ch_time_signature c = Some ts.

(** An entry as the timeline builder writes it under key [k]: it carries a
    tempo or a time signature; a tempo's BPM is its microseconds per beat
    converted and rounded to 2 decimals, and the key is the tempo's time
    rounded to 3 decimals (equal to it under [==] when the key was there
    before). *)
Definition entry_as_built (k : float) (c : Change) : Prop :=
  (ch_tempo c <> None \/ ch_time_signature c <> None)
  /\ forall t, ch_tempo c = Some t ->
       (exists b, Midi.tempo2bpm (tc_tempo t) = Ok b /\ tc_bpm t = py_round b 2)
       /\ (k = py_round (tc_time_ms t) 3 \/ (k =? py_round (tc_time_ms t) 3) = true).

(** The tempo entry that the builder synthesizes from the base BPM. *)
Definition synthesized_tempo (bpm : float) (t : TempoChange) : Prop :=
  exists base b,
    py_div 60000000 bpm = Ok base /\ Midi.tempo2bpm (Flt base) = Ok b
    /\ t = {| tc_time_ms := 0; tc_bpm := py_round b 2; tc_tempo := Flt base |}.

(** A time in milliseconds whose key, [round(ms, 3)], is [0.0]. *)
Definition keyed_at_zero (ms : float) : Prop := (py_round ms 3 =? 0) = true.

(** The tempo entry of a tempo event of the file whose time is keyed at
    [0.0]. *)
Definition tempo_of_event_keyed_at_zero (midi_file : Midi.MidiFile) (t : TempoChange)
  : Prop :=
  exists ev, In ev (Midi.extract_tempo_changes midi_file)
             /\ tc_tempo t = Int (Midi.tempo ev) /\ keyed_at_zero (tc_time_ms t).

(** The tempo that the builder hands to the converter that times the time
    signatures: the tempo of the last tempo event, or the base tempo as an
    [int] when the file has no tempo event. *)
Definition timing_tempo (midi_file : Midi.MidiFile) (bpm : float) (initial_tempo : Z)
  : Prop :=
  match Midi.extract_tempo_changes midi_file with
  | [] => exists base, py_div 60000000 bpm = Ok base /\ py_int base = Ok initial_tempo
  | first :: rest => initial_tempo = Midi.tempo (last rest first)
  end.

(** The MIDI structure has no time-signature message on any track. *)
Definition is_time_signature (msg : Midi.Message) : bool :=
  match Midi.msg_type msg with
  | Midi.TimeSig _ _ _ _ => true
  | _ => false
  end.

Definition no_time_signature_message (midi_file : Midi.MidiFile) : bool :=
  forallb (forallb (fun msg => negb (is_time_signature msg))) (Midi.tracks midi_file).

(** Some track has a time-signature message at tick [tick]. *)
Fixpoint track_has_time_signature_at (tick : Z) (msgs : list Midi.Message)
  (track_time : Z) : bool :=
  match msgs with
  | [] => false
  | msg :: rest =>
      let track_time := (track_time + Midi.msg_time msg)%Z in
      match Midi.msg_type msg with
      | Midi.TimeSig _ _ _ _ =>
          (track_time =? tick)%Z || track_has_time_signature_at tick rest track_time
      | _ => track_has_time_signature_at tick rest track_time
      end
  end.

Definition time_signature_at_tick (midi_file : Midi.MidiFile) (tick : Z) : bool :=
  existsb (fun tr => track_has_time_signature_at tick tr 0) (Midi.tracks midi_file).

(** An entry with a time signature stands under [key], or under a key equal
    to it. *)
Definition time_signature_under (key : float) (time_changes : ChangeMap) : Prop :=
  exists k c, In (k, c) time_changes
              /\ (k = key \/ (k =? key) = true)
              /\ ch_time_signature c <> None.

(** Digits, or digits, a point and digits: the texts that
    [\d+(?:\.\d+)?] matches in full. *)
Definition plain_decimal (s : str) : bool :=
  let '(ip, fp) := split_point s in
  all_digits ip && negb (slen ip =? 0)%Z
  && match fp with
     | Some f => all_digits f && negb (slen f =? 0)%Z
     | None => true
     end.

Fixpoint no_newline (s : str) : bool :=
  match s with
  | [] => true
  | c :: s' => negb (char_eqb c newline) && no_newline s'
  end.

(** No newline, and no underscore that a digit follows. *)
Fixpoint no_underscore_digit (s : str) : bool :=
  match s with
  | [] => true
  | c :: s' =>
      negb (char_eqb c newline)
      && (if char_eqb c "_"
          then match s' with
               | d :: _ => negb (is_digit d)
               | [] => true
               end
          else true)
      && no_underscore_digit s'
  end.

(** A stem that group 1 of the filename pattern takes whole: not empty, no
    newline, and after its first character no underscore that a digit
    follows. *)
Definition plain_stem (s : str) : bool :=
  match s with
  | [] => false
  | c :: s' => negb (char_eqb c newline) && no_underscore_digit s'
  end.

End Spec.

Module Examples.

Local Open Scope float_scope.

Definition four_four : TimeSignature := {| numerator := 4; denominator := 4 |}.

(** Section 8: BPM 170, 4/4, from 0 s to 228.706 s. *)
Definition the_crowing (tempo : option num) (ts : option TimeSignature) : Segment :=
  {| start_ms := 0; end_ms := 228706; duration_ms := 228706;
     seg_bpm := 170; seg_tempo := tempo; seg_time_signature := ts |}.

(** A track with a note and a later tempo change, and no time signature. *)
Definition midi_without_time_signature : Midi.MidiFile :=
  {| Midi.ticks_per_beat := 480;
     Midi.tracks :=
       [[ {| Midi.msg_time := 0; Midi.msg_type := Midi.Other |};
          {| Midi.msg_time := 960; Midi.msg_type := Midi.SetTempo 400000 |} ]] |}.

(** A track that opens with the base tempo and a time signature. *)
Definition midi_with_both : Midi.MidiFile :=
  {| Midi.ticks_per_beat := 480;
     Midi.tracks :=
       [[ {| Midi.msg_time := 0; Midi.msg_type := Midi.TimeSig 4 4 24 8 |};
          {| Midi.msg_time := 960; Midi.msg_type := Midi.SetTempo 400000 |};
          {| Midi.msg_time := 960; Midi.msg_type := Midi.TimeSig 3 4 24 8 |} ]] |}.

(** A track that holds notes only: no tempo and no time-signature
    message. *)
Definition midi_with_notes_only : Midi.MidiFile :=
  {| Midi.ticks_per_beat := 480;
     Midi.tracks :=
       [[ {| Midi.msg_time := 0; Midi.msg_type := Midi.Other |};
          {| Midi.msg_time := 480; Midi.msg_type := Midi.Other |} ]] |}.

Definition tempo_only_map : ChangeMap :=
  [(0, {| ch_tempo := Some {| tc_time_ms := 0; tc_bpm := 120; tc_tempo := Flt 500000 |};
          ch_time_signature := None |})].

Definition three_changes : ChangeMap :=
  [(1000, {| ch_tempo := Some {| tc_time_ms := 1000; tc_bpm := 150; tc_tempo := Int 400000 |};
             ch_time_signature := None |});
   (0, {| ch_tempo := Some {| tc_time_ms := 0; tc_bpm := 120; tc_tempo := Int 500000 |};
          ch_time_signature := Some four_four |});
   (1800, {| ch_tempo := None;
             ch_time_signature := Some {| numerator := 3; denominator := 4 |} |})].

Definition beatmap : Synth.SynthFile :=
  {| Synth.bpm := 100; Synth.offset_ms := Int 0; Synth.audio := Synth.WholeTrack;
     Synth.expert := Some {| Synth.right := [1; 3]; Synth.left := [];
                             Synth.single := [2]; Synth.both := [] |};
     Synth.bookmarks := []; Synth.timing := None |}.

Definition all_fine : Beatmap.externals :=
  {| Beatmap.slice_ok := true; Beatmap.notes_ok := true;
     Beatmap.save_ok := true |}.

Definition segment_of (from_ms to_ms bpm : float) (ts : TimeSignature) : Segment :=
  {| start_ms := from_ms; end_ms := to_ms; duration_ms := to_ms - from_ms;
     seg_bpm := bpm; seg_tempo := None; seg_time_signature := Some ts |}.

(** Five beats at 120 BPM in 4/4, at the start of the audio. *)
Definition five_beats : Segment := segment_of 0 2500 120 four_four.

(** Two seconds, one measure, at 120 BPM in 4/4, at the start of the
    audio. *)
Definition two_second_opening : Segment := segment_of 0 2000 120 four_four.

(** A later segment at 120 BPM in 4/4. *)
Definition later_segment : Segment := segment_of 1000 3500 120 four_four.

(** Section 8: three segment files listed with start times 10 s, 0 s, 5 s. *)
Definition listing : list str :=
  [ "out/song_3_BPM100_TimeSignature6-8_10s-12.5s_dur2.5s_Segment.synth";
    "out/song_1_BPM100_TimeSignature4-4_0s-5s_dur5s_Segment.synth";
    "out/song_2_BPM100_TimeSignature4-4_5s-10s_dur5s_Segment.synth" ].

Definition loader (path : str) : result Synth.SynthFile := Ok beatmap.

Definition decoded (number : Z) (ts : TimeSignature) (from_s to_s length_s : float)
  : Merging.SegmentInfo :=
  {| Merging.base_name := Some "song";
     Merging.segment_number := number;
     Merging.bpm := 100;
     Merging.time_signature := Some ts;
     Merging.start_time := from_s;
     Merging.end_time := to_s;
     Merging.duration := length_s;
     Merging.file_extension := Some "synth" |}.

(** What the three names of [listing] decode to, with what the loader
    holds for them. *)
Definition listing_data : list (Merging.SegmentInfo * Synth.SynthFile) :=
  [ (decoded 3 {| numerator := 6; denominator := 8 |} 10 12.5 2.5, beatmap);
    (decoded 1 four_four 0 5 5, beatmap);
    (decoded 2 four_four 5 10 5, beatmap) ].

Definition six_eight_name : str :=
  "song_3_BPM100_TimeSignature6-8_10s-12.5s_dur2.5s_Segment.synth".

(** A track that opens with a tempo other than the base tempo. *)
Definition midi_with_opening_tempo : Midi.MidiFile :=
  {| Midi.ticks_per_beat := 480;
     Midi.tracks :=
       [[ {| Midi.msg_time := 0; Midi.msg_type := Midi.SetTempo 400000 |};
          {| Midi.msg_time := 480; Midi.msg_type := Midi.Other |} ]] |}.

(** A time signature one beat into the track, and the only tempo change a
    beat later. *)
Definition midi_with_late_tempo : Midi.MidiFile :=
  {| Midi.ticks_per_beat := 480;
     Midi.tracks :=
       [[ {| Midi.msg_time := 480; Midi.msg_type := Midi.TimeSig 3 4 24 8 |};
          {| Midi.msg_time := 480; Midi.msg_type := Midi.SetTempo 400000 |} ]] |}.

(** A time signature at tick 1 and the only tempo change at tick 2, in a
    file of 960 ticks per beat: at 400 microseconds per beat one tick takes
    less than half a microsecond. *)
Definition midi_with_early_time_signature : Midi.MidiFile :=
  {| Midi.ticks_per_beat := 960;
     Midi.tracks :=
       [[ {| Midi.msg_time := 1; Midi.msg_type := Midi.TimeSig 3 4 24 8 |};
          {| Midi.msg_time := 1; Midi.msg_type := Midi.SetTempo 400 |} ]] |}.

(** A run of the splitter on [song.mid] and [maps/song.synth]: every path
    exists, the output directory can be made, the audio lasts 10 s; what
    the MIDI parser returns, whether the beatmap loads and how the external
    steps go are the arguments. *)
Definition world_of (parsed : result Midi.MidiFile) (loads : bool)
  (ext : Beatmap.externals) : Split.world :=
  {| Split.fs := {| Util.path_exists := fun _ => true; Util.mkdir_ok := fun _ => true |};
     Split.from_synth := fun _ => if loads then Ok beatmap else Raise ValueError;
     Split.read_midi := fun _ => parsed;
     Split.audio_duration := fun _ => 10;
     Split.externals_at := fun _ => ext |}.

Definition command_line : Split.arguments :=
  {| Split.midi := "song.mid"; Split.output_dir := "out";
     Split.source := "maps/song.synth" |}.

End Examples.

(* ================================================================== *)
(** * Facts about the runtime model *)
(* ================================================================== *)

Lemma bind_Ok {A B : Type} (r : result A) (k : A -> result B) (b : B) :
  Py.bind r k = Ok b -> exists a, r = Ok a /\ k a = Ok b.
Proof.
  destruct r as [a|e]; simpl; intros H; [exists a; auto | discriminate].
Qed.

(** Splits a hypothesis [x <- e ;; k = Ok v] into [e = Ok x] and the rest. *)
Ltac bind_inv H :=
  let a := fresh "v" in
  let E := fresh "E" in
  apply bind_Ok in H; destruct H as [a [E H]].

(** ** The order of floats *)

Section FloatOrder.
Local Open Scope float_scope.

Lemma SFcompare_refl (x : spec_float) : x <> S754_nan -> SFcompare x x = Some Eq.
Proof.
  destruct x as [s|s| |s m e]; simpl; intros H; try congruence.
  - destruct s; reflexivity.
  - destruct s; rewrite Z.compare_refl, Pos.compare_cont_refl; reflexivity.
Qed.

Lemma SFcompare_antisym (x y : spec_float) :
  SFcompare y x = option_map CompOpp (SFcompare x y).
Proof.
  destruct x as [s1|s1| |s1 m1 e1], y as [s2|s2| |s2 m2 e2]; simpl;
    try reflexivity; try (destruct s1; reflexivity); try (destruct s2; reflexivity);
    try (destruct s1, s2; reflexivity).
  destruct s1, s2; try reflexivity;
    rewrite (Z.compare_antisym e1 e2);
    change (Pos.compare_cont Eq m2 m1) with (Pos.compare_cont (CompOpp Eq) m2 m1);
    rewrite <- (Pos.compare_cont_antisym m1 m2 Eq);
    destruct (e1 ?= e2)%Z; simpl; try reflexivity;
    destruct (Pos.compare_cont Eq m1 m2); reflexivity.
Qed.

Lemma is_nan_Prim2SF (x : float) : is_nan x = false <-> Prim2SF x <> S754_nan.
Proof.
  unfold is_nan. rewrite eqb_spec. unfold SFeqb. split.
  - intros H E. rewrite E in H. discriminate.
  - intros H. rewrite SFcompare_refl by assumption. reflexivity.
Qed.

Lemma eqb_refl_not_nan (x : float) : (x =? x) = true <-> is_nan x = false.
Proof. unfold is_nan. destruct (x =? x); simpl; split; congruence. Qed.

Lemma float_ltb_leb (x y : float) : (x <? y) = true -> (x <=? y) = true.
Proof.
  rewrite ltb_spec, leb_spec. unfold SFltb, SFleb.
  destruct (SFcompare (Prim2SF x) (Prim2SF y)) as [[ | | ]|]; congruence.
Qed.

Lemma float_ltb_false_leb (x y : float) :
  is_nan x = false -> is_nan y = false -> (x <? y) = false -> (y <=? x) = true.
Proof.
  rewrite !is_nan_Prim2SF, ltb_spec, leb_spec. unfold SFltb, SFleb.
  rewrite (SFcompare_antisym (Prim2SF x) (Prim2SF y)).
  intros Hx Hy.
  destruct (Prim2SF x) as [s1|s1| |s1 m1 e1], (Prim2SF y) as [s2|s2| |s2 m2 e2];
    try congruence; simpl;
    repeat match goal with |- context [if ?b then _ else _] => destruct b end;
    simpl; try congruence;
    destruct (e1 ?= e2)%Z; simpl; try congruence;
    destruct (Pos.compare_cont Eq m1 m2); simpl; congruence.
Qed.

Lemma float_ltb_not_nan (x y : float) :
  (x <? y) = true -> is_nan x = false /\ is_nan y = false.
Proof.
  rewrite !is_nan_Prim2SF, ltb_spec. unfold SFltb.
  destruct (Prim2SF x), (Prim2SF y); simpl; try discriminate; split; congruence.
Qed.

Lemma float_eqb_not_nan (x y : float) :
  (x =? y) = true -> is_nan x = false /\ is_nan y = false.
Proof.
  rewrite !is_nan_Prim2SF, eqb_spec. unfold SFeqb.
  destruct (Prim2SF x), (Prim2SF y); simpl; try discriminate; split; congruence.
Qed.

Lemma float_ltb_asym (x y : float) : (x <? y) = true -> (y <? x) = false.
Proof.
  rewrite !ltb_spec. unfold SFltb.
  rewrite (SFcompare_antisym (Prim2SF x) (Prim2SF y)).
  destruct (SFcompare (Prim2SF x) (Prim2SF y)) as [[ | | ]|]; simpl; congruence.
Qed.

Lemma SFleb_key (x y : spec_float) :
  x <> S754_nan -> y <> S754_nan ->
  (SFleb x y = true <-> Spec.lex_le (Spec.sf_key x) (Spec.sf_key y)).
Proof.
  intros Hx Hy. unfold SFleb.
  destruct x as [s1|s1| |s1 m1 e1], y as [s2|s2| |s2 m2 e2];
    try congruence; simpl;
    try (destruct s1; simpl; split; intros; try lia; try reflexivity; try discriminate; fail);
    try (destruct s2; simpl; split; intros; try lia; try reflexivity; try discriminate; fail);
    try (destruct s1, s2; simpl; split; intros; try lia; try reflexivity; try discriminate; fail).
  destruct s1, s2; simpl; try (split; intros; try lia; try reflexivity; discriminate).
  - destruct (Z.compare_spec e1 e2) as [E|E|E].
    + subst. change (Pos.compare_cont Eq m1 m2) with (Pos.compare m1 m2).
      destruct (Pos.compare_spec m1 m2) as [M|M|M]; simpl; split; intros;
        try lia; try reflexivity; try discriminate.
    + split; intros; try lia; discriminate.
    + split; intros; try lia; reflexivity.
  - destruct (Z.compare_spec e1 e2) as [E|E|E].
    + subst. change (Pos.compare_cont Eq m1 m2) with (Pos.compare m1 m2).
      destruct (Pos.compare_spec m1 m2) as [M|M|M]; simpl; split; intros;
        try lia; try reflexivity; try discriminate.
    + split; intros; try lia; reflexivity.
    + split; intros; try lia; discriminate.
Qed.

Lemma lex_le_trans (a b c : Z * Z * Z) :
  Spec.lex_le a b -> Spec.lex_le b c -> Spec.lex_le a c.
Proof.
  destruct a as [[a1 a2] a3], b as [[b1 b2] b3], c as [[c1 c2] c3]. simpl. lia.
Qed.

Lemma SFleb_not_nan (x y : spec_float) :
  SFleb x y = true -> x <> S754_nan /\ y <> S754_nan.
Proof.
  unfold SFleb. destruct x, y; simpl; try discriminate; split; congruence.
Qed.

Lemma float_leb_trans (x y z : float) :
  (x <=? y) = true -> (y <=? z) = true -> (x <=? z) = true.
Proof.
  rewrite !leb_spec. intros H1 H2.
  destruct (SFleb_not_nan _ _ H1) as [Hx Hy].
  destruct (SFleb_not_nan _ _ H2) as [_ Hz].
  apply SFleb_key in H1; try assumption.
  apply SFleb_key in H2; try assumption.
  apply SFleb_key; try assumption.
  eapply lex_le_trans; eassumption.
Qed.

(** Rounding a non-negative mantissa never yields NaN. *)

Lemma shr_1_nonneg (mrs : shr_record) :
  (0 <= shr_m mrs)%Z -> (0 <= shr_m (shr_1 mrs))%Z.
Proof.
  destruct mrs as [m r s]. simpl. destruct m as [|p|p]; simpl; try lia.
  destruct p; simpl; lia.
Qed.

Lemma iter_pos_shr_1_nonneg (p : positive) (mrs : shr_record) :
  (0 <= shr_m mrs)%Z -> (0 <= shr_m (iter_pos shr_1 p mrs))%Z.
Proof.
  revert mrs. induction p as [p IH|p IH|]; intros mrs H; simpl.
  - apply IH, IH, shr_1_nonneg, H.
  - apply IH, IH, H.
  - apply shr_1_nonneg, H.
Qed.

Lemma shr_fexp_nonneg (m e : Z) (l : location) :
  (0 <= m)%Z -> (0 <= shr_m (fst (shr_fexp prec emax m e l)))%Z.
Proof.
  intros H. unfold shr_fexp, shr.
  assert (H0 : (0 <= shr_m (shr_record_of_loc m l))%Z).
  { destruct l as [|[ | | ]]; simpl; exact H. }
  destruct (fexp prec emax (Zdigits2 m + e) - e)%Z; simpl; try exact H0.
  apply iter_pos_shr_1_nonneg, H0.
Qed.

Lemma round_nearest_even_nonneg (m : Z) (l : location) :
  (0 <= m)%Z -> (0 <= round_nearest_even m l)%Z.
Proof.
  intros H. destruct l as [|[ | | ]]; simpl; try lia. destruct (Z.even m); lia.
Qed.

Lemma binary_round_aux_not_nan (s : bool) (m e : Z) (l : location) :
  (0 <= m)%Z -> binary_round_aux prec emax s m e l <> S754_nan.
Proof.
  intros H. unfold binary_round_aux.
  pose proof (shr_fexp_nonneg m e l H) as H1.
  destruct (shr_fexp prec emax m e l) as [mrs' e'] eqn:E1. simpl in H1.
  pose proof (shr_fexp_nonneg _ e' loc_Exact
                (round_nearest_even_nonneg _ (loc_of_shr_record mrs') H1)) as H2.
  destruct (shr_fexp prec emax
              (round_nearest_even (shr_m mrs') (loc_of_shr_record mrs')) e' loc_Exact)
    as [mrs'' e''] eqn:E2. simpl in H2.
  destruct (shr_m mrs'') as [|p|p]; try discriminate.
  - destruct (e'' <=? emax - prec)%Z; discriminate.
  - lia.
Qed.

Lemma binary_round_not_nan (s : bool) (m : positive) (e : Z) :
  binary_round prec emax s m e <> S754_nan.
Proof.
  unfold binary_round.
  destruct (shl_align m e (fexp prec emax (Z.pos (digits2_pos m) + e))) as [mz ez].
  apply binary_round_aux_not_nan. lia.
Qed.

Lemma binary_normalize_not_nan (m e : Z) (sz : bool) :
  (0 <= m)%Z -> binary_normalize prec emax m e sz <> S754_nan.
Proof.
  intros H. destruct m as [|p|p]; simpl; try discriminate; try lia.
  apply binary_round_not_nan.
Qed.

Lemma SFldexp_not_nan (x : spec_float) (e : Z) :
  x <> S754_nan -> SFldexp prec emax x e <> S754_nan.
Proof.
  destruct x; simpl; try congruence. intros _. apply binary_round_not_nan.
Qed.

Lemma SF2Prim_not_nan (x : spec_float) : x <> S754_nan -> is_nan (SF2Prim x) = false.
Proof.
  intros H. destruct x as [s|s| |s m e]; try congruence.
  - destruct s; reflexivity.
  - destruct s; reflexivity.
  - unfold SF2Prim.
    assert (N : Prim2SF (Z.ldexp (of_uint63 (Uint63Axioms.of_Z (Z.pos m))) e) <> S754_nan).
    { rewrite Z_ldexp_spec. apply SFldexp_not_nan.
      rewrite of_uint63_spec. apply binary_normalize_not_nan.
      apply Uint63.to_Z_bounded. }
    destruct s.
    + apply is_nan_Prim2SF. rewrite opp_spec.
      destruct (Prim2SF (Z.ldexp (of_uint63 (Uint63Axioms.of_Z (Z.pos m))) e));
        simpl; congruence.
    + apply is_nan_Prim2SF. exact N.
Qed.

Lemma SF_of_ratio_not_nan (s : bool) (n d : Z) :
  (0 <= n)%Z -> (0 < d)%Z -> SF_of_ratio s n d <> S754_nan.
Proof.
  intros Hn Hd. unfold SF_of_ratio.
  destruct n as [|pn|pn]; destruct d as [|pd|pd]; try lia; try discriminate.
  unfold SFdiv.
  destruct (SFdiv_core_binary prec emax (Z.pos pn) 0 (Z.pos pd) 0) as [[mz ez] lz] eqn:E.
  apply binary_round_aux_not_nan.
  unfold SFdiv_core_binary in E.
  match type of E with
  | (let '(q, r) := Z.div_eucl ?m _ in _) = _ => set (m' := m) in *
  end.
  assert (Hm : (0 <= m')%Z).
  { subst m'.
    match goal with |- (0 <= match ?x with _ => _ end)%Z => destruct x end; try lia.
    apply Z.shiftl_nonneg. lia. }
  pose proof (Z_div_mod m' (Z.pos pd) ltac:(lia)) as D.
  destruct (Z.div_eucl m' (Z.pos pd)) as [q r]. inversion E; subst.
  destruct D as [D1 D2]. nia.
Qed.

Lemma digit_val_range (c : char) : (0 <= digit_val c <= 9)%Z.
Proof.
  unfold digit_val, decimal_value.
  destruct (find (fun z => (z <=? c)%N && (c <? z + 10)%N) decimal_zeros)
    as [z|] eqn:E; [|lia].
  apply find_some in E. destruct E as [_ E].
  apply andb_prop in E. destruct E as [E1 E2].
  apply N.leb_le in E1. apply N.ltb_lt in E2. lia.
Qed.

Lemma digits_value_nonneg (s : str) (acc : Z) :
  all_digits s = true -> (0 <= acc)%Z -> (0 <= digits_value s acc)%Z.
Proof.
  revert acc. induction s as [|c s IH]; intros acc H Ha; [exact Ha|].
  cbn [all_digits] in H. cbn [digits_value].
  apply andb_prop in H. destruct H as [Hc Hs]. apply IH; [exact Hs|].
  pose proof (digit_val_range c). lia.
Qed.

Lemma all_digits_app (a b : str) :
  all_digits a = true -> all_digits b = true -> all_digits (a +++ b) = true.
Proof.
  induction a as [|c a IH]; simpl; intros Ha Hb; [exact Hb|].
  apply andb_prop in Ha. destruct Ha as [Hc Ha]. rewrite Hc. simpl. auto.
Qed.

(** [float] of a captured decimal is never NaN. *)
Lemma float_of_str_not_nan (s : option str) (x : float) :
  float_of_str s = Ok x -> is_nan x = false.
Proof.
  unfold float_of_str. destruct s as [s|]; try discriminate.
  destruct (split_point s) as [ip fp].
  destruct (all_digits ip) eqn:Hi; simpl; try discriminate.
  destruct (all_digits match fp with Some f => f | None => "" end) eqn:Hf;
    simpl; try discriminate.
  match goal with |- (if ?c then _ else _) = _ -> _ => destruct c end; try discriminate.
  intros H. inversion H; subst. apply SF2Prim_not_nan.
  assert (Hn : (0 <= digits_value (ip +++ match fp with Some f => f | None => "" end) 0)%Z).
  { apply digits_value_nonneg; [apply all_digits_app; assumption|lia]. }
  unfold SF_of_decimal.
  destruct (0 <=? - slen match fp with Some f => f | None => "" end)%Z.
  - apply SF_of_ratio_not_nan; [|lia].
    apply Z.mul_nonneg_nonneg; [exact Hn|]. apply Z.pow_nonneg. lia.
  - apply SF_of_ratio_not_nan; [exact Hn|]. apply Z.pow_pos_nonneg; [lia|].
    unfold slen. lia.
Qed.

End FloatOrder.

(** ** Strings of digits *)

Section Digits.

Lemma append_empty_r (s : str) : s +++ "" = s.
Proof. apply app_nil_r. Qed.

Lemma append_assoc (a b c : str) : (a +++ b) +++ c = a +++ (b +++ c).
Proof. symmetry. apply app_assoc. Qed.

Lemma slen_append (a b : str) : slen (a +++ b) = slen a + slen b.
Proof. unfold slen. rewrite length_app. lia. Qed.

Lemma slen_nonneg (s : str) : 0 <= slen s.
Proof. unfold slen. lia. Qed.

Lemma slen_cons (c : char) (s : str) : slen (c :: s) = slen s + 1.
Proof. unfold slen. cbn [List.length]. lia. Qed.

Lemma append_inj_l (a x y : str) : a +++ x = a +++ y -> x = y.
Proof. apply app_inv_head. Qed.

Lemma append_inj_same_length (a b x y : str) :
  slen a = slen b -> a +++ x = b +++ y -> a = b /\ x = y.
Proof.
  revert b. induction a as [|c a IH]; intros [|d b] Hl H.
  - auto.
  - unfold slen in Hl. cbn in Hl. lia.
  - unfold slen in Hl. cbn in Hl. lia.
  - rewrite !slen_cons in Hl. cbn [app] in H. inversion H; subst.
    destruct (IH b) as [E1 E2]; [lia|assumption|subst; auto].
Qed.

Lemma digit_cases (d : Z) :
  0 <= d <= 9 ->
  d = 0 \/ d = 1 \/ d = 2 \/ d = 3 \/ d = 4 \/ d = 5 \/ d = 6 \/ d = 7 \/ d = 8 \/ d = 9.
Proof. lia. Qed.

Lemma digit_val_char (d : Z) : 0 <= d <= 9 -> digit_val (digit_char d) = d.
Proof.
  intros H. apply digit_cases in H.
  repeat (destruct H as [H|H]; [subst d; vm_compute; reflexivity|]).
  subst d. vm_compute. reflexivity.
Qed.

Lemma is_digit_char (d : Z) : 0 <= d <= 9 -> is_digit (digit_char d) = true.
Proof.
  intros H. apply digit_cases in H.
  repeat (destruct H as [H|H]; [subst d; vm_compute; reflexivity|]).
  subst d. vm_compute. reflexivity.
Qed.

Lemma log2_div10 (n : Z) : 10 <= n -> Z.log2 (n / 10) < Z.log2 n.
Proof.
  intros H.
  assert (Hm : 0 < n / 10) by (apply Z.div_str_pos; lia).
  pose proof (Z.log2_double (n / 10) Hm) as Hd.
  assert (Hle : Z.log2 (2 * (n / 10)) <= Z.log2 n).
  { apply Z.log2_le_mono. pose proof (Z.div_mod n 10 ltac:(lia)).
    pose proof (Z.mod_pos_bound n 10 ltac:(lia)). lia. }
  lia.
Qed.

(** What [digits_acc] puts before [acc]: the [k] decimal digits of [n]. *)
Lemma digits_acc_spec :
  forall (fuel : nat) (n : Z) (acc : str),
    0 <= n -> Z.log2 n < Z.of_nat fuel ->
    exists (ds : str) (k : Z),
      digits_acc fuel n acc = ds +++ acc
      /\ all_digits ds = true /\ slen ds = k /\ 1 <= k
      /\ n < 10 ^ k /\ (k = 1 \/ 10 ^ (k - 1) <= n)
      /\ forall tail a, digits_value (ds +++ tail) a = digits_value tail (a * 10 ^ k + n).
Proof.
  induction fuel as [|fuel IH]; intros n acc Hn Hfuel.
  - pose proof (Z.log2_nonneg n). lia.
  - cbn [digits_acc].
    assert (Hd : 0 <= n mod 10 <= 9) by (pose proof (Z.mod_pos_bound n 10); lia).
    destruct (n <? 10) eqn:E.
    + apply Z.ltb_lt in E. exists [digit_char (n mod 10)], 1.
      split; [reflexivity|].
      split; [cbn [all_digits]; rewrite is_digit_char by exact Hd; reflexivity|].
      split; [reflexivity|]. split; [lia|]. split; [lia|]. split; [left; reflexivity|].
      intros tail a. cbn [app digits_value].
      rewrite digit_val_char by exact Hd. rewrite Z.mod_small by lia.
      f_equal. lia.
    + apply Z.ltb_ge in E.
      destruct (IH (n / 10) (digit_char (n mod 10) :: acc))
        as [ds [k [Hrun [Hall [Hlen [Hk [Hlt [Hge Hval]]]]]]]].
      * apply Z.div_pos; lia.
      * pose proof (log2_div10 n E). lia.
      * exists (ds +++ [digit_char (n mod 10)]), (k + 1).
        split; [rewrite Hrun, append_assoc; reflexivity|].
        split.
        { apply all_digits_app; [exact Hall|].
          cbn [all_digits]. rewrite is_digit_char by exact Hd. reflexivity. }
        split; [rewrite slen_append, Hlen; reflexivity|].
        split; [lia|].
        assert (Hpow : 10 ^ (k + 1) = 10 * 10 ^ k)
          by (rewrite Z.pow_add_r by lia; change (10 ^ 1) with 10; lia).
        pose proof (Z.div_mod n 10 ltac:(lia)) as Hdm.
        split; [rewrite Hpow; lia|].
        split.
        { right. replace (k + 1 - 1) with k by lia.
          destruct Hge as [Hk1|Hge].
          - rewrite Hk1. change (10 ^ 1) with 10. lia.
          - assert (10 ^ k = 10 * 10 ^ (k - 1)).
            { replace k with ((k - 1) + 1) at 1 by lia.
              rewrite Z.pow_add_r by lia. change (10 ^ 1) with 10. lia. }
            lia. }
        intros tail a. rewrite append_assoc. rewrite Hval.
        cbn [app digits_value]. rewrite digit_val_char by exact Hd.
        f_equal. rewrite Hpow. lia.
Qed.

Lemma str_of_nonneg_spec (n : Z) :
  0 <= n ->
  all_digits (str_of_nonneg n) = true
  /\ 1 <= slen (str_of_nonneg n)
  /\ n < 10 ^ slen (str_of_nonneg n)
  /\ (slen (str_of_nonneg n) = 1 \/ 10 ^ (slen (str_of_nonneg n) - 1) <= n)
  /\ forall tail a,
       digits_value (str_of_nonneg n +++ tail) a
       = digits_value tail (a * 10 ^ slen (str_of_nonneg n) + n).
Proof.
  intros Hn. unfold str_of_nonneg.
  destruct (digits_acc_spec (S (Z.to_nat (Z.log2 n))) n "" Hn)
    as [ds [k [Hrun [Hall [Hlen [Hk [Hlt [Hge Hval]]]]]]]].
  - pose proof (Z.log2_nonneg n). lia.
  - rewrite Hrun, append_empty_r. subst k. auto.
Qed.

Lemma str_of_nonneg_value (n : Z) : 0 <= n -> digits_value (str_of_nonneg n) 0 = n.
Proof.
  intros Hn. destruct (str_of_nonneg_spec n Hn) as [_ [_ [_ [_ Hval]]]].
  specialize (Hval "" 0). rewrite append_empty_r in Hval. rewrite Hval. reflexivity.
Qed.

(** A greater number is not written with fewer digits. *)
Lemma str_of_nonneg_width (a b : Z) :
  0 <= a <= b -> slen (str_of_nonneg a) <= slen (str_of_nonneg b).
Proof.
  intros H.
  destruct (str_of_nonneg_spec a ltac:(lia)) as [_ [Ha1 [_ [Ha _]]]].
  destruct (str_of_nonneg_spec b ltac:(lia)) as [_ [Hb1 [Hb _]]].
  destruct Ha as [Ha|Ha]; [lia|].
  destruct (Z_le_gt_dec (slen (str_of_nonneg a)) (slen (str_of_nonneg b))) as [Hle|Hgt];
    [exact Hle|exfalso].
  assert (10 ^ slen (str_of_nonneg b) <= 10 ^ (slen (str_of_nonneg a) - 1))
    by (apply Z.pow_le_mono_r; lia).
  lia.
Qed.

(** A number below [10 ^ k] is written with at most [k] digits. *)
Lemma str_of_nonneg_fits (n k : Z) :
  0 <= n < 10 ^ k -> 1 <= k -> slen (str_of_nonneg n) <= k.
Proof.
  intros Hn Hk.
  destruct (str_of_nonneg_spec n ltac:(lia)) as [_ [_ [_ [Hlow _]]]].
  destruct Hlow as [H1|Hlow]; [lia|].
  destruct (Z_le_gt_dec (slen (str_of_nonneg n)) k) as [Hle|Hgt]; [exact Hle|exfalso].
  assert (10 ^ k <= 10 ^ (slen (str_of_nonneg n) - 1))
    by (apply Z.pow_le_mono_r; lia).
  lia.
Qed.

(** The value of a string of digits is below the power of ten of its
    length. *)
Lemma digits_value_bound (s : str) :
  forall acc, 0 <= acc -> digits_value s acc <= (acc + 1) * 10 ^ slen s - 1.
Proof.
  induction s as [|c s IH]; intros acc Hacc.
  - cbn [digits_value]. change (slen []) with 0. lia.
  - cbn [digits_value]. rewrite slen_cons.
    pose proof (digit_val_range c) as Hd. pose proof (slen_nonneg s) as Hl.
    specialize (IH (10 * acc + digit_val c) ltac:(lia)).
    rewrite Z.pow_add_r by lia. change (10 ^ 1) with 10.
    assert (Hp : 0 < 10 ^ slen s) by (apply Z.pow_pos_nonneg; lia).
    nia.
Qed.

(** [str(n)] for a non-negative [n]: its digits, when there are no more of
    them than the limit. *)
Lemma str_of_int_nonneg (n : Z) (s : str) :
  0 <= n -> str_of_int n = Ok s ->
  s = str_of_nonneg n /\ slen s <= int_max_str_digits.
Proof.
  intros Hn. unfold str_of_int. rewrite Z.abs_eq by exact Hn.
  destruct (int_max_str_digits <? slen (str_of_nonneg n)) eqn:E; [discriminate|].
  replace (n <? 0) with false by (symmetry; apply Z.ltb_ge; exact Hn).
  intros H. inversion H; subst s. apply Z.ltb_ge in E. auto.
Qed.

Lemma str_of_int_fits (n : Z) :
  0 <= n < 10 ^ int_max_str_digits -> str_of_int n = Ok (str_of_nonneg n).
Proof.
  intros Hn. unfold str_of_int. rewrite Z.abs_eq by lia.
  replace (int_max_str_digits <? slen (str_of_nonneg n)) with false.
  - replace (n <? 0) with false by (symmetry; apply Z.ltb_ge; lia). reflexivity.
  - symmetry. apply Z.ltb_ge. apply str_of_nonneg_fits; [exact Hn|].
    unfold int_max_str_digits. lia.
Qed.

(** What [int] reads from a string is not negative and can be written
    again. *)
Lemma int_of_str_range (s : option str) (n : Z) :
  int_of_str s = Ok n -> 0 <= n < 10 ^ int_max_str_digits.
Proof.
  unfold int_of_str. destruct s as [[|c s]|]; try discriminate.
  destruct (all_digits (c :: s)) eqn:Hall; [|discriminate].
  destruct (int_max_str_digits <? slen (c :: s)) eqn:Hlen; [discriminate|].
  apply Z.ltb_ge in Hlen.
  pose proof (digits_value_nonneg (c :: s) 0 Hall ltac:(lia)) as Hlow.
  pose proof (digits_value_bound (c :: s) 0 ltac:(lia)) as Hb.
  assert (Hpow : 10 ^ slen (c :: s) <= 10 ^ int_max_str_digits)
    by (apply Z.pow_le_mono_r; [lia|exact Hlen]).
  set (v := digits_value (c :: s) 0) in *.
  intros H. injection H as Hv. lia.
Qed.

Lemma digit_is_no_sign (c : char) :
  is_digit c = true -> char_eqb c "-" || char_eqb c "+" = false.
Proof.
  intros H. unfold char_eqb.
  destruct (N.eqb c "-"%chr) eqn:E1; [apply N.eqb_eq in E1; subst; discriminate H|].
  destruct (N.eqb c "+"%chr) eqn:E2; [apply N.eqb_eq in E2; subst; discriminate H|].
  reflexivity.
Qed.

Lemma repeat_zero_digits (k : nat) : all_digits (repeat_char "0" k) = true.
Proof. induction k as [|k IH]; [reflexivity|exact IH]. Qed.

Lemma repeat_zero_value (k : nat) (s : str) :
  digits_value (repeat_char "0" k +++ s) 0 = digits_value s 0.
Proof. induction k as [|k IH]; [reflexivity|exact IH]. Qed.

Lemma slen_repeat_char (c : char) (k : nat) : slen (repeat_char c k) = Z.of_nat k.
Proof.
  induction k as [|k IH]; [reflexivity|].
  cbn [repeat_char]. rewrite slen_cons, IH. lia.
Qed.

(** The zero-padded sequence number of a file: digits only, worth the
    number, and as wide as the field whenever the number fits. *)
Lemma zfill_number (n width : Z) :
  0 <= n ->
  all_digits (zfill (str_of_nonneg n) width) = true
  /\ 1 <= slen (zfill (str_of_nonneg n) width)
  /\ digits_value (zfill (str_of_nonneg n) width) 0 = n
  /\ (slen (str_of_nonneg n) <= width -> slen (zfill (str_of_nonneg n) width) = width).
Proof.
  intros Hn.
  destruct (str_of_nonneg_spec n Hn) as [Hall [Hlen _]].
  unfold zfill.
  destruct (str_of_nonneg n) as [|c rest] eqn:Es.
  - unfold slen in Hlen. cbn in Hlen. lia.
  - assert (Hc : is_digit c = true).
    { cbn [all_digits] in Hall. apply andb_prop in Hall. apply Hall. }
    rewrite (digit_is_no_sign c Hc).
    split; [apply all_digits_app; [apply repeat_zero_digits|exact Hall]|].
    split; [rewrite slen_append; pose proof (slen_nonneg (repeat_char "0"
              (Z.to_nat (width - slen (c :: rest))))); lia|].
    split; [rewrite repeat_zero_value, <- Es; apply str_of_nonneg_value; exact Hn|].
    intros Hw. rewrite slen_append, slen_repeat_char. lia.
Qed.

Lemma zfill_number_width (n width : Z) :
  0 <= n ->
  slen (zfill (str_of_nonneg n) width) = Z.max (slen (str_of_nonneg n)) width.
Proof.
  intros Hn.
  destruct (str_of_nonneg_spec n Hn) as [Hall [Hlen _]].
  unfold zfill.
  destruct (str_of_nonneg n) as [|c rest] eqn:Es.
  - unfold slen in Hlen. cbn in Hlen. lia.
  - assert (Hc : is_digit c = true).
    { cbn [all_digits] in Hall. apply andb_prop in Hall. apply Hall. }
    rewrite (digit_is_no_sign c Hc), slen_append, slen_repeat_char. lia.
Qed.

End Digits.

(** ** [sorted] permutes its input and orders it *)

Section SortedFacts.
Context {A : Type}.
Variable lt : A -> A -> bool.

Lemma insert_sorted_perm (x : A) (l : list A) :
  Permutation (insert_sorted lt x l) (x :: l).
Proof.
  induction l as [|y l IH]; simpl.
  - apply Permutation_refl.
  - destruct (lt x y).
    + apply Permutation_refl.
    + eapply Permutation_trans.
      * apply perm_skip, IH.
      * apply perm_swap.
Qed.

Lemma fold_insert_perm (l acc : list A) :
  Permutation (fold_left (fun acc x => insert_sorted lt x acc) l acc) (l ++ acc).
Proof.
  revert acc. induction l as [|x l IH]; intros acc; simpl.
  - apply Permutation_refl.
  - eapply Permutation_trans; [apply IH|].
    eapply Permutation_trans.
    + apply Permutation_app_head, insert_sorted_perm.
    + apply Permutation_sym, Permutation_middle.
Qed.

Lemma sorted_perm (l : list A) : Permutation (sorted lt l) l.
Proof.
  unfold sorted. eapply Permutation_trans; [apply fold_insert_perm|].
  rewrite app_nil_r. apply Permutation_refl.
Qed.

Lemma sorted_In (l : list A) (x : A) : In x (sorted lt l) <-> In x l.
Proof.
  split; apply Permutation_in; [|apply Permutation_sym]; apply sorted_perm.
Qed.

Variable le : A -> A -> Prop.
Variable good : A -> Prop.
Hypothesis lt_le : forall x y, lt x y = true -> le x y.
Hypothesis nlt_le : forall x y, good x -> good y -> lt x y = false -> le y x.

Lemma insert_sorted_Sorted (x : A) (l : list A) :
  good x -> Forall good l -> Sorted le l -> Sorted le (insert_sorted lt x l).
Proof.
  intros Gx Gl Hs. induction l as [|y l IH]; simpl.
  - repeat constructor.
  - inversion Gl as [|? ? Gy Gl']; subst. inversion Hs as [|? ? Hs' Hd]; subst.
    destruct (lt x y) eqn:E.
    + constructor; [assumption|]. constructor. apply lt_le, E.
    + constructor; [apply IH; assumption|].
      destruct l as [|z l]; simpl.
      * constructor. apply nlt_le; assumption.
      * destruct (lt x z).
        -- constructor. apply nlt_le; assumption.
        -- constructor. inversion Hd; assumption.
Qed.

Lemma insert_sorted_good (x : A) (l : list A) :
  good x -> Forall good l -> Forall good (insert_sorted lt x l).
Proof.
  intros Gx Gl. eapply Permutation_Forall.
  - apply Permutation_sym, insert_sorted_perm.
  - constructor; assumption.
Qed.

Lemma fold_insert_Sorted (l acc : list A) :
  Forall good l -> Forall good acc -> Sorted le acc ->
  Sorted le (fold_left (fun acc x => insert_sorted lt x acc) l acc).
Proof.
  revert acc. induction l as [|x l IH]; intros acc Gl Ga Hs; simpl.
  - exact Hs.
  - inversion Gl; subst. apply IH; try assumption.
    + apply insert_sorted_good; assumption.
    + apply insert_sorted_Sorted; assumption.
Qed.

Lemma sorted_Sorted (l : list A) : Forall good l -> Sorted le (sorted lt l).
Proof.
  intros G. apply fold_insert_Sorted; [assumption|constructor|constructor].
Qed.

End SortedFacts.

(* ================================================================== *)
(** * Filename codec (util.py, merging.py) *)
(* ================================================================== *)

(** C2. For base name TheCrowing, segment index 0 of 10, BPM 170.0, time
    signature 4/4, start 0 s, end and duration 228.706 s, extension
    .synth, [generate_segment_filename] returns exactly
    [TheCrowing_01_BPM170_TimeSignature4-4_0s-228.706s_dur228.706s_Segment.synth]. *)
Theorem C2_concrete_encoding :
  forall tempo : option num,
    Util.generate_segment_filename "TheCrowing.synth" 0 10
      (Examples.the_crowing tempo (Some Examples.four_four))
    = Ok "TheCrowing_01_BPM170_TimeSignature4-4_0s-228.706s_dur228.706s_Segment.synth".
Proof.
  intros tempo. vm_compute. reflexivity.
Qed.

(** The same segment decodes to the fields it was encoded from: number 1,
    BPM 170, 4/4, and the three times as the encoder took them (milliseconds
    divided by 1000). *)
Lemma the_crowing_round_trip :
  forall tempo : option num,
    (name <- Util.generate_segment_filename "TheCrowing.synth" 0 10
               (Examples.the_crowing tempo (Some Examples.four_four)) ;;
     Merging.parse_segment_filename name)
    = Ok {| Merging.base_name := Some "TheCrowing";
            Merging.segment_number := 1;
            Merging.bpm := 170;
            Merging.time_signature := Some Examples.four_four;
            Merging.start_time := (0 / 1000)%float;
            Merging.end_time := (228706 / 1000)%float;
            Merging.duration := (228706 / 1000)%float;
            Merging.file_extension := Some "synth" |}.
Proof.
  intros tempo. vm_compute. reflexivity.
Qed.

(** C1. Encoding then decoding does not reproduce a segment whose time
    signature is absent: the encoder leaves the [_TimeSignature] part out,
    the pattern accepts the name with groups 4 and 5 unset, and the decoder
    raises [TypeError] on [int(None)].  The name is the one the decoder's
    docstring gives as the expected format. *)
Theorem C1_decode_fails_without_time_signature :
  forall tempo : option num,
    Util.generate_segment_filename "TheCrowing.synth" 0 10
      (Examples.the_crowing tempo None)
    = Ok "TheCrowing_01_BPM170_0s-228.706s_dur228.706s_Segment.synth"
    /\ Merging.parse_segment_filename
         "TheCrowing_01_BPM170_0s-228.706s_dur228.706s_Segment.synth"
       = Raise TypeError.
Proof.
  intros tempo. split; vm_compute; reflexivity.
Qed.

(** Whatever name the pattern accepts without a time signature, the decoder
    raises: no name without the [_TimeSignature] part decodes. *)
Lemma parse_needs_time_signature (filename : str) (m : groups) :
  re_match Merging.pattern filename = Some m ->
  group m 4 = None ->
  exists e, Merging.parse_segment_filename filename = Raise e.
Proof.
  intros Hm H4. unfold Merging.parse_segment_filename. rewrite Hm.
  destruct (int_of_str (group m 2)) as [n|e]; simpl; [|eauto].
  destruct (float_of_str (group m 3)) as [b|e]; simpl; [|eauto].
  rewrite H4. simpl. eauto.
Qed.

(* ================================================================== *)
(** * Tick-time converter (midi.py) *)
(* ================================================================== *)

(** C4, as stated, fails: at 480 ticks, 480 ticks per beat and 500000
    microseconds per beat the converter returns 0.5 (one beat of half a
    second, in seconds), and [t * T0 / ppb / 1000] is 500. *)
Lemma C4_counterexample_seconds_not_milliseconds :
  Midi.calculate_time_from_ticks 480 480 [] 500000 = Ok 0.5%float
  /\ Spec.claimed_linear_ms 480 480 500000 = Ok 500%float
  /\ ~ (forall t ppb T0 : Z,
          0 <= t -> 0 < ppb -> 0 < T0 ->
          Midi.calculate_time_from_ticks t ppb [] T0 = Spec.claimed_linear_ms t ppb T0).
Proof.
  split; [vm_compute; reflexivity|].
  split; [vm_compute; reflexivity|].
  intros H. specialize (H 480 480 500000 ltac:(lia) ltac:(lia) ltac:(lia)).
  vm_compute in H. discriminate H.
Qed.

(** C4, amended. With no tempo change the converter is linear in seconds:
    it returns [0.0 + t * (T0 * 1e-6 / ppb)], the value of
    [mido.tick2second], and [0.0] at tick 0. *)
Theorem C4_linear_in_seconds :
  forall (t ppb T0 : Z) (ft fp fT : float),
    0 <= t ->
    float_of_int t = Ok ft ->
    float_of_int ppb = Ok fp ->
    float_of_int T0 = Ok fT ->
    (fp =? 0)%float = false ->
    Midi.calculate_time_from_ticks t ppb [] T0
    = Ok (if t =? 0 then 0%float else (0 + ft * (fT * 1e-6 / fp))%float).
Proof.
  intros t ppb T0 ft fp fT Ht Eft Efp EfT Hfp.
  unfold Midi.calculate_time_from_ticks.
  destruct (t =? 0) eqn:E0; [reflexivity|].
  apply Z.eqb_neq in E0.
  cbn [Midi.walk_tempo_events]. unfold Midi.add_remaining.
  replace (0 <? t - 0) with true by (symmetry; apply Z.ltb_lt; lia).
  unfold Midi.tick2second. cbn [num_to_float].
  rewrite EfT. cbn [Py.bind]. rewrite Efp. cbn [Py.bind].
  unfold py_div. rewrite Hfp. cbn [Py.bind].
  rewrite Z.sub_0_r, Eft. reflexivity.
Qed.

Lemma C4_linear_in_seconds_witness :
  Midi.calculate_time_from_ticks 960 480 [] 500000 = Ok 1%float.
Proof.
  exact (C4_linear_in_seconds 960 480 500000 960 480 500000
           ltac:(lia) eq_refl eq_refl eq_refl eq_refl).
Defined.

(* ================================================================== *)
(** * Beats per measure (util.py) *)
(* ================================================================== *)

(** C9, as stated, fails: 5/8 has the fractional quotient 2.5, and the
    function returns 2. *)
Lemma C9_counterexample_five_eight :
  (4 * 5) mod 8 <> 0
  /\ Util.beats_per_measure_from_time_signature
       {| Util.td_numerator := Some 5; Util.td_denominator := Some 8 |} = Ok 2.
Proof.
  split; [discriminate|vm_compute; reflexivity].
Qed.

Lemma Zrange_In (lo : Z) (n : nat) (z : Z) :
  lo <= z < lo + Z.of_nat n -> In z (Spec.Zrange lo n).
Proof.
  intros H. unfold Spec.Zrange. apply in_map_iff.
  exists (Z.to_nat (z - lo)). split; [lia|]. apply in_seq. lia.
Qed.

Lemma truncates_on_spec (nums dens : list Z) :
  Spec.truncates_on nums dens = true ->
  forall n d, In n nums -> In d dens ->
    Util.beats_per_measure_from_time_signature
      {| Util.td_numerator := Some n; Util.td_denominator := Some d |}
    = Ok (4 * n / d).
Proof.
  unfold Spec.truncates_on. intros H n d Hn Hd.
  rewrite forallb_forall in H. specialize (H n Hn).
  rewrite forallb_forall in H. specialize (H d Hd).
  destruct (Util.beats_per_measure_from_time_signature _) as [v|e];
    [|discriminate].
  apply Z.eqb_eq in H. congruence.
Qed.

Lemma truncates_on_bytes :
  Spec.truncates_on (Spec.Zrange 0 256) (Spec.Zrange 1 256) = true.
Proof. vm_compute. reflexivity. Qed.

(** C9, amended. For numerators from 0 to 255 and denominators from 1 to
    256 the function returns [numerator / (denominator / 4)] truncated to an
    integer: the quotient itself when it is whole, its integer part when it
    is not; it does not fail. *)
Theorem C9_beats_per_measure_truncates :
  forall n d : Z,
    0 <= n <= 255 -> 1 <= d <= 256 ->
    Util.beats_per_measure_from_time_signature
      {| Util.td_numerator := Some n; Util.td_denominator := Some d |}
    = Ok (4 * n / d)
    /\ ((4 * n) mod d = 0 -> (4 * n / d) * d = 4 * n).
Proof.
  intros n d Hn Hd. split.
  - apply (truncates_on_spec _ _ truncates_on_bytes).
    + apply Zrange_In. lia.
    + apply Zrange_In. lia.
  - intros Hm. pose proof (Z.div_mod (4 * n) d ltac:(lia)). lia.
Qed.

Lemma C9_beats_per_measure_truncates_witness :
  (Util.beats_per_measure_from_time_signature
     {| Util.td_numerator := Some 4; Util.td_denominator := Some 4 |} = Ok 4
   /\ Util.beats_per_measure_from_time_signature
        {| Util.td_numerator := Some 3; Util.td_denominator := Some 4 |} = Ok 3)
  /\ Util.beats_per_measure_from_time_signature
       {| Util.td_numerator := Some 6; Util.td_denominator := Some 8 |} = Ok 3.
Proof.
  split; [split|].
  - exact (proj1 (C9_beats_per_measure_truncates 4 4 ltac:(lia) ltac:(lia))).
  - exact (proj1 (C9_beats_per_measure_truncates 3 4 ltac:(lia) ltac:(lia))).
  - exact (proj1 (C9_beats_per_measure_truncates 6 8 ltac:(lia) ltac:(lia))).
Defined.

(* ================================================================== *)
(** * Segmenter (audio.py) *)
(* ================================================================== *)

Lemma dict_get_In {V : Type} (d : dict V) (k : float) :
  In k (dict_keys d) -> (k =? k)%float = true -> dict_get d k <> None.
Proof.
  induction d as [|[k' v] d IH]; simpl; intros Hin Hk; [contradiction|].
  destruct (k' =? k)%float eqn:E; [discriminate|].
  destruct Hin as [Heq|Hin]; [subst; congruence|].
  apply IH; assumption.
Qed.

Lemma increasing_not_nan (k : float) (keys : list float) :
  Spec.increasing (k :: keys) = true -> (k =? k)%float = true ->
  Forall (fun x => (x =? x)%float = true) (k :: keys).
Proof.
  revert k. induction keys as [|k' keys IH]; intros k H Hk.
  - repeat constructor. exact Hk.
  - cbn [Spec.increasing] in H. apply andb_prop in H. destruct H as [Hlt Hrest].
    constructor; [exact Hk|]. apply IH; [exact Hrest|].
    apply eqb_refl_not_nan. apply (float_ltb_not_nan _ _ Hlt).
Qed.

(** The loop returns one segment per key: it starts at the key, ends at the
    next key or at the end of the audio, and lasts the difference. *)
Lemma segments_loop_ok (cm : ChangeMap) (audio_duration_ms : float) :
  forall (keys : list float) (last_bpm : float) (last_tempo : option num)
         (last_ts : option TimeSignature),
    (forall k, In k keys -> dict_get cm k <> None) ->
    (last_ts <> None \/
     exists k rest c ts, keys = k :: rest /\ dict_get cm k = Some c /\
                         ch_time_signature c = Some ts) ->
    exists segs,
      Audio.segments_loop cm keys audio_duration_ms last_bpm last_tempo last_ts = Ok segs
      /\ map start_ms segs = keys
      /\ map end_ms segs = Spec.segment_ends keys audio_duration_ms
      /\ Forall (fun s => duration_ms s = (end_ms s - start_ms s)%float) segs.
Proof.
  induction keys as [|k rest IH]; intros last_bpm last_tempo last_ts Hget Hts.
  - exists []. repeat split; constructor.
  - cbn [Audio.segments_loop].
    destruct (dict_get cm k) as [events|] eqn:Ek;
      [|exfalso; apply (Hget k); [left; reflexivity|exact Ek]].
    set (ts' := match ch_time_signature events with
                | Some ts => Some ts
                | None => last_ts
                end).
    assert (Hts' : exists ts, ts' = Some ts).
    { subst ts'. destruct (ch_time_signature events) as [ts|] eqn:Ets; [eauto|].
      destruct Hts as [Hl|[k0 [rest0 [c [ts [Hk [Hc Hcts]]]]]]].
      - destruct last_ts as [ts|]; [eauto|congruence].
      - inversion Hk; subst. rewrite Ek in Hc. inversion Hc; subst. congruence. }
    destruct Hts' as [ts Ets']. rewrite Ets'.
    destruct (match ch_tempo events with
              | Some t => (tc_bpm t, Some (tc_tempo t))
              | None => (last_bpm, last_tempo)
              end) as [bpm tempo].
    destruct (IH bpm tempo (Some ts)) as [segs [Hrun [Hs [He Hd]]]].
    + intros k' Hin. apply Hget. right. exact Hin.
    + left. discriminate.
    + rewrite Hrun. cbn [Py.bind]. eexists. split; [reflexivity|].
      cbn [map start_ms end_ms duration_ms]. repeat split.
      * rewrite Hs. reflexivity.
      * rewrite He. unfold Spec.segment_ends. destruct rest; reflexivity.
      * constructor; [reflexivity|exact Hd].
Qed.

Lemma chained (A : Type) (starts ends_ : A -> float) (segs : list A)
  (k0 : float) (ks : list float) (last_end : float) :
  map starts segs = k0 :: ks ->
  map ends_ segs = ks ++ [last_end] ->
  forall i a b,
    nth_error segs i = Some a -> nth_error segs (S i) = Some b ->
    ends_ a = starts b.
Proof.
  intros Hs He i a b Ha Hb.
  assert (E1 : nth_error (map ends_ segs) i = Some (ends_ a))
    by (rewrite nth_error_map, Ha; reflexivity).
  assert (E2 : nth_error (map starts segs) (S i) = Some (starts b))
    by (rewrite nth_error_map, Hb; reflexivity).
  rewrite He in E1. rewrite Hs in E2. cbn [nth_error] in E2.
  rewrite nth_error_app1 in E1 by (apply nth_error_Some; congruence).
  congruence.
Qed.

Lemma extents_ordered (audio_duration_ms : float) :
  forall (segs : list Segment) (keys : list float) (k : float),
    map start_ms segs = k :: keys ->
    map end_ms segs = keys ++ [audio_duration_ms] ->
    Spec.increasing (k :: keys) = true ->
    Forall (fun x => (x <=? audio_duration_ms)%float = true) (k :: keys) ->
    Forall (fun s => (start_ms s <=? end_ms s)%float = true) segs.
Proof.
  induction segs as [|s segs IH]; intros keys k Hs He Hinc Hle; [constructor|].
  cbn [map] in Hs, He. inversion Hs as [[Hk Hrest]]. subst k.
  apply Forall_cons_iff in Hle. destruct Hle as [Hk Hle'].
  destruct keys as [|k' keys].
  - cbn [app] in He. inversion He as [[Hend Hnil]].
    constructor; [rewrite Hend; exact Hk|].
    destruct segs; [constructor|discriminate].
  - cbn [app] in He. inversion He as [[Hend Htl]].
    cbn [Spec.increasing] in Hinc. apply andb_prop in Hinc. destruct Hinc as [Hlt Hinc].
    constructor.
    + rewrite Hend. apply float_ltb_leb, Hlt.
    + apply (IH keys k'); assumption.
Qed.

(** C3.  The partition does not hold of the code for a ChangeMap whose
    entry at key [0.0] has no time signature.  For a MIDI structure that
    holds notes only the timeline builder returns the map with the
    synthesized tempo at key [0.0] and nothing else; its keys are [k0 = 0],
    and the claim expects the one segment from 0 to the audio duration.
    The loop of [create_tempo_segments] builds that segment, with
    [time_signature] [None], and then formats
    [segment['time_signature']['numerator']] for its log line: the function
    raises [TypeError], whatever the audio duration and the initial BPM. *)
Theorem C3_segmenter_raises_without_time_signature :
  forall audio_duration_ms initial_bpm : float,
    Midi.extract_tempo_and_time_signature_changes Examples.midi_with_notes_only 120
    = Examples.tempo_only_map
    /\ sorted PrimFloat.ltb (dict_keys Examples.tempo_only_map) = [0%float]
    /\ Audio.create_tempo_segments Examples.tempo_only_map audio_duration_ms initial_bpm
       = Raise TypeError.
Proof.
  intros audio_duration_ms initial_bpm.
  split; [vm_compute; reflexivity|].
  split; [vm_compute; reflexivity|].
  reflexivity.
Qed.

(** Where the entry at the first key carries a time signature the code
    does what C3 says.  For every change map whose keys in ascending order
    are [k0 = 0 < k1 < ... < kn], each at most [audio_duration_ms], and
    whose entry at [k0] carries a time signature, [create_tempo_segments]
    returns
    exactly [n + 1] segments in key order; each ends where the next starts,
    the first starts at 0, the last ends at [audio_duration_ms], every
    duration is [end_ms - start_ms], and no segment ends before it
    starts. *)
Lemma segments_partition :
  forall (cm : ChangeMap) (audio_duration_ms initial_bpm : float)
         (k0 : float) (ks : list float) (c0 : Change) (ts0 : TimeSignature),
    sorted PrimFloat.ltb (dict_keys cm) = k0 :: ks ->
    (k0 =? 0)%float = true ->
    Spec.increasing (k0 :: ks) = true ->
    Forall (fun k => (k <=? audio_duration_ms)%float = true) (k0 :: ks) ->
    dict_get cm k0 = Some c0 ->
    ch_time_signature c0 = Some ts0 ->
    exists segs,
      Audio.create_tempo_segments cm audio_duration_ms initial_bpm = Ok segs
      /\ List.length segs = S (List.length ks)
      /\ map start_ms segs = k0 :: ks
      /\ map end_ms segs = ks ++ [audio_duration_ms]
      /\ (forall i a b, nth_error segs i = Some a -> nth_error segs (S i) = Some b ->
                        end_ms a = start_ms b)
      /\ (exists first, nth_error segs 0 = Some first /\ (start_ms first =? 0)%float = true)
      /\ (exists final, nth_error segs (List.length ks) = Some final
                        /\ end_ms final = audio_duration_ms)
      /\ Forall (fun s => duration_ms s = (end_ms s - start_ms s)%float) segs
      /\ Forall (fun s => (start_ms s <=? end_ms s)%float = true) segs.
Proof.
  intros cm audio_duration_ms initial_bpm k0 ks c0 ts0 Hkeys H0 Hinc Hle Hc0 Hts0.
  assert (Hnan : Forall (fun x => (x =? x)%float = true) (k0 :: ks)).
  { apply increasing_not_nan; [exact Hinc|].
    apply eqb_refl_not_nan. apply (float_eqb_not_nan _ _ H0). }
  destruct (segments_loop_ok cm audio_duration_ms (k0 :: ks) initial_bpm None None)
    as [segs [Hrun [Hs [He Hd]]]].
  - intros k Hin. apply dict_get_In.
    + rewrite <- Hkeys in Hin. apply sorted_In in Hin. exact Hin.
    + rewrite Forall_forall in Hnan. apply Hnan, Hin.
  - right. exists k0, ks, c0, ts0. auto.
  - cbn [Spec.segment_ends] in He.
    assert (Hlen : List.length segs = S (List.length ks)).
    { rewrite <- (length_map start_ms segs), Hs. reflexivity. }
    exists segs. unfold Audio.create_tempo_segments. rewrite Hkeys.
    split; [exact Hrun|]. split; [exact Hlen|]. split; [exact Hs|].
    split; [exact He|]. split; [exact (chained _ _ _ _ _ _ _ Hs He)|].
    split; [|split; [|split; [exact Hd|]]].
    + destruct segs as [|s segs]; [discriminate|]. exists s. split; [reflexivity|].
      cbn [map] in Hs. injection Hs as Hk _. rewrite Hk. exact H0.
    + destruct (nth_error segs (List.length ks)) as [final|] eqn:En.
      * exists final. split; [reflexivity|].
        assert (E : nth_error (map end_ms segs) (List.length ks) = Some (end_ms final))
          by (rewrite nth_error_map, En; reflexivity).
        rewrite He, nth_error_app2, Nat.sub_diag in E by apply Nat.le_refl.
        cbn [nth_error] in E. congruence.
      * apply nth_error_None in En. rewrite Hlen in En. exfalso.
        apply (Nat.nle_succ_diag_l _ En).
    + exact (extents_ordered audio_duration_ms segs ks k0 Hs He Hinc Hle).
Qed.

Lemma segments_partition_of_three_changes :
  exists segs,
    Audio.create_tempo_segments Examples.three_changes 10000 100 = Ok segs
    /\ List.length segs = 3%nat
    /\ map start_ms segs = [0; 1000; 1800]%float
    /\ map end_ms segs = [1000; 1800; 10000]%float
    /\ (forall i a b, nth_error segs i = Some a -> nth_error segs (S i) = Some b ->
                      end_ms a = start_ms b)
    /\ (exists first, nth_error segs 0 = Some first /\ (start_ms first =? 0)%float = true)
    /\ (exists final, nth_error segs 2 = Some final /\ end_ms final = 10000%float)
    /\ Forall (fun s => duration_ms s = (end_ms s - start_ms s)%float) segs
    /\ Forall (fun s => (start_ms s <=? end_ms s)%float = true) segs.
Proof.
  refine (segments_partition Examples.three_changes 10000 100 0
            [1000; 1800]%float
            {| ch_tempo := Some {| tc_time_ms := 0; tc_bpm := 120; tc_tempo := Int 500000 |};
               ch_time_signature := Some Examples.four_four |}
            Examples.four_four _ _ _ _ _ _).
  - vm_compute. reflexivity.
  - reflexivity.
  - reflexivity.
  - repeat constructor.
  - reflexivity.
  - reflexivity.
Defined.

(* ================================================================== *)
(** * Tempo timeline builder (midi.py) *)
(* ================================================================== *)

Section ZeroKey.
Context {V : Type}.
Variable good : V -> Prop.

(** Writing an entry that is [good] whenever the old one was keeps what key
    [0.0] resolves to [good]. *)
Lemma dict_set_keeps (d : dict V) (key : float) (f : option V -> V) :
  (forall v, good v -> good (f (Some v))) ->
  Spec.at_zero good d -> Spec.at_zero good (dict_set d key (f (dict_get d key))).
Proof.
  intros Hf. unfold Spec.at_zero.
  induction d as [|[k' v'] d IH]; cbn [dict_get dict_set]; intros [c [Hc Hg]].
  - discriminate.
  - destruct (k' =? key)%float; cbn [dict_get].
    + destruct (k' =? 0)%float.
      * inversion Hc; subst. eauto.
      * eauto.
    + destruct (k' =? 0)%float.
      * eauto.
      * apply IH. eauto.
Qed.

(** Writing a [good] entry at key [0.0] makes it resolve to a [good] one. *)
Lemma dict_set_zero (d : dict V) (f : option V -> V) :
  (forall o, good (f o)) -> Spec.at_zero good (dict_set d 0 (f (dict_get d 0))).
Proof.
  intros Hf. unfold Spec.at_zero.
  induction d as [|[k' v'] d IH]; cbn [dict_get dict_set].
  - exists (f None). split; [reflexivity|apply Hf].
  - destruct (k' =? 0)%float eqn:E; cbn [dict_get]; rewrite E.
    + eauto.
    + exact IH.
Qed.

End ZeroKey.

Lemma set_tempo_at_keeps_tempo (d : ChangeMap) (key : float) (t : TempoChange) :
  Spec.at_zero Spec.has_tempo d -> Spec.at_zero Spec.has_tempo (Midi.set_tempo_at d key t).
Proof.
  apply (dict_set_keeps Spec.has_tempo d key
           (fun o => {| ch_tempo := Some t;
                        ch_time_signature :=
                          ch_time_signature
                            match o with Some c => c | None => Midi.empty_change end |})).
  intros v _. exists t. reflexivity.
Qed.

Lemma set_time_signature_at_keeps_tempo (d : ChangeMap) (key : float)
  (ts : TimeSignature) :
  Spec.at_zero Spec.has_tempo d -> Spec.at_zero Spec.has_tempo (Midi.set_time_signature_at d key ts).
Proof.
  apply (dict_set_keeps Spec.has_tempo d key
           (fun o => {| ch_tempo :=
                          ch_tempo match o with Some c => c | None => Midi.empty_change end;
                        ch_time_signature := Some ts |})).
  intros v Hv. exact Hv.
Qed.

Lemma set_time_signature_at_keeps_ts (d : ChangeMap) (key : float)
  (ts : TimeSignature) :
  Spec.at_zero Spec.has_time_signature d ->
  Spec.at_zero Spec.has_time_signature (Midi.set_time_signature_at d key ts).
Proof.
  apply (dict_set_keeps Spec.has_time_signature d key
           (fun o => {| ch_tempo :=
                          ch_tempo match o with Some c => c | None => Midi.empty_change end;
                        ch_time_signature := Some ts |})).
  intros v _. exists ts. reflexivity.
Qed.

Lemma set_time_signature_at_zero (d : ChangeMap) (ts : TimeSignature) :
  Spec.at_zero Spec.has_time_signature (Midi.set_time_signature_at d 0 ts).
Proof.
  apply (dict_set_zero Spec.has_time_signature d
           (fun o => {| ch_tempo :=
                          ch_tempo match o with Some c => c | None => Midi.empty_change end;
                        ch_time_signature := Some ts |})).
  intros o. exists ts. reflexivity.
Qed.

(** The loop over the tempo events never takes the tempo at key [0.0]
    away. *)
Lemma tempo_loop_step_keeps (tpb : Z) (st st' : Midi.tempo_loop) (ev : Midi.TempoEvent) :
  Midi.tempo_loop_step tpb st ev = Ok st' ->
  Spec.at_zero Spec.has_tempo (Midi.time_changes st) ->
  Spec.at_zero Spec.has_tempo (Midi.time_changes st').
Proof.
  unfold Midi.tempo_loop_step. intros H Hz. bind_inv H.
  destruct (negb (num_eqb (Midi.current_tempo st) (Int (Midi.tempo ev)))).
  - bind_inv H. inversion H; subst. cbn [Midi.time_changes].
    apply set_tempo_at_keeps_tempo, Hz.
  - inversion H; subst. exact Hz.
Qed.

Lemma tempo_loop_run_keeps (tpb : Z) (events : list Midi.TempoEvent) :
  forall st st',
    Midi.tempo_loop_run tpb st events = Ok st' ->
    Spec.at_zero Spec.has_tempo (Midi.time_changes st) ->
    Spec.at_zero Spec.has_tempo (Midi.time_changes st').
Proof.
  induction events as [|ev events IH]; cbn [Midi.tempo_loop_run]; intros st st' H Hz.
  - inversion H; subst. exact Hz.
  - bind_inv H. apply (IH _ _ H). eapply tempo_loop_step_keeps; eassumption.
Qed.

Lemma time_sig_fold_keeps_tempo (changes : list Midi.TimeSigChange) :
  forall d, Spec.at_zero Spec.has_tempo d ->
            Spec.at_zero Spec.has_tempo (fold_left Midi.time_sig_step changes d).
Proof.
  induction changes as [|c changes IH]; cbn [fold_left]; intros d Hz; [exact Hz|].
  apply IH. apply set_time_signature_at_keeps_tempo, Hz.
Qed.

Lemma time_sig_fold_keeps_ts (changes : list Midi.TimeSigChange) :
  forall d, Spec.at_zero Spec.has_time_signature d ->
            Spec.at_zero Spec.has_time_signature (fold_left Midi.time_sig_step changes d).
Proof.
  induction changes as [|c changes IH]; cbn [fold_left]; intros d Hz; [exact Hz|].
  apply IH. apply set_time_signature_at_keeps_ts, Hz.
Qed.

Lemma round_zero : py_round 0 3 = 0%float.
Proof. reflexivity. Qed.

Lemma time_sig_fold_sets_zero (changes : list Midi.TimeSigChange) :
  forall d c, In c changes -> Midi.ts_time_ms c = 0%float ->
              Spec.at_zero Spec.has_time_signature (fold_left Midi.time_sig_step changes d).
Proof.
  induction changes as [|c' changes IH]; cbn [fold_left]; intros d c Hin Hms.
  - contradiction.
  - destruct Hin as [Heq|Hin].
    + subst c'. apply time_sig_fold_keeps_ts. unfold Midi.time_sig_step.
      rewrite Hms, round_zero. apply set_time_signature_at_zero.
    + apply (IH _ c Hin Hms).
Qed.

(** A time-signature message at tick 0 is collected at 0 ms. *)
Lemma track_time_sig_at_zero (tpb : Z) (events : list Midi.TempoEvent) (it n : Z) :
  forall (msgs : list Midi.Message) (t : Z) (l : list Midi.TimeSigChange),
    Spec.track_has_time_signature_at_zero msgs t = true ->
    Midi.track_time_sig_changes tpb events it n msgs t = Ok l ->
    exists c, In c l /\ Midi.ts_time_ms c = 0%float.
Proof.
  induction msgs as [|msg msgs IH];
    cbn [Spec.track_has_time_signature_at_zero Midi.track_time_sig_changes];
    intros t l Hz Hl; [discriminate|].
  destruct (Midi.msg_type msg) as [tp|nu de cl n32|].
  - apply (IH _ _ Hz Hl).
  - bind_inv Hl. bind_inv Hl. inversion Hl; subst.
    apply orb_prop in Hz. destruct Hz as [Hz|Hz].
    + apply Z.eqb_eq in Hz. rewrite Hz in E.
      unfold Midi.calculate_time_from_ticks in E. cbn in E. inversion E; subst.
      eexists. split; [left; reflexivity|]. reflexivity.
    + destruct (IH _ _ Hz E0) as [c [Hin Hc]]. exists c. split; [right; exact Hin|exact Hc].
  - apply (IH _ _ Hz Hl).
Qed.

Lemma all_tracks_time_sig_at_zero (tpb : Z) (events : list Midi.TempoEvent) (it : Z) :
  forall (trs : list (list Midi.Message)) (n : Z) (l : list Midi.TimeSigChange),
    existsb (fun tr => Spec.track_has_time_signature_at_zero tr 0) trs = true ->
    Midi.all_tracks_time_sig_changes tpb events it n trs = Ok l ->
    exists c, In c l /\ Midi.ts_time_ms c = 0%float.
Proof.
  induction trs as [|tr trs IH]; cbn [existsb Midi.all_tracks_time_sig_changes];
    intros n l Hz Hl; [discriminate|].
  bind_inv Hl. bind_inv Hl. inversion Hl; subst.
  apply orb_prop in Hz. destruct Hz as [Hz|Hz].
  - destruct (track_time_sig_at_zero _ _ _ _ _ _ _ Hz E) as [c [Hin Hc]].
    exists c. split; [apply in_or_app; left; exact Hin|exact Hc].
  - destruct (IH _ _ Hz E0) as [c [Hin Hc]].
    exists c. split; [apply in_or_app; right; exact Hin|exact Hc].
Qed.


(* ================================================================== *)
(** * Segment materializer (beatmap.py) *)
(* ================================================================== *)

(** What [create_body] passes to [change_offset], read off the saved
    beatmap. *)
Lemma create_body_offset (ext : Beatmap.externals) (beatmap saved : Synth.SynthFile)
  (segment : Segment) :
  Beatmap.create_body ext beatmap segment = Ok saved ->
  exists ts beats_per_measure seconds_per_beat beats remainder,
    seg_time_signature segment = Some ts
    /\ Util.beats_per_measure_from_time_signature
         {| Util.td_numerator := Some (numerator ts);
            Util.td_denominator := Some (denominator ts) |} = Ok beats_per_measure
    /\ py_div 60 (seg_bpm segment) = Ok seconds_per_beat
    /\ float_of_int beats_per_measure = Ok beats
    /\ py_mod 2 (seconds_per_beat * beats) = Ok remainder
    /\ Synth.offset_ms saved
       = if (start_ms segment =? 0)%float then Int 0
         else if (remainder =? 0)%float then Int 2000
              else Flt ((2 + (seconds_per_beat * beats - remainder)) * 1000)%float.
Proof.
  unfold Beatmap.create_body. intros H.
  bind_inv H. rename v into seconds_per_beat.
  bind_inv H. rename v into ts.
  bind_inv H. rename v into beats_per_measure.
  bind_inv H. rename v into note_value.
  bind_inv H. rename v into beats.
  bind_inv H. rename v into remainder.
  destruct (seg_time_signature segment) as [ts'|] eqn:Ets; [|discriminate].
  inversion E0; subst ts'.
  exists ts, beats_per_measure, seconds_per_beat, beats, remainder.
  repeat (split; [assumption || reflexivity|]).
  unfold Beatmap.segment_beatmap_audio in H.
  destruct (Beatmap.slice_ok ext).
  - do 5 bind_inv H. bind_inv H. cbn [negb] in H.
    destruct (Beatmap.save_ok ext); [|discriminate].
    inversion H; subst.
    unfold Beatmap.add_timing_notes in E10.
    destruct (Beatmap.notes_ok ext); [|discriminate].
    inversion E10; subst. cbn [Synth.offset_ms Synth.set_timing Synth.set_audio
                                 Synth.change_offset].
    destruct (start_ms segment =? 0)%float; [reflexivity|].
    destruct (remainder =? 0)%float; reflexivity.
  - do 5 bind_inv H. bind_inv H. cbn [negb] in H. discriminate H.
Qed.

(** C6. For every segment that is materialized, the offset given to the new
    beatmap is the leading-silence offset of section 4.4: 0 for a segment
    that starts at 0 ms, else [(2.0 + extra_padding) * 1000] with the extra
    padding that completes the measure in which the 2-second mark falls;
    for BPM 120 in 4/4 a later segment gets exactly 2000 ms. *)
Theorem C6_leading_silence_offset :
  forall (ext : Beatmap.externals) (beatmap saved : Synth.SynthFile) (segment : Segment),
    Beatmap.create_tempo_segment_with_audio ext beatmap segment = (true, Some saved) ->
    exists ts beats_per_measure,
      seg_time_signature segment = Some ts
      /\ Util.beats_per_measure_from_time_signature
           {| Util.td_numerator := Some (numerator ts);
              Util.td_denominator := Some (denominator ts) |} = Ok beats_per_measure
      /\ num_to_float (Synth.offset_ms saved)
         = Spec.leading_silence_offset_ms (seg_bpm segment) beats_per_measure
             (start_ms segment)
      /\ ((start_ms segment =? 0)%float = true -> Synth.offset_ms saved = Int 0)
      /\ (seg_bpm segment = 120%float -> ts = Examples.four_four ->
          (start_ms segment =? 0)%float = false ->
          Synth.offset_ms saved = Int 2000).
Proof.
  intros ext beatmap saved segment H.
  unfold Beatmap.create_tempo_segment_with_audio in H.
  destruct (Beatmap.create_body ext beatmap segment) as [saved'|e] eqn:Hbody;
    [|discriminate].
  inversion H; subst saved'. clear H.
  destruct (create_body_offset _ _ _ _ Hbody)
    as [ts [bpmeasure [spb [beats [rem [Hts [Hb [Hspb [Hbeats [Hrem Hoff]]]]]]]]]].
  exists ts, bpmeasure. split; [exact Hts|]. split; [exact Hb|].
  split; [|split].
  - unfold Spec.leading_silence_offset_ms.
    rewrite Hspb. cbn [Py.bind]. rewrite Hbeats. cbn [Py.bind].
    rewrite Hrem. cbn [Py.bind]. rewrite Hoff.
    destruct (start_ms segment =? 0)%float; [reflexivity|].
    destruct (rem =? 0)%float; reflexivity.
  - intros H0. rewrite Hoff, H0. reflexivity.
  - intros Hbpm Hfour H0. rewrite Hoff, H0.
    rewrite Hbpm in Hspb. rewrite Hfour in Hb.
    vm_compute in Hspb. inversion Hspb; subst spb.
    vm_compute in Hb. inversion Hb; subst bpmeasure.
    vm_compute in Hbeats. inversion Hbeats; subst beats.
    vm_compute in Hrem. inversion Hrem; subst rem.
    reflexivity.
Qed.

Lemma C6_leading_silence_offset_witness :
  exists saved,
    Beatmap.create_tempo_segment_with_audio Examples.all_fine Examples.beatmap
      Examples.later_segment = (true, Some saved)
    /\ Synth.offset_ms saved = Int 2000.
Proof.
  eexists. split; [vm_compute; reflexivity|].
  destruct (C6_leading_silence_offset Examples.all_fine Examples.beatmap _
              Examples.later_segment ltac:(vm_compute; reflexivity))
    as [ts [b [Hts [_ [_ [_ H]]]]]].
  apply H; [reflexivity| |reflexivity].
  cbn in Hts. inversion Hts. reflexivity.
Defined.

(** C7. The end beat is not the duration rounded down to whole measures:
    the segment of five beats at 120 BPM in 4/4 that opens the audio is
    materialized with end beat 8, two measures, where rounding five beats
    down gives one measure, 4.  The code divides the floored beat count by
    the measure and takes the ceiling. *)
Theorem C7_end_beat_rounds_up :
  exists saved grid,
    Beatmap.create_tempo_segment_with_audio Examples.all_fine Examples.beatmap
      Examples.five_beats = (true, Some saved)
    /\ Synth.timing saved = Some grid
    /\ py_floor (Synth.second_to_beat
                   ((end_ms Examples.five_beats - start_ms Examples.five_beats) / 1000)
                   (seg_bpm Examples.five_beats)) = Ok 5
    /\ Synth.tg_beats_per_measure grid = 4
    /\ Synth.tg_end_beat grid = 8
    /\ Spec.end_beat_rounded_down 5 4 (Synth.tg_start_beat grid) true = 4.
Proof.
  do 2 eexists. split; [vm_compute; reflexivity|].
  split; [reflexivity|]. repeat split; vm_compute; reflexivity.
Qed.

(* ================================================================== *)
(** * Merger (merging.py) *)
(* ================================================================== *)

Lemma parse_start_time_not_nan (filename : str) (info : Merging.SegmentInfo) :
  Merging.parse_segment_filename filename = Ok info ->
  is_nan (Merging.start_time info) = false.
Proof.
  unfold Merging.parse_segment_filename.
  destruct (re_match Merging.pattern filename) as [m|]; [|discriminate].
  intros H. do 7 bind_inv H. inversion H; subst. cbn [Merging.start_time].
  eapply float_of_str_not_nan; eassumption.
Qed.

(** A decoded name always carries a time signature: the decoder builds the
    entry from groups 4 and 5 or raises. *)
Lemma parse_has_time_signature (filename : str) (info : Merging.SegmentInfo) :
  Merging.parse_segment_filename filename = Ok info ->
  exists n d, int_of_str (Spec.group_of filename 4) = Ok n
              /\ int_of_str (Spec.group_of filename 5) = Ok d
              /\ Merging.time_signature info = Some {| numerator := n; denominator := d |}.
Proof.
  unfold Merging.parse_segment_filename, Spec.group_of.
  destruct (re_match Merging.pattern filename) as [m|]; [|discriminate].
  intros H. do 7 bind_inv H. inversion H; subst. cbn [Merging.time_signature].
  eauto.
Qed.

Lemma merge_loop_parts :
  forall (data : list (Merging.SegmentInfo * Synth.SynthFile)) (m m' : Synth.Merged),
    Merging.merge_loop m data = Ok m' ->
    exists copies,
      Forall2 (fun d copy => Merging.prepare_segment (fst d) (snd d) = Ok copy)
        data copies
      /\ Synth.merged_parts m' = Synth.merged_parts m ++ copies
      /\ Synth.merged_base m' = Synth.merged_base m.
Proof.
  induction data as [|[info file] data IH]; cbn [Merging.merge_loop]; intros m m' H.
  - inversion H; subst. exists []. rewrite app_nil_r. repeat split. constructor.
  - bind_inv H. destruct (IH _ _ H) as [copies [Hc [Hp Hb]]].
    exists (v :: copies). split; [constructor; [exact E|exact Hc]|].
    split; [|exact Hb].
    rewrite Hp. cbn [Synth.merge Synth.merged_parts]. rewrite <- app_assoc. reflexivity.
Qed.

Lemma start_le_trans : forall a b c, Spec.start_le a b -> Spec.start_le b c -> Spec.start_le a c.
Proof. unfold Spec.start_le. intros a b c. apply float_leb_trans. Qed.

Lemma sort_segments_ordered (data : list (Merging.SegmentInfo * Synth.SynthFile)) :
  Forall (fun d => is_nan (Merging.start_time (fst d)) = false) data ->
  StronglySorted Spec.start_le (Merging.sort_segments data).
Proof.
  intros Hgood. apply Sorted_StronglySorted; [exact start_le_trans|].
  unfold Merging.sort_segments.
  apply (sorted_Sorted _ Spec.start_le
           (fun d => is_nan (Merging.start_time (fst d)) = false)).
  - intros x y. apply float_ltb_leb.
  - intros x y Hx Hy. apply float_ltb_false_leb; assumption.
  - exact Hgood.
Qed.

Lemma mapM_of_Forall2 {A B : Type} (g : A -> result B) (l : list A) (l' : list B) :
  Forall2 (fun x y => g x = Ok y) l l' -> mapM g l = Ok l'.
Proof.
  induction 1 as [|x y l l' Hxy _ IH]; cbn [mapM]; [reflexivity|].
  rewrite Hxy. cbn [Py.bind]. rewrite IH. reflexivity.
Qed.

Lemma load_segments_of_decoded (from_synth : str -> result Synth.SynthFile)
  (segments : list str) (data : list (Merging.SegmentInfo * Synth.SynthFile)) :
  Forall2 (fun segment d =>
             Merging.parse_segment_filename (path_name segment) = Ok (fst d)
             /\ from_synth segment = Ok (snd d)) segments data ->
  Merging.load_segments from_synth segments = Ok data.
Proof.
  intros H. unfold Merging.load_segments. apply mapM_of_Forall2.
  induction H as [|segment [info file] segments data [Hp Hf] _ IH]; constructor;
    [|exact IH].
  cbn [fst snd] in Hp, Hf. rewrite Hp. cbn [Py.bind]. rewrite Hf. reflexivity.
Qed.

(** The numerator of a decoded name is not negative and has no more
    digits than [str] writes. *)
Lemma parse_numerator_range (filename : str) (info : Merging.SegmentInfo) :
  Merging.parse_segment_filename filename = Ok info ->
  forall ts, Merging.time_signature info = Some ts ->
             0 <= numerator ts < 10 ^ int_max_str_digits.
Proof.
  intros Hparse ts Hts.
  destruct (parse_has_time_signature _ _ Hparse) as [n [d [Hn [_ Hts']]]].
  rewrite Hts' in Hts. inversion Hts; subst ts. cbn [numerator].
  exact (int_of_str_range _ _ Hn).
Qed.

Lemma str_of_four : str_of_int 4 = Ok "4".
Proof. vm_compute. reflexivity. Qed.

(** A segment file with an Expert difficulty is always prepared, when its
    numerator can be written in the label. *)
Lemma prepare_segment_ok (info : Merging.SegmentInfo) (file : Synth.SynthFile) :
  Synth.expert file <> None ->
  (forall ts, Merging.time_signature info = Some ts ->
              0 <= numerator ts < 10 ^ int_max_str_digits) ->
  exists copy, Merging.prepare_segment info file = Ok copy.
Proof.
  intros He Hnum. unfold Merging.prepare_segment.
  cbn [Synth.expert Synth.offset_everything Synth.change_offset].
  destruct (Synth.expert file) as [n|]; [|congruence].
  cbn [Py.bind].
  assert (Hs : exists s,
             str_of_int match Merging.time_signature info with
                        | Some ts => numerator ts
                        | None => 4
                        end = Ok s).
  { destruct (Merging.time_signature info) as [ts|].
    - eexists. apply str_of_int_fits. apply Hnum. reflexivity.
    - eexists. apply str_of_four. }
  destruct Hs as [s Hs]. rewrite Hs, str_of_four. cbn [Py.bind]. eexists. reflexivity.
Qed.

Lemma merge_loop_ok :
  forall (data : list (Merging.SegmentInfo * Synth.SynthFile)) (m : Synth.Merged),
    Forall (fun d => Synth.expert (snd d) <> None) data ->
    Forall (fun d => forall ts, Merging.time_signature (fst d) = Some ts ->
                                0 <= numerator ts < 10 ^ int_max_str_digits) data ->
    exists m', Merging.merge_loop m data = Ok m'.
Proof.
  induction data as [|[info file] data IH]; cbn [Merging.merge_loop]; intros m H Hnum.
  - eexists. reflexivity.
  - apply Forall_cons_iff in H. destruct H as [Hd H]. cbn [snd] in Hd.
    apply Forall_cons_iff in Hnum. destruct Hnum as [Hn Hnum]. cbn [fst] in Hn.
    destruct (prepare_segment_ok info file Hd Hn) as [copy Hc]. rewrite Hc.
    cbn [Py.bind]. apply IH; assumption.
Qed.

(** C8. For every non-empty listing of segment files that decode and load,
    in whatever order they are listed, the merger returns a beatmap, and
    the segments it has merged are, in order, the decoded files sorted by
    ascending decoded start time: a permutation of the listing in which no
    segment starts before an earlier one, each prepared and appended in
    that order to the base beatmap. *)
Theorem C8_merge_in_start_time_order :
  forall (from_synth : str -> result Synth.SynthFile)
         (base_beatmap : str) (base : Synth.SynthFile)
         (segments : list str)
         (data : list (Merging.SegmentInfo * Synth.SynthFile)),
    segments <> [] ->
    Forall2 (fun segment d =>
               Merging.parse_segment_filename (path_name segment) = Ok (fst d)
               /\ from_synth segment = Ok (snd d)) segments data ->
    Forall (fun d => Synth.expert (snd d) <> None) data ->
    from_synth base_beatmap = Ok base ->
    exists merged,
      Merging.merge_synth_segments from_synth base_beatmap segments = Ok merged
      /\ Synth.merged_base merged = base
      /\ Permutation (Merging.sort_segments data) data
      /\ StronglySorted Spec.start_le (Merging.sort_segments data)
      /\ Forall2 (fun d copy => Merging.prepare_segment (fst d) (snd d) = Ok copy)
           (Merging.sort_segments data) (Synth.merged_parts merged).
Proof.
  intros from_synth base_beatmap base segments data Hne Hdec Hexp Hbase.
  pose proof (sorted_perm
                (fun x y => (Merging.start_time (fst x) <? Merging.start_time (fst y))%float)
                data) as Hperm.
  fold (Merging.sort_segments data) in Hperm.
  assert (Hsexp : Forall (fun d => Synth.expert (snd d) <> None)
                    (Merging.sort_segments data)).
  { eapply Permutation_Forall; [apply Permutation_sym, Hperm|exact Hexp]. }
  assert (Hnum : Forall (fun d => forall ts, Merging.time_signature (fst d) = Some ts ->
                                  0 <= numerator ts < 10 ^ int_max_str_digits)
                   (Merging.sort_segments data)).
  { eapply Permutation_Forall; [apply Permutation_sym, Hperm|].
    clear - Hdec. induction Hdec as [|s d ss ds [Hp' _] _ IH]; constructor; [|exact IH].
    eapply parse_numerator_range; exact Hp'. }
  destruct (merge_loop_ok (Merging.sort_segments data)
              {| Synth.merged_base := base; Synth.merged_parts := [] |} Hsexp Hnum)
    as [merged Hloop].
  destruct (merge_loop_parts _ _ _ Hloop) as [copies [Hc [Hp Hb]]].
  cbn [Synth.merged_parts Synth.merged_base app] in Hp, Hb.
  exists merged. split; [|split; [exact Hb|split; [exact Hperm|split]]].
  - unfold Merging.merge_synth_segments.
    rewrite (load_segments_of_decoded _ _ _ Hdec). cbn [Py.bind].
    destruct (Merging.sort_segments data) as [|d0 rest] eqn:Es.
    + apply Permutation_nil in Hperm. subst data.
      inversion Hdec; subst. congruence.
    + rewrite Hbase. cbn [Py.bind]. exact Hloop.
  - apply sort_segments_ordered.
    clear - Hdec. induction Hdec as [|s d ss ds [Hp' _] _ IH]; constructor; [|exact IH].
    eapply parse_start_time_not_nan; exact Hp'.
  - rewrite Hp. exact Hc.
Qed.

(** Section 8's example: listed with start times 10 s, 0 s, 5 s, the files
    are merged in the order 0 s, 5 s, 10 s. *)
Lemma C8_merge_in_start_time_order_witness :
  map (fun d => Merging.start_time (fst d)) Examples.listing_data = [10; 0; 5]%float
  /\ map (fun d => Merging.start_time (fst d)) (Merging.sort_segments Examples.listing_data)
     = [0; 5; 10]%float
  /\ exists merged,
       Merging.merge_synth_segments Examples.loader "base.synth" Examples.listing
       = Ok merged
       /\ Synth.merged_base merged = Examples.beatmap
       /\ Permutation (Merging.sort_segments Examples.listing_data) Examples.listing_data
       /\ StronglySorted Spec.start_le (Merging.sort_segments Examples.listing_data)
       /\ Forall2 (fun d copy => Merging.prepare_segment (fst d) (snd d) = Ok copy)
            (Merging.sort_segments Examples.listing_data) (Synth.merged_parts merged).
Proof.
  split; [vm_compute; reflexivity|]. split; [vm_compute; reflexivity|].
  apply (C8_merge_in_start_time_order Examples.loader "base.synth" Examples.beatmap
           Examples.listing Examples.listing_data).
  - discriminate.
  - repeat constructor; vm_compute; reflexivity.
  - repeat constructor; discriminate.
  - reflexivity.
Defined.

(** Two orderly arrangements of the same segments coincide when equal start
    times mean the same segment: with distinct start times the order of
    merging does not depend on the order of the listing. *)
Lemma ordered_perm_unique (l l' : list (Merging.SegmentInfo * Synth.SynthFile)) :
  (forall a b, In a l -> In b l -> Spec.start_le a b -> Spec.start_le b a -> a = b) ->
  StronglySorted Spec.start_le l -> StronglySorted Spec.start_le l' ->
  Permutation l l' -> l = l'.
Proof.
  revert l'. induction l as [|x l IH]; intros l' Hanti Hs Hs' Hp.
  - apply Permutation_nil in Hp. congruence.
  - destruct l' as [|y l'];
      [apply Permutation_sym, Permutation_nil in Hp; discriminate|].
    assert (Hxy : x = y).
    { apply StronglySorted_inv in Hs. destruct Hs as [_ Hx].
      apply StronglySorted_inv in Hs'. destruct Hs' as [_ Hy].
      rewrite Forall_forall in Hx, Hy.
      assert (Hx' : In x (y :: l')) by (eapply Permutation_in; [exact Hp|left; reflexivity]).
      assert (Hy' : In y (x :: l))
        by (eapply Permutation_in; [apply Permutation_sym, Hp|left; reflexivity]).
      destruct Hx' as [E|Hx']; [congruence|].
      destruct Hy' as [E|Hy']; [congruence|].
      apply Hanti; [left; reflexivity|right; exact Hy'|apply Hx, Hy'|apply Hy, Hx']. }
    subst y. f_equal. apply IH.
    + intros a b Ha Hb. apply Hanti; right; assumption.
    + apply StronglySorted_inv in Hs. apply Hs.
    + apply StronglySorted_inv in Hs'. apply Hs'.
    + eapply Permutation_cons_inv. exact Hp.
Qed.

(** With pairwise distinct start times the order of the listing does not
    matter: two listings of the same segment files are sorted into the same
    sequence, and so merged in the same order. *)
Lemma merge_order_independent_of_listing
  (data data' : list (Merging.SegmentInfo * Synth.SynthFile)) :
  Permutation data data' ->
  Forall (fun d => is_nan (Merging.start_time (fst d)) = false) data ->
  (forall a b, In a data -> In b data -> Spec.start_le a b -> Spec.start_le b a -> a = b) ->
  Merging.sort_segments data = Merging.sort_segments data'.
Proof.
  intros Hp Hgood Hanti.
  assert (P1 : Permutation (Merging.sort_segments data) data) by apply sorted_perm.
  assert (P2 : Permutation (Merging.sort_segments data') data') by apply sorted_perm.
  apply ordered_perm_unique.
  - intros a b Ha Hb. apply Hanti; [exact (Permutation_in _ P1 Ha)|exact (Permutation_in _ P1 Hb)].
  - apply sort_segments_ordered, Hgood.
  - apply sort_segments_ordered. exact (Permutation_Forall Hp Hgood).
  - eapply Permutation_trans; [exact P1|].
    eapply Permutation_trans; [exact Hp|]. apply Permutation_sym, P2.
Qed.

Lemma merge_order_independent_of_listing_witness :
  Merging.sort_segments Examples.listing_data
  = Merging.sort_segments (rev Examples.listing_data).
Proof.
  apply merge_order_independent_of_listing.
  - apply Permutation_rev.
  - repeat constructor.
  - unfold Spec.start_le, Examples.listing_data. intros a b Ha Hb Hab Hba.
    cbn [In] in Ha, Hb.
    repeat match goal with H : _ \/ _ |- _ => destruct H end;
      try contradiction; subst; try reflexivity;
      cbn in Hab, Hba; discriminate.
Defined.

Lemma bookmarks_set_In (l : list (num * str)) (k : num) (label : str) :
  exists beat, In (beat, label) (Synth.bookmarks_set l k label).
Proof.
  induction l as [|[k' v'] l IH]; cbn [Synth.bookmarks_set].
  - exists k. left. reflexivity.
  - destruct (num_eqb k' k).
    + exists k'. left. reflexivity.
    + destruct IH as [beat Hb]. exists beat. right. exact Hb.
Qed.

(** C10. For a segment file whose name decodes, the bookmark that the
    merger sets carries the label [<bpm> BPM || Time Signature <n>/4],
    where [n] is the numerator decoded from the name (group 4 of the
    pattern) whatever the decoded denominator is. *)
Theorem C10_bookmark_label :
  forall (filename : str) (info : Merging.SegmentInfo)
         (segment_file copy : Synth.SynthFile),
    Merging.parse_segment_filename filename = Ok info ->
    Merging.prepare_segment info segment_file = Ok copy ->
    exists n d beat numerator_str,
      Merging.time_signature info = Some {| numerator := n; denominator := d |}
      /\ int_of_str (Spec.group_of filename 4) = Ok n
      /\ str_of_int n = Ok numerator_str
      /\ In (beat, float_repr (Synth.bpm segment_file) +++ " BPM || Time Signature "
                   +++ numerator_str +++ "/4")
            (Synth.bookmarks copy).
Proof.
  intros filename info segment_file copy Hparse Hprep.
  destruct (parse_has_time_signature _ _ Hparse) as [n [d [Hn [_ Hts]]]].
  unfold Merging.prepare_segment in Hprep. rewrite Hts in Hprep.
  cbn [numerator] in Hprep. bind_inv Hprep.
  apply bind_Ok in Hprep. destruct Hprep as [numerator_str [Hstr Hprep]].
  rewrite str_of_four in Hprep. cbn [Py.bind] in Hprep.
  inversion Hprep; subst copy. clear Hprep.
  unfold Synth.set_bookmark. cbn [Synth.bookmarks].
  match goal with
  | |- context [Synth.bookmarks_set ?l ?k ?lbl] =>
      destruct (bookmarks_set_In l k lbl) as [beat Hin]
  end.
  exists n, d, beat, numerator_str.
  split; [exact Hts|]. split; [exact Hn|]. split; [exact Hstr|]. exact Hin.
Qed.

(** A name that encodes 6/8 is bookmarked as 6/4. *)
Lemma C10_bookmark_label_witness :
  exists info copy beat,
    Merging.parse_segment_filename Examples.six_eight_name = Ok info
    /\ Merging.time_signature info = Some {| numerator := 6; denominator := 8 |}
    /\ Merging.prepare_segment info Examples.beatmap = Ok copy
    /\ In (beat, "100.0 BPM || Time Signature 6/4") (Synth.bookmarks copy).
Proof.
  destruct (Merging.parse_segment_filename Examples.six_eight_name) as [info|e] eqn:Ep;
    [|vm_compute in Ep; discriminate Ep].
  destruct (Merging.prepare_segment info Examples.beatmap) as [copy|e] eqn:Ec.
  - destruct (C10_bookmark_label _ _ _ _ Ep Ec)
      as [n [d [beat [numerator_str [Hts [Hn [Hstr Hin]]]]]]].
    vm_compute in Hn. inversion Hn; subst n.
    vm_compute in Hstr. inversion Hstr; subst numerator_str.
    exists info, copy, beat. split; [reflexivity|].
    assert (Hd : d = 8).
    { vm_compute in Ep. inversion Ep; subst info. cbn in Hts. inversion Hts. reflexivity. }
    subst d. split; [exact Hts|]. split; [exact Ec|]. exact Hin.
  - vm_compute in Ep. inversion Ep; subst info. vm_compute in Ec. discriminate Ec.
Defined.

(** As [bind_inv], naming the value and the equation. *)
Ltac bind_as H a E := apply bind_Ok in H; destruct H as [a [E H]].

(* ================================================================== *)
(** * Further properties of the segmenter (audio.py) *)
(* ================================================================== *)

Lemma segments_loop_time_signatures (cm : ChangeMap) (audio_duration_ms : float) :
  forall (keys : list float) (last_bpm : float) (last_tempo : option num)
         (last_ts : option TimeSignature) (segs : list Segment),
    Audio.segments_loop cm keys audio_duration_ms last_bpm last_tempo last_ts = Ok segs ->
    Forall (fun s => seg_time_signature s <> None) segs.
Proof.
  induction keys as [|k rest IH]; intros lb lt lts segs H; cbn [Audio.segments_loop] in H.
  - inversion H. constructor.
  - destruct (dict_get cm k) as [events|]; [|discriminate].
    destruct (match ch_tempo events with
              | Some t => (tc_bpm t, Some (tc_tempo t))
              | None => (lb, lt)
              end) as [bpm tempo].
    destruct (match ch_time_signature events with
              | Some ts => Some ts
              | None => lts
              end) as [ts|] eqn:Ets; [|discriminate].
    bind_inv H. inversion H; subst. constructor; [cbn; discriminate|].
    eapply IH. exact E.
Qed.

(** The segmenter returns segments exactly when the entry at the first key
    carries a time signature: without one it raises [TypeError] (the log
    line subscripts [None]), with one it returns one segment per key, each
    with a time signature. *)
Theorem segmenter_succeeds_iff_opening_time_signature :
  forall (cm : ChangeMap) (audio_duration_ms initial_bpm : float)
         (k0 : float) (ks : list float) (c0 : Change),
    sorted PrimFloat.ltb (dict_keys cm) = k0 :: ks ->
    Forall (fun k => (k =? k)%float = true) (dict_keys cm) ->
    dict_get cm k0 = Some c0 ->
    (ch_time_signature c0 = None ->
     Audio.create_tempo_segments cm audio_duration_ms initial_bpm = Raise TypeError)
    /\ (ch_time_signature c0 <> None ->
        exists segs,
          Audio.create_tempo_segments cm audio_duration_ms initial_bpm = Ok segs
          /\ List.length segs = List.length cm
          /\ map start_ms segs = k0 :: ks
          /\ Forall (fun s => seg_time_signature s <> None) segs).
Proof.
  intros cm d bpm k0 ks c0 Hkeys Hnan Hc0. unfold Audio.create_tempo_segments.
  rewrite Hkeys. split.
  - intros Hts. cbn [Audio.segments_loop]. rewrite Hc0, Hts.
    destruct (ch_tempo c0); reflexivity.
  - intros Hts.
    destruct (ch_time_signature c0) as [ts0|] eqn:Ets; [clear Hts|congruence].
    destruct (segments_loop_ok cm d (k0 :: ks) bpm None None)
      as [segs [Hrun [Hs [He Hd]]]].
    + intros k Hin. apply dict_get_In.
      * rewrite <- Hkeys in Hin. apply sorted_In in Hin. exact Hin.
      * rewrite Forall_forall in Hnan. apply Hnan.
        rewrite <- Hkeys in Hin. apply sorted_In in Hin. exact Hin.
    + right. exists k0, ks, c0, ts0. auto.
    + exists segs. split; [exact Hrun|]. split; [|split; [exact Hs|]].
      * rewrite <- (length_map start_ms segs), Hs, <- Hkeys.
        rewrite (Permutation_length (sorted_perm PrimFloat.ltb (dict_keys cm))).
        unfold dict_keys. apply length_map.
      * eapply segments_loop_time_signatures. exact Hrun.
Qed.

Lemma segmenter_succeeds_iff_opening_time_signature_witness :
  Audio.create_tempo_segments Examples.tempo_only_map 10000 120 = Raise TypeError
  /\ exists segs,
       Audio.create_tempo_segments Examples.three_changes 10000 100 = Ok segs
       /\ List.length segs = 3%nat.
Proof.
  split.
  - refine (proj1 (segmenter_succeeds_iff_opening_time_signature
                     Examples.tempo_only_map 10000 120 0 [] _ _ _ _) _).
    + vm_compute. reflexivity.
    + repeat constructor.
    + reflexivity.
    + reflexivity.
  - destruct (proj2 (segmenter_succeeds_iff_opening_time_signature
                       Examples.three_changes 10000 100 0 [1000; 1800]%float
                       {| ch_tempo := Some {| tc_time_ms := 0; tc_bpm := 120;
                                              tc_tempo := Int 500000 |};
                          ch_time_signature := Some Examples.four_four |}
                       ltac:(vm_compute; reflexivity)
                       ltac:(repeat constructor)
                       eq_refl) ltac:(discriminate))
      as [segs [Hrun [Hlen _]]].
    exists segs. split; [exact Hrun|exact Hlen].
Defined.

(** What the loop hands from one turn to the next, seen from the segments:
    the values in force before segment [i] are the arguments of the loop for
    the first segment and the fields of segment [i - 1] after it. *)
Lemma segments_loop_inherits (cm : ChangeMap) (audio_duration_ms : float) :
  forall (keys : list float) (last_bpm : float) (last_tempo : option num)
         (last_ts : option TimeSignature) (segs : list Segment),
    Audio.segments_loop cm keys audio_duration_ms last_bpm last_tempo last_ts = Ok segs ->
    forall (i : nat) (k : float) (c : Change) (s : Segment),
      nth_error keys i = Some k -> dict_get cm k = Some c -> nth_error segs i = Some s ->
      exists before_bpm before_tempo before_ts,
        match i with
        | O => before_bpm = last_bpm /\ before_tempo = last_tempo /\ before_ts = last_ts
        | S j => exists p, nth_error segs j = Some p /\ before_bpm = seg_bpm p
                           /\ before_tempo = seg_tempo p
                           /\ before_ts = seg_time_signature p
        end
        /\ seg_bpm s = match ch_tempo c with Some t => tc_bpm t | None => before_bpm end
        /\ seg_tempo s = match ch_tempo c with
                         | Some t => Some (tc_tempo t)
                         | None => before_tempo
                         end
        /\ seg_time_signature s = match ch_time_signature c with
                                  | Some ts => Some ts
                                  | None => before_ts
                                  end.
Proof.
  induction keys as [|k0 rest IH]; intros lb lt lts segs H i k c s Hk Hc Hs.
  - destruct i; discriminate.
  - cbn [Audio.segments_loop] in H.
    destruct (dict_get cm k0) as [events|] eqn:Ek0; [|discriminate].
    destruct (match ch_tempo events with
              | Some t => (tc_bpm t, Some (tc_tempo t))
              | None => (lb, lt)
              end) as [bpm tempo] eqn:Etempo.
    destruct (match ch_time_signature events with
              | Some ts => Some ts
              | None => lts
              end) as [ts|] eqn:Ets; [|discriminate].
    bind_inv H. rename v into more. inversion H; subst segs. clear H.
    destruct i as [|i].
    + cbn [nth_error] in Hk, Hs. inversion Hk; subst k0. inversion Hs; subst s.
      rewrite Ek0 in Hc. inversion Hc; subst events.
      exists lb, lt, lts. cbn [seg_bpm seg_tempo seg_time_signature].
      split; [auto|].
      destruct (ch_tempo c); inversion Etempo; subst;
        destruct (ch_time_signature c); inversion Ets; subst; auto.
    + cbn [nth_error] in Hk, Hs.
      destruct (IH _ _ _ _ E i k c s Hk Hc Hs)
        as [bb [bt [bts [Hbefore Hfields]]]].
      exists bb, bt, bts. split; [|exact Hfields].
      destruct i as [|i].
      * destruct Hbefore as [Hb [Ht Hts]]. eexists. split; [reflexivity|].
        cbn [seg_bpm seg_tempo seg_time_signature]. auto.
      * exact Hbefore.
Qed.

(** A segment takes the tempo and the time signature of its own entry, and
    what its entry lacks from the segment before it; the first segment
    takes a missing tempo from the base BPM (its [tempo] is then [None]). *)
Theorem segments_inherit_from_the_previous :
  forall (cm : ChangeMap) (audio_duration_ms initial_bpm : float)
         (segs : list Segment) (i : nat) (k : float) (c : Change) (s : Segment),
    Audio.create_tempo_segments cm audio_duration_ms initial_bpm = Ok segs ->
    nth_error (sorted PrimFloat.ltb (dict_keys cm)) i = Some k ->
    dict_get cm k = Some c ->
    nth_error segs i = Some s ->
    (forall t, ch_tempo c = Some t ->
               seg_bpm s = tc_bpm t /\ seg_tempo s = Some (tc_tempo t))
    /\ (forall ts, ch_time_signature c = Some ts -> seg_time_signature s = Some ts)
    /\ (ch_tempo c = None ->
        match i with
        | O => seg_bpm s = initial_bpm /\ seg_tempo s = None
        | S j => exists p, nth_error segs j = Some p
                           /\ seg_bpm s = seg_bpm p /\ seg_tempo s = seg_tempo p
        end)
    /\ (ch_time_signature c = None ->
        exists j p, i = S j /\ nth_error segs j = Some p
                    /\ seg_time_signature s = seg_time_signature p).
Proof.
  intros cm d bpm segs i k c s Hrun Hk Hc Hs.
  unfold Audio.create_tempo_segments in Hrun.
  destruct (segments_loop_inherits _ _ _ _ _ _ _ Hrun i k c s Hk Hc Hs)
    as [bb [bt [bts [Hbefore [Hb [Ht Hts]]]]]].
  split; [|split; [|split]].
  - intros t Et. rewrite Et in Hb, Ht. auto.
  - intros ts Ets. rewrite Ets in Hts. exact Hts.
  - intros Et. rewrite Et in Hb, Ht. destruct i as [|j].
    + destruct Hbefore as [E1 [E2 _]]. subst. auto.
    + destruct Hbefore as [p [Hp [E1 [E2 _]]]]. exists p. subst. auto.
  - intros Ets. rewrite Ets in Hts. destruct i as [|j].
    + destruct Hbefore as [_ [_ E3]]. subst bts.
      pose proof (segments_loop_time_signatures _ _ _ _ _ _ _ Hrun) as Hall.
      rewrite Forall_forall in Hall. apply nth_error_In in Hs.
      exfalso. apply (Hall s Hs). exact Hts.
    + destruct Hbefore as [p [Hp [_ [_ E3]]]]. exists j, p. subst. auto.
Qed.

Lemma segments_inherit_from_the_previous_witness :
  exists segs p s,
    Audio.create_tempo_segments Examples.three_changes 10000 100 = Ok segs
    /\ nth_error segs 1 = Some p /\ nth_error segs 2 = Some s
    /\ seg_bpm s = seg_bpm p
    /\ seg_time_signature s = Some {| numerator := 3; denominator := 4 |}.
Proof.
  destruct (Audio.create_tempo_segments Examples.three_changes 10000 100)
    as [segs|e] eqn:Hrun; [|vm_compute in Hrun; discriminate Hrun].
  destruct (nth_error segs 2) as [s|] eqn:Hs;
    [|vm_compute in Hrun; inversion Hrun; subst segs; discriminate Hs].
  destruct (segments_inherit_from_the_previous
              Examples.three_changes 10000 100 segs 2 1800
              {| ch_tempo := None;
                 ch_time_signature := Some {| numerator := 3; denominator := 4 |} |}
              s Hrun ltac:(vm_compute; reflexivity) eq_refl Hs)
    as [_ [Hts [Hbpm _]]].
  destruct (Hbpm eq_refl) as [p [Hp [Hb _]]].
  exists segs, p, s. split; [reflexivity|]. split; [exact Hp|].
  split; [exact Hs|]. split; [exact Hb|]. apply Hts. reflexivity.
Defined.

(* ================================================================== *)
(** * Further properties of the tick-time converter (midi.py) *)
(* ================================================================== *)

Lemma walk_ignores_later_events (target_ticks ticks_per_beat : Z)
  (later : list Midi.TempoEvent) :
  match later with
  | [] => True
  | e :: _ => target_ticks <= Midi.time_ticks e
  end ->
  forall (earlier : list Midi.TempoEvent) (time : float) (tempo : num) (last : Z),
    Forall (fun e => Midi.time_ticks e < target_ticks) earlier ->
    Midi.walk_tempo_events target_ticks ticks_per_beat (earlier ++ later) time tempo last
    = Midi.walk_tempo_events target_ticks ticks_per_beat earlier time tempo last.
Proof.
  intros Hlater. induction earlier as [|e earlier IH]; intros time tempo last Hearlier.
  - cbn [app Midi.walk_tempo_events]. destruct later as [|e later]; [reflexivity|].
    cbn [Midi.walk_tempo_events].
    replace (target_ticks <=? Midi.time_ticks e) with true
      by (symmetry; apply Z.leb_le; exact Hlater).
    reflexivity.
  - apply Forall_cons_iff in Hearlier. destruct Hearlier as [He Hearlier].
    cbn [app Midi.walk_tempo_events].
    replace (target_ticks <=? Midi.time_ticks e) with false
      by (symmetry; apply Z.leb_gt; exact He).
    destruct (if last <? Midi.time_ticks e
              then Py.bind (Midi.tick2second (Midi.time_ticks e - last) ticks_per_beat tempo)
                     (fun s => Ok (time + s)%float)
              else Ok time) as [time'|err]; cbn [Py.bind]; [|reflexivity].
    apply IH. exact Hearlier.
Qed.

(** The time of a tick depends only on the tempo events before it: events
    at or after the target tick change nothing, whatever they are once the
    first of them is at or after the target. *)
Theorem later_tempo_events_do_not_matter :
  forall (target_ticks ticks_per_beat initial_tempo : Z)
         (earlier later : list Midi.TempoEvent),
    Forall (fun e => Midi.time_ticks e < target_ticks) earlier ->
    match later with
    | [] => True
    | e :: _ => target_ticks <= Midi.time_ticks e
    end ->
    Midi.calculate_time_from_ticks target_ticks ticks_per_beat (earlier ++ later)
      initial_tempo
    = Midi.calculate_time_from_ticks target_ticks ticks_per_beat earlier initial_tempo.
Proof.
  intros t ppb T0 earlier later Hearlier Hlater.
  unfold Midi.calculate_time_from_ticks.
  destruct (t =? 0); [reflexivity|].
  apply walk_ignores_later_events; assumption.
Qed.

Lemma later_tempo_events_do_not_matter_witness :
  Midi.calculate_time_from_ticks 960 480
    [ {| Midi.time_ticks := 480; Midi.tempo := 250000; Midi.track := 0 |};
      {| Midi.time_ticks := 960; Midi.tempo := 1000000; Midi.track := 0 |};
      {| Midi.time_ticks := 100; Midi.tempo := 1; Midi.track := 1 |} ] 500000
  = Ok 0.75%float.
Proof.
  refine (eq_trans
            (later_tempo_events_do_not_matter 960 480 500000
               [ {| Midi.time_ticks := 480; Midi.tempo := 250000; Midi.track := 0 |} ]
               [ {| Midi.time_ticks := 960; Midi.tempo := 1000000; Midi.track := 0 |};
                 {| Midi.time_ticks := 100; Midi.tempo := 1; Midi.track := 1 |} ]
               _ _) _).
  - repeat constructor.
  - cbn. lia.
  - vm_compute. reflexivity.
Defined.

(* ================================================================== *)
(** * Further properties of the timeline builder (midi.py) *)
(* ================================================================== *)

Section DictForall.
Context {V : Type}.
Variable P : float -> V -> Prop.

(** Writing under a key keeps a property of all entries, when the new value
    has it under the key it lands on: an old key that equals the new one,
    or the new key itself. *)
Lemma dict_set_Forall (d : dict V) (key : float) (f : option V -> V) :
  Forall (fun kv => P (fst kv) (snd kv)) d ->
  (forall k v, P k v -> (k =? key)%float = true -> P k (f (Some v))) ->
  P key (f None) ->
  Forall (fun kv => P (fst kv) (snd kv)) (dict_set d key (f (dict_get d key))).
Proof.
  intros Hd Hold Hnew.
  induction d as [|[k' v'] d IH]; cbn [dict_get dict_set].
  - constructor; [exact Hnew|constructor].
  - apply Forall_cons_iff in Hd. destruct Hd as [Hk Hd]. cbn [fst snd] in Hk.
    destruct (k' =? key)%float eqn:E.
    + constructor; [cbn [fst snd]; apply Hold; assumption|exact Hd].
    + constructor; [exact Hk|apply IH; exact Hd].
Qed.

Lemma dict_get_Some_In (d : dict V) (k : float) (v : V) :
  dict_get d k = Some v -> exists k', In (k', v) d.
Proof.
  induction d as [|[k' v'] d IH]; cbn [dict_get]; intros H; [discriminate|].
  destruct (k' =? k)%float.
  - inversion H; subst. exists k'. left. reflexivity.
  - destruct (IH H) as [k'' Hin]. exists k''. right. exact Hin.
Qed.

End DictForall.

Lemma set_tempo_at_as_built (d : ChangeMap) (now_ms : float) (tempo : num) (b : float) :
  Midi.tempo2bpm tempo = Ok b ->
  Forall (fun kc => Spec.entry_as_built (fst kc) (snd kc)) d ->
  Forall (fun kc => Spec.entry_as_built (fst kc) (snd kc))
    (Midi.set_tempo_at d (py_round now_ms 3)
       {| tc_time_ms := now_ms; tc_bpm := py_round b 2; tc_tempo := tempo |}).
Proof.
  intros Hb Hd. unfold Midi.set_tempo_at.
  apply (dict_set_Forall Spec.entry_as_built d (py_round now_ms 3)
           (fun o => {| ch_tempo := Some {| tc_time_ms := now_ms; tc_bpm := py_round b 2;
                                            tc_tempo := tempo |};
                        ch_time_signature :=
                          ch_time_signature
                            match o with Some c => c | None => Midi.empty_change end |}));
    [exact Hd| |].
  - intros k v _ Hk. split; [left; discriminate|].
    intros t Ht. cbn in Ht. inversion Ht; subst t. cbn. split; [eauto|right; exact Hk].
  - split; [left; discriminate|].
    intros t Ht. cbn in Ht. inversion Ht; subst t. cbn. split; [eauto|left; reflexivity].
Qed.

Lemma set_time_signature_at_as_built (d : ChangeMap) (key : float) (ts : TimeSignature) :
  Forall (fun kc => Spec.entry_as_built (fst kc) (snd kc)) d ->
  Forall (fun kc => Spec.entry_as_built (fst kc) (snd kc))
    (Midi.set_time_signature_at d key ts).
Proof.
  intros Hd. unfold Midi.set_time_signature_at.
  apply (dict_set_Forall Spec.entry_as_built d key
           (fun o => {| ch_tempo :=
                          ch_tempo match o with Some c => c | None => Midi.empty_change end;
                        ch_time_signature := Some ts |}));
    [exact Hd| |].
  - intros k v [_ Hv] _. split; [right; discriminate|]. exact Hv.
  - split; [right; discriminate|]. intros t Ht. discriminate Ht.
Qed.

Lemma tempo_loop_run_as_built (tpb : Z) (events : list Midi.TempoEvent) :
  forall st st',
    Midi.tempo_loop_run tpb st events = Ok st' ->
    Forall (fun kc => Spec.entry_as_built (fst kc) (snd kc)) (Midi.time_changes st) ->
    Forall (fun kc => Spec.entry_as_built (fst kc) (snd kc)) (Midi.time_changes st').
Proof.
  induction events as [|ev events IH]; cbn [Midi.tempo_loop_run]; intros st st' H Hd.
  - inversion H; subst. exact Hd.
  - bind_inv H. apply (IH _ _ H). clear H IH.
    unfold Midi.tempo_loop_step in E. bind_inv E.
    destruct (negb (num_eqb (Midi.current_tempo st) (Int (Midi.tempo ev)))).
    + bind_inv E. inversion E; subst. cbn [Midi.time_changes].
      apply set_tempo_at_as_built; assumption.
    + inversion E; subst. exact Hd.
Qed.

Lemma time_sig_fold_as_built (changes : list Midi.TimeSigChange) :
  forall d,
    Forall (fun kc => Spec.entry_as_built (fst kc) (snd kc)) d ->
    Forall (fun kc => Spec.entry_as_built (fst kc) (snd kc))
      (fold_left Midi.time_sig_step changes d).
Proof.
  induction changes as [|c changes IH]; cbn [fold_left]; intros d Hd; [exact Hd|].
  apply IH. apply set_time_signature_at_as_built, Hd.
Qed.

(** Every entry of the timeline the builder returns carries a tempo or a
    time signature; the BPM of a tempo is its microseconds per beat
    converted to beats per minute and rounded to 2 decimals, and it stands
    under the key that is its time rounded to 3 decimals. *)
Theorem timeline_entries_as_built :
  forall (midi_file : Midi.MidiFile) (bpm : float),
    Forall (fun kc => Spec.entry_as_built (fst kc) (snd kc))
      (Midi.extract_tempo_and_time_signature_changes midi_file bpm).
Proof.
  intros midi_file bpm. unfold Midi.extract_tempo_and_time_signature_changes.
  destruct (Midi.extract_body midi_file bpm) as [cm|e] eqn:Hbody; [|constructor].
  unfold Midi.extract_body in Hbody.
  bind_inv Hbody. rename v into base.
  bind_inv Hbody. rename v into initial.
  bind_inv Hbody. rename v into st.
  bind_inv Hbody. bind_inv Hbody. inversion Hbody; subst cm.
  apply time_sig_fold_as_built.
  apply (tempo_loop_run_as_built _ _ _ _ E1). cbn [Midi.time_changes].
  destruct (match Midi.extract_tempo_changes midi_file with
            | [] => true
            | first :: _ => 0 <? Midi.time_ticks first
            end).
  - bind_inv E0. inversion E0; subst initial.
    constructor; [|constructor]. cbn [fst snd]. split; [left; discriminate|].
    intros t Ht. cbn in Ht. inversion Ht; subst t. cbn.
    split; [eauto|left; reflexivity].
  - inversion E0; subst. constructor.
Qed.

(** When the first tempo event stands at tick 0 and its tempo is not the
    base tempo, key [0.0] of the timeline has a tempo: the event's own, or
    one written over it at the same time. *)
Theorem opening_tempo_event_sets_zero_key :
  forall (midi_file : Midi.MidiFile) (bpm base : float) (cm : ChangeMap)
         (first : Midi.TempoEvent) (rest : list Midi.TempoEvent),
    Midi.extract_body midi_file bpm = Ok cm ->
    Midi.extract_tempo_changes midi_file = first :: rest ->
    Midi.time_ticks first <= 0 ->
    py_div 60000000 bpm = Ok base ->
    num_eqb (Flt base) (Int (Midi.tempo first)) = false ->
    exists c t, dict_get cm 0 = Some c /\ ch_tempo c = Some t.
Proof.
  intros midi_file bpm base cm first rest Hbody Hev Htick Hbase Hne.
  unfold Midi.extract_body in Hbody. rewrite Hbase, Hev in Hbody. cbn [Py.bind] in Hbody.
  replace (0 <? Midi.time_ticks first) with false in Hbody
    by (symmetry; apply Z.ltb_ge; exact Htick).
  cbn [Py.bind] in Hbody.
  bind_as Hbody st Hrun. bind_as Hbody initial_tempo Hit.
  bind_as Hbody changes Hchanges. inversion Hbody; subst cm. clear Hbody.
  cbn [Midi.tempo_loop_run] in Hrun. bind_as Hrun st1 Hstep.
  assert (Hz : Spec.at_zero Spec.has_tempo
                 (fold_left Midi.time_sig_step changes (Midi.time_changes st))).
  { apply time_sig_fold_keeps_tempo. apply (tempo_loop_run_keeps _ _ _ _ Hrun).
    unfold Midi.tempo_loop_step in Hstep.
    cbn [Midi.last_time_ticks Midi.current_time_ms Midi.current_tempo
         Midi.time_changes] in Hstep.
    replace (0 <? Midi.time_ticks first) with false in Hstep
      by (symmetry; apply Z.ltb_ge; exact Htick).
    cbn [Py.bind] in Hstep. rewrite Hne in Hstep. cbn [negb] in Hstep.
    bind_as Hstep b Hb. inversion Hstep; subst st1. cbn [Midi.time_changes].
    rewrite round_zero. unfold Midi.set_tempo_at.
    apply (dict_set_zero Spec.has_tempo []
             (fun o => {| ch_tempo := Some {| tc_time_ms := 0; tc_bpm := py_round b 2;
                                              tc_tempo := Int (Midi.tempo first) |};
                          ch_time_signature :=
                            ch_time_signature
                              match o with Some c => c | None => Midi.empty_change end |})).
    intros o. eexists. reflexivity. }
  destruct Hz as [c [Hc [t Ht]]]. exists c, t. auto.
Qed.

Lemma opening_tempo_event_sets_zero_key_witness :
  exists c t,
    dict_get (Midi.extract_tempo_and_time_signature_changes
                Examples.midi_with_opening_tempo 120) 0 = Some c
    /\ ch_tempo c = Some t.
Proof.
  destruct (Midi.extract_body Examples.midi_with_opening_tempo 120) as [cm|e] eqn:Hbody;
    [|vm_compute in Hbody; discriminate Hbody].
  unfold Midi.extract_tempo_and_time_signature_changes. rewrite Hbody.
  refine (opening_tempo_event_sets_zero_key Examples.midi_with_opening_tempo 120 500000 cm
            {| Midi.time_ticks := 0; Midi.tempo := 400000; Midi.track := 0 |} []
            Hbody _ _ _ _).
  - vm_compute. reflexivity.
  - cbn. lia.
  - vm_compute. reflexivity.
  - vm_compute. reflexivity.
Defined.

(** ** A MIDI structure without time-signature messages *)

Lemma track_without_time_signature (tpb : Z) (events : list Midi.TempoEvent) (it n : Z) :
  forall (msgs : list Midi.Message) (t : Z),
    forallb (fun msg => negb (Spec.is_time_signature msg)) msgs = true ->
    Midi.track_time_sig_changes tpb events it n msgs t = Ok [].
Proof.
  induction msgs as [|msg msgs IH]; cbn [forallb Midi.track_time_sig_changes];
    intros t H; [reflexivity|].
  apply andb_prop in H. destruct H as [Hm H]. unfold Spec.is_time_signature in Hm.
  destruct (Midi.msg_type msg); [apply IH, H|discriminate Hm|apply IH, H].
Qed.

Lemma tracks_without_time_signature (tpb : Z) (events : list Midi.TempoEvent) (it : Z) :
  forall (trs : list (list Midi.Message)) (n : Z),
    forallb (forallb (fun msg => negb (Spec.is_time_signature msg))) trs = true ->
    Midi.all_tracks_time_sig_changes tpb events it n trs = Ok [].
Proof.
  induction trs as [|tr trs IH]; cbn [forallb Midi.all_tracks_time_sig_changes];
    intros n H; [reflexivity|].
  apply andb_prop in H. destruct H as [Htr H].
  rewrite (track_without_time_signature _ _ _ _ _ _ Htr). cbn [Py.bind].
  rewrite (IH _ H). reflexivity.
Qed.

Lemma tempo_loop_run_no_time_signature (tpb : Z) (events : list Midi.TempoEvent) :
  forall st st',
    Midi.tempo_loop_run tpb st events = Ok st' ->
    Forall (fun kc => ch_time_signature (snd kc) = None) (Midi.time_changes st) ->
    Forall (fun kc => ch_time_signature (snd kc) = None) (Midi.time_changes st').
Proof.
  induction events as [|ev events IH]; cbn [Midi.tempo_loop_run]; intros st st' H Hd.
  - inversion H; subst. exact Hd.
  - bind_as H st1 Hstep. apply (IH _ _ H). clear H IH.
    unfold Midi.tempo_loop_step in Hstep. bind_as Hstep now_ms Hnow.
    destruct (negb (num_eqb (Midi.current_tempo st) (Int (Midi.tempo ev)))).
    + bind_as Hstep b Hb. inversion Hstep; subst. cbn [Midi.time_changes].
      unfold Midi.set_tempo_at.
      apply (dict_set_Forall (fun _ c => ch_time_signature c = None)
               (Midi.time_changes st) (py_round now_ms 3)
               (fun o => {| ch_tempo := Some {| tc_time_ms := now_ms;
                                                tc_bpm := py_round b 2;
                                                tc_tempo := Int (Midi.tempo ev) |};
                            ch_time_signature :=
                              ch_time_signature
                                match o with Some c => c | None => Midi.empty_change end |}));
        [exact Hd| |reflexivity].
      intros k v Hv _. exact Hv.
    + inversion Hstep; subst. exact Hd.
Qed.

(** The timeline of a MIDI structure without time-signature messages has
    no time signature in any entry. *)
Lemma timeline_without_time_signature (midi_file : Midi.MidiFile) (bpm : float) :
  Spec.no_time_signature_message midi_file = true ->
  Forall (fun kc => ch_time_signature (snd kc) = None)
    (Midi.extract_tempo_and_time_signature_changes midi_file bpm).
Proof.
  intros Hno. unfold Midi.extract_tempo_and_time_signature_changes.
  destruct (Midi.extract_body midi_file bpm) as [cm|e] eqn:Hbody; [|constructor].
  unfold Midi.extract_body in Hbody.
  bind_as Hbody base Hbase. bind_as Hbody initial Hinitial.
  bind_as Hbody st Hrun. bind_as Hbody it Hit. bind_as Hbody changes Hchanges.
  inversion Hbody; subst cm. clear Hbody.
  unfold Midi.extract_time_signature_changes in Hchanges.
  rewrite (tracks_without_time_signature _ _ _ _ _ Hno) in Hchanges.
  cbn in Hchanges. inversion Hchanges; subst changes. cbn [fold_left].
  apply (tempo_loop_run_no_time_signature _ _ _ _ Hrun). cbn [Midi.time_changes].
  destruct (match Midi.extract_tempo_changes midi_file with
            | [] => true
            | first :: _ => 0 <? Midi.time_ticks first
            end).
  - bind_as Hinitial b Hb. inversion Hinitial; subst initial.
    constructor; [reflexivity|constructor].
  - inversion Hinitial; subst. constructor.
Qed.

(** On a map without any time signature the segmenter raises, unless the
    map is empty. *)
Lemma segmenter_raises_without_time_signatures (cm : ChangeMap)
  (audio_duration_ms initial_bpm : float) :
  Forall (fun kc => ch_time_signature (snd kc) = None) cm ->
  cm <> [] ->
  exists e, Audio.create_tempo_segments cm audio_duration_ms initial_bpm = Raise e.
Proof.
  intros Hnone Hne. unfold Audio.create_tempo_segments.
  destruct (sorted PrimFloat.ltb (dict_keys cm)) as [|k0 ks] eqn:Hkeys.
  - exfalso. apply Hne.
    pose proof (Permutation_length (sorted_perm PrimFloat.ltb (dict_keys cm))) as Hl.
    rewrite Hkeys in Hl. unfold dict_keys in Hl. rewrite length_map in Hl.
    destruct cm; [reflexivity|discriminate Hl].
  - cbn [Audio.segments_loop].
    destruct (dict_get cm k0) as [c0|] eqn:Hc0; [|eauto].
    destruct (dict_get_Some_In _ _ _ Hc0) as [k' Hin].
    rewrite Forall_forall in Hnone. specialize (Hnone _ Hin). cbn [snd] in Hnone.
    rewrite Hnone. destruct (ch_tempo c0); eauto.
Qed.

(** A MIDI structure without time-signature messages cannot be segmented:
    no entry of its timeline has a time signature, and on the timeline the
    segmenter raises instead of returning segments (unless the timeline is
    empty). *)
Theorem midi_without_time_signature_is_not_segmented :
  forall (midi_file : Midi.MidiFile) (bpm audio_duration_ms initial_bpm : float),
    Spec.no_time_signature_message midi_file = true ->
    Forall (fun kc => ch_time_signature (snd kc) = None)
      (Midi.extract_tempo_and_time_signature_changes midi_file bpm)
    /\ (Midi.extract_tempo_and_time_signature_changes midi_file bpm <> [] ->
        exists e,
          Audio.create_tempo_segments
            (Midi.extract_tempo_and_time_signature_changes midi_file bpm)
            audio_duration_ms initial_bpm = Raise e).
Proof.
  intros midi_file bpm d ibpm Hno.
  pose proof (timeline_without_time_signature midi_file bpm Hno) as Hnone.
  split; [exact Hnone|].
  intros Hne. apply segmenter_raises_without_time_signatures; assumption.
Qed.

Lemma midi_without_time_signature_is_not_segmented_witness :
  exists e,
    Audio.create_tempo_segments
      (Midi.extract_tempo_and_time_signature_changes
         Examples.midi_without_time_signature 120) 10000 120 = Raise e.
Proof.
  apply (proj2 (midi_without_time_signature_is_not_segmented
                  Examples.midi_without_time_signature 120 10000 120 eq_refl)).
  vm_compute. discriminate.
Defined.

(** ** The tempo that times the time signatures *)

Lemma py_int_of_float_eq_int (f : float) (z : Z) :
  float_eq_int f z = true -> py_int f = Ok z.
Proof.
  unfold float_eq_int, py_int.
  destruct (Prim2SF f) as [s|s| |s m e]; try discriminate.
  - intros H. apply Z.eqb_eq in H. subst. reflexivity.
  - assert (Hd : 0 < snd (frac_of m e)).
    { unfold frac_of. destruct e; cbn [snd]; try lia; apply Z.pow_pos_nonneg; lia. }
    destruct (frac_of m e) as [n d]. cbn [snd] in Hd.
    intros H. apply Z.eqb_eq in H. f_equal.
    destruct s.
    + assert (n = - z * d) by lia. subst n.
      rewrite Z.div_mul by lia. lia.
    + subst n. rewrite Z.div_mul by lia. reflexivity.
Qed.

Lemma tempo_loop_step_current (tpb : Z) (st st' : Midi.tempo_loop) (ev : Midi.TempoEvent) :
  Midi.tempo_loop_step tpb st ev = Ok st' ->
  num_eqb (Midi.current_tempo st') (Int (Midi.tempo ev)) = true.
Proof.
  unfold Midi.tempo_loop_step. intros H. bind_as H now_ms Hnow.
  destruct (num_eqb (Midi.current_tempo st) (Int (Midi.tempo ev))) eqn:E; cbn [negb] in H.
  - inversion H; subst. exact E.
  - bind_as H b Hb. inversion H; subst. cbn. apply Z.eqb_refl.
Qed.

Lemma last_cons_default {A : Type} (l : list A) :
  forall x d d', last (x :: l) d = last (x :: l) d'.
Proof.
  induction l as [|y l IH]; intros x d d'; [reflexivity|].
  change (last (x :: y :: l) d) with (last (y :: l) d).
  change (last (x :: y :: l) d') with (last (y :: l) d').
  apply IH.
Qed.

Lemma tempo_loop_run_current (tpb : Z) :
  forall (events : list Midi.TempoEvent) (ev : Midi.TempoEvent) (st st' : Midi.tempo_loop),
    Midi.tempo_loop_run tpb st (ev :: events) = Ok st' ->
    num_eqb (Midi.current_tempo st') (Int (Midi.tempo (last events ev))) = true.
Proof.
  induction events as [|ev' events IH]; intros ev st st' H.
  - cbn [Midi.tempo_loop_run] in H. bind_as H st1 Hstep. inversion H; subst st'.
    cbn [last]. eapply tempo_loop_step_current. exact Hstep.
  - cbn [Midi.tempo_loop_run] in H. bind_as H st1 Hstep.
    assert (E : last (ev' :: events) ev = last events ev').
    { destruct events as [|x l]; [reflexivity|].
      change (last (ev' :: x :: l) ev) with (last (x :: l) ev).
      apply last_cons_default. }
    rewrite E. apply (IH ev' st1 st'). cbn [Midi.tempo_loop_run]. exact H.
Qed.

Lemma num_int_of_eq (n : num) (z it : Z) :
  num_eqb n (Int z) = true -> num_int n = Ok it -> it = z.
Proof.
  destruct n as [x|f]; cbn [num_eqb num_int]; intros He Hi.
  - apply Z.eqb_eq in He. inversion Hi. congruence.
  - rewrite (py_int_of_float_eq_int _ _ He) in Hi. inversion Hi. reflexivity.
Qed.

(** A time-signature message at a tick before the first tempo event is
    timed by the initial tempo alone. *)
Lemma track_time_sig_before_first_tempo (tpb it n tick : Z)
  (first : Midi.TempoEvent) (rest : list Midi.TempoEvent) :
  0 < tick <= Midi.time_ticks first ->
  forall (msgs : list Midi.Message) (t : Z) (l : list Midi.TimeSigChange),
    Spec.track_has_time_signature_at tick msgs t = true ->
    Midi.track_time_sig_changes tpb (first :: rest) it n msgs t = Ok l ->
    exists c s, In c l /\ Midi.tick2second tick tpb (Int it) = Ok s
                /\ Midi.ts_time_ms c = ((0 + s) * 1000)%float.
Proof.
  intros Htick.
  induction msgs as [|msg msgs IH];
    cbn [Spec.track_has_time_signature_at Midi.track_time_sig_changes];
    intros t l Hz Hl; [discriminate|].
  destruct (Midi.msg_type msg) as [tp|nu de cl n32|].
  - apply (IH _ _ Hz Hl).
  - bind_as Hl absolute_time Habs. bind_as Hl more Hmore. inversion Hl; subst l.
    apply orb_prop in Hz. destruct Hz as [Hz|Hz].
    + apply Z.eqb_eq in Hz. rewrite Hz in Habs.
      unfold Midi.calculate_time_from_ticks in Habs.
      replace (tick =? 0) with false in Habs by (symmetry; apply Z.eqb_neq; lia).
      cbn [Midi.walk_tempo_events] in Habs.
      replace (tick <=? Midi.time_ticks first) with true in Habs
        by (symmetry; apply Z.leb_le; lia).
      unfold Midi.add_remaining in Habs.
      replace (0 <? tick - 0) with true in Habs by (symmetry; apply Z.ltb_lt; lia).
      rewrite Z.sub_0_r in Habs. bind_as Habs s Hs. inversion Habs; subst absolute_time.
      eexists. exists s. split; [left; reflexivity|]. split; [exact Hs|reflexivity].
    + destruct (IH _ _ Hz Hmore) as [c [s [Hin Hc]]].
      exists c, s. split; [right; exact Hin|exact Hc].
  - apply (IH _ _ Hz Hl).
Qed.

Lemma all_tracks_time_sig_before_first_tempo (tpb it tick : Z)
  (first : Midi.TempoEvent) (rest : list Midi.TempoEvent) :
  0 < tick <= Midi.time_ticks first ->
  forall (trs : list (list Midi.Message)) (n : Z) (l : list Midi.TimeSigChange),
    existsb (fun tr => Spec.track_has_time_signature_at tick tr 0) trs = true ->
    Midi.all_tracks_time_sig_changes tpb (first :: rest) it n trs = Ok l ->
    exists c s, In c l /\ Midi.tick2second tick tpb (Int it) = Ok s
                /\ Midi.ts_time_ms c = ((0 + s) * 1000)%float.
Proof.
  intros Htick.
  induction trs as [|tr trs IH]; cbn [existsb Midi.all_tracks_time_sig_changes];
    intros n l Hz Hl; [discriminate|].
  bind_as Hl here Hhere. bind_as Hl more Hmore. inversion Hl; subst l.
  apply orb_prop in Hz. destruct Hz as [Hz|Hz].
  - destruct (track_time_sig_before_first_tempo _ _ _ _ _ _ Htick _ _ _ Hz Hhere)
      as [c [s [Hin Hc]]].
    exists c, s. split; [apply in_or_app; left; exact Hin|exact Hc].
  - destruct (IH _ _ Hz Hmore) as [c [s [Hin Hc]]].
    exists c, s. split; [apply in_or_app; right; exact Hin|exact Hc].
Qed.

Lemma dict_set_under {V : Type} (d : dict V) (key : float) (v : V) :
  exists k, In (k, v) (dict_set d key v) /\ (k = key \/ (k =? key)%float = true).
Proof.
  induction d as [|[k' v'] d IH]; cbn [dict_set].
  - exists key. split; [left; reflexivity|left; reflexivity].
  - destruct (k' =? key)%float eqn:E.
    + exists k'. split; [left; reflexivity|right; exact E].
    + destruct IH as [k [Hin Hk]]. exists k. split; [right; exact Hin|exact Hk].
Qed.

Lemma dict_set_In_kept {V : Type} (d : dict V) (key : float) (v : V) (k : float) (c : V) :
  In (k, c) d -> In (k, c) (dict_set d key v) \/ In (k, v) (dict_set d key v).
Proof.
  induction d as [|[k' v'] d IH]; cbn [dict_set]; intros Hin; [contradiction|].
  destruct Hin as [Heq|Hin].
  - inversion Heq; subst. destruct (k =? key)%float.
    + right. left. reflexivity.
    + left. left. reflexivity.
  - destruct (k' =? key)%float.
    + left. right. exact Hin.
    + destruct (IH Hin) as [H|H]; [left|right]; right; exact H.
Qed.

Lemma time_sig_step_keeps_under (key : float) (d : ChangeMap) (c : Midi.TimeSigChange) :
  Spec.time_signature_under key d ->
  Spec.time_signature_under key (Midi.time_sig_step d c).
Proof.
  intros [k [e [Hin [Hk Hts]]]]. unfold Midi.time_sig_step, Midi.set_time_signature_at.
  match goal with
  | |- Spec.time_signature_under _ (dict_set ?d ?key' ?v) =>
      destruct (dict_set_In_kept d key' v k e Hin) as [H|H]
  end.
  - exists k, e. auto.
  - eexists k, _. split; [exact H|]. split; [exact Hk|]. cbn. discriminate.
Qed.

Lemma time_sig_fold_under (changes : list Midi.TimeSigChange) :
  forall (d : ChangeMap) (c : Midi.TimeSigChange),
    In c changes ->
    Spec.time_signature_under (py_round (Midi.ts_time_ms c) 3)
      (fold_left Midi.time_sig_step changes d).
Proof.
  assert (Hkeep : forall changes key d,
             Spec.time_signature_under key d ->
             Spec.time_signature_under key (fold_left Midi.time_sig_step changes d)).
  { clear. induction changes as [|c changes IH]; cbn [fold_left]; intros key d H;
      [exact H|]. apply IH. apply time_sig_step_keeps_under, H. }
  induction changes as [|c' changes IH]; cbn [fold_left]; intros d c Hin; [contradiction|].
  destruct Hin as [Heq|Hin].
  - subst c'. apply Hkeep. unfold Midi.time_sig_step, Midi.set_time_signature_at.
    match goal with
    | |- Spec.time_signature_under _ (dict_set ?d ?key' ?v) =>
        destruct (dict_set_under d key' v) as [k [Hin Hk]]
    end.
    eexists k, _. split; [exact Hin|]. split; [exact Hk|]. cbn. discriminate.
  - apply IH. exact Hin.
Qed.

(** The converter that times the time signatures is given, as its initial
    tempo, the tempo of the last tempo event of the file.  So a time
    signature that stands before the first tempo event, at tick [tick], is
    keyed at the time [tick] ticks take at that last tempo: under
    [round(tick2second(tick, ticks_per_beat, last tempo) * 1000, 3)]. *)
Theorem time_signature_before_first_tempo_is_timed_by_last_tempo :
  forall (midi_file : Midi.MidiFile) (bpm : float) (cm : ChangeMap)
         (first : Midi.TempoEvent) (rest : list Midi.TempoEvent) (tick : Z),
    Midi.extract_body midi_file bpm = Ok cm ->
    Midi.extract_tempo_changes midi_file = first :: rest ->
    0 < tick <= Midi.time_ticks first ->
    Spec.time_signature_at_tick midi_file tick = true ->
    exists s,
      Midi.tick2second tick (Midi.ticks_per_beat midi_file)
        (Int (Midi.tempo (last rest first))) = Ok s
      /\ Spec.time_signature_under (py_round ((0 + s) * 1000) 3) cm.
Proof.
  intros midi_file bpm cm first rest tick Hbody Hev Htick Hat.
  unfold Midi.extract_body in Hbody. rewrite Hev in Hbody.
  bind_as Hbody base Hbase. bind_as Hbody initial Hinitial.
  bind_as Hbody st Hrun. bind_as Hbody it Hit. bind_as Hbody changes Hchanges.
  inversion Hbody; subst cm. clear Hbody.
  pose proof (tempo_loop_run_current _ _ _ _ _ Hrun) as Hcur.
  pose proof (num_int_of_eq _ _ _ Hcur Hit) as Eit. subst it.
  unfold Midi.extract_time_signature_changes in Hchanges.
  bind_as Hchanges collected Hcollected. inversion Hchanges; subst changes.
  destruct (all_tracks_time_sig_before_first_tempo _ _ _ _ _ Htick _ _ _ Hat Hcollected)
    as [c [s [Hin [Hs Hms]]]].
  exists s. split; [exact Hs|]. rewrite <- Hms.
  apply time_sig_fold_under. apply sorted_In. exact Hin.
Qed.

(** One beat at the base tempo of 120 BPM takes 500 ms; the time signature
    one beat in is keyed at 400 ms, one beat at the later 150 BPM. *)
Lemma time_signature_before_first_tempo_is_timed_by_last_tempo_witness :
  Spec.time_signature_under 400
    (Midi.extract_tempo_and_time_signature_changes Examples.midi_with_late_tempo 120).
Proof.
  destruct (Midi.extract_body Examples.midi_with_late_tempo 120) as [cm|e] eqn:Hbody;
    [|vm_compute in Hbody; discriminate Hbody].
  unfold Midi.extract_tempo_and_time_signature_changes. rewrite Hbody.
  destruct (time_signature_before_first_tempo_is_timed_by_last_tempo
              Examples.midi_with_late_tempo 120 cm
              {| Midi.time_ticks := 960; Midi.tempo := 400000; Midi.track := 0 |} [] 480
              Hbody ltac:(vm_compute; reflexivity) ltac:(cbn; lia) eq_refl)
    as [s [Hs Hunder]].
  vm_compute in Hs. inversion Hs; subst s. exact Hunder.
Defined.

(* ================================================================== *)
(** * What key 0.0 of the timeline resolves to (midi.py) *)
(* ================================================================== *)

Section FloatEquality.
Local Open Scope float_scope.

Lemma SFcompare_Eq_key (x y : spec_float) :
  SFcompare x y = Some Eq ->
  x <> S754_nan /\ y <> S754_nan /\ Spec.sf_key x = Spec.sf_key y.
Proof.
  destruct x as [s1|s1| |s1 m1 e1], y as [s2|s2| |s2 m2 e2]; simpl;
    try discriminate;
    try (destruct s1; discriminate); try (destruct s2; discriminate);
    try (destruct s1, s2; try discriminate; intros _;
         repeat split; congruence).
  destruct s1, s2; try discriminate;
    destruct (Z.compare_spec e1 e2) as [E|E|E]; try discriminate;
    change (Pos.compare_cont Eq m1 m2) with (Pos.compare m1 m2);
    destruct (Pos.compare_spec m1 m2) as [M|M|M]; try discriminate;
    intros _; subst; repeat split; congruence.
Qed.

Lemma SFcompare_key_Eq (x y : spec_float) :
  x <> S754_nan -> y <> S754_nan -> Spec.sf_key x = Spec.sf_key y ->
  SFcompare x y = Some Eq.
Proof.
  intros Hx Hy.
  destruct x as [s1|s1| |s1 m1 e1], y as [s2|s2| |s2 m2 e2]; simpl;
    try congruence;
    try (destruct s1; discriminate); try (destruct s2; discriminate);
    try (destruct s1, s2; simpl; congruence).
  destruct s1, s2; simpl; try discriminate; intros K; injection K as K1 K2;
    assert (E : e1 = e2) by lia; subst;
    rewrite Z.compare_refl, Pos.compare_cont_refl; reflexivity.
Qed.

Lemma float_eqb_key (x y : float) :
  (x =? y) = true <->
  (Prim2SF x <> S754_nan /\ Prim2SF y <> S754_nan
   /\ Spec.sf_key (Prim2SF x) = Spec.sf_key (Prim2SF y)).
Proof.
  rewrite eqb_spec. unfold SFeqb. split.
  - destruct (SFcompare (Prim2SF x) (Prim2SF y)) as [[ | | ]|] eqn:E; try discriminate.
    intros _. apply SFcompare_Eq_key, E.
  - intros [Hx [Hy K]]. rewrite (SFcompare_key_Eq _ _ Hx Hy K). reflexivity.
Qed.

Lemma float_eqb_sym (x y : float) : (x =? y) = (y =? x).
Proof.
  destruct (x =? y) eqn:E1, (y =? x) eqn:E2; try reflexivity.
  - apply float_eqb_key in E1. destruct E1 as [Hx [Hy K]].
    assert (H : (y =? x) = true) by (apply float_eqb_key; auto).
    congruence.
  - apply float_eqb_key in E2. destruct E2 as [Hy [Hx K]].
    assert (H : (x =? y) = true) by (apply float_eqb_key; auto).
    congruence.
Qed.

Lemma float_eqb_trans (x y z : float) :
  (x =? y) = true -> (y =? z) = true -> (x =? z) = true.
Proof.
  intros H1 H2. apply float_eqb_key in H1. apply float_eqb_key in H2.
  destruct H1 as [Hx [Hy K1]]. destruct H2 as [_ [Hz K2]].
  apply float_eqb_key. repeat split; congruence.
Qed.

(** Two keys that are equal compare alike with a third. *)
Lemma float_eqb_same (x y z : float) :
  (x =? y) = true -> (z =? x) = (z =? y).
Proof.
  intros H. destruct (z =? x) eqn:E1, (z =? y) eqn:E2; try reflexivity.
  - rewrite (float_eqb_trans _ _ _ E1 H) in E2. discriminate.
  - rewrite float_eqb_sym in H. rewrite (float_eqb_trans _ _ _ E2 H) in E1. discriminate.
Qed.

Lemma float_eqb_same_l (x y z : float) :
  (x =? y) = true -> (x =? z) = (y =? z).
Proof.
  intros H. rewrite (float_eqb_sym x z), (float_eqb_sym y z).
  apply float_eqb_same, H.
Qed.

End FloatEquality.

Section DictLookup.
Context {V : Type}.
Local Open Scope float_scope.

(** Looking a key up after a write: the written value under a key equal to
    the written one, the old value under any other. *)
Lemma dict_get_set (d : dict V) (key k : float) (v : V) :
  dict_get (dict_set d key v) k = if key =? k then Some v else dict_get d k.
Proof.
  induction d as [|[k' v'] d IH]; cbn [dict_set dict_get]; [reflexivity|].
  destruct (k' =? key) eqn:Ekey; cbn [dict_get].
  - rewrite (float_eqb_same_l _ _ k Ekey). destruct (key =? k); reflexivity.
  - rewrite IH. destruct (key =? k) eqn:Ek; [|reflexivity].
    rewrite <- (float_eqb_same _ _ k' Ek), Ekey. reflexivity.
Qed.

Lemma dict_get_same (d : dict V) (key k : float) :
  (key =? k) = true -> dict_get d key = dict_get d k.
Proof.
  intros H. induction d as [|[k' v'] d IH]; cbn [dict_get]; [reflexivity|].
  rewrite (float_eqb_same _ _ k' H), IH. reflexivity.
Qed.

End DictLookup.

Lemma set_tempo_at_zero_key (d : ChangeMap) (key : float) (t : TempoChange) :
  dict_get (Midi.set_tempo_at d key t) 0
  = if (key =? 0)%float
    then Some {| ch_tempo := Some t;
                 ch_time_signature :=
                   ch_time_signature
                     match dict_get d 0 with Some c => c | None => Midi.empty_change end |}
    else dict_get d 0.
Proof.
  unfold Midi.set_tempo_at. rewrite dict_get_set.
  destruct (key =? 0)%float eqn:E; [|reflexivity].
  rewrite (dict_get_same d key 0 E). reflexivity.
Qed.

Lemma set_time_signature_at_zero_key (d : ChangeMap) (key : float) (ts : TimeSignature) :
  dict_get (Midi.set_time_signature_at d key ts) 0
  = if (key =? 0)%float
    then Some {| ch_tempo :=
                   ch_tempo
                     match dict_get d 0 with Some c => c | None => Midi.empty_change end;
                 ch_time_signature := Some ts |}
    else dict_get d 0.
Proof.
  unfold Midi.set_time_signature_at. rewrite dict_get_set.
  destruct (key =? 0)%float eqn:E; [|reflexivity].
  rewrite (dict_get_same d key 0 E). reflexivity.
Qed.

Section ZeroKeyTempo.
Variable midi_file : Midi.MidiFile.
Variable bpm : float.

(** What the tempo at key [0.0] can be: the synthesized one, or the tempo
    of an event of the file that is keyed at [0.0]. *)
Let zero_tempo (c : Change) : Prop :=
  exists t, ch_tempo c = Some t
            /\ (Spec.synthesized_tempo bpm t
                \/ Spec.tempo_of_event_keyed_at_zero midi_file t).

Lemma tempo_loop_run_zero_tempo (tpb : Z) :
  forall (todo : list Midi.TempoEvent) (st st' : Midi.tempo_loop),
    (forall ev, In ev todo -> In ev (Midi.extract_tempo_changes midi_file)) ->
    Midi.tempo_loop_run tpb st todo = Ok st' ->
    Spec.at_zero zero_tempo (Midi.time_changes st) ->
    Spec.at_zero zero_tempo (Midi.time_changes st').
Proof.
  induction todo as [|ev todo IH]; cbn [Midi.tempo_loop_run]; intros st st' Hin H Hz.
  - inversion H; subst. exact Hz.
  - bind_as H st1 Hstep.
    apply (IH st1 st'); [intros e He; apply Hin; right; exact He|exact H|].
    clear IH H. unfold Midi.tempo_loop_step in Hstep. bind_as Hstep now_ms Hnow.
    destruct (negb (num_eqb (Midi.current_tempo st) (Int (Midi.tempo ev)))).
    + bind_as Hstep b Hb. inversion Hstep; subst st1. cbn [Midi.time_changes].
      unfold Spec.at_zero. rewrite set_tempo_at_zero_key.
      destruct (py_round now_ms 3 =? 0)%float eqn:Ekey; [|exact Hz].
      eexists. split; [reflexivity|]. eexists. split; [reflexivity|].
      right. exists ev. split; [apply Hin; left; reflexivity|].
      split; [reflexivity|exact Ekey].
    + inversion Hstep; subst st1. exact Hz.
Qed.

Lemma time_sig_fold_zero_tempo (changes : list Midi.TimeSigChange) :
  forall d, Spec.at_zero zero_tempo d ->
            Spec.at_zero zero_tempo (fold_left Midi.time_sig_step changes d).
Proof.
  induction changes as [|c changes IH]; cbn [fold_left]; intros d Hz; [exact Hz|].
  apply IH. unfold Midi.time_sig_step, Spec.at_zero.
  rewrite set_time_signature_at_zero_key.
  destruct (py_round (Midi.ts_time_ms c) 3 =? 0)%float; [|exact Hz].
  destruct Hz as [c0 [Hc0 Ht]]. rewrite Hc0.
  eexists. split; [reflexivity|]. exact Ht.
Qed.

End ZeroKeyTempo.

Lemma set_time_signature_at_zero_ts (d : ChangeMap) (key : float) (ts : TimeSignature) :
  Spec.at_zero Spec.has_time_signature (Midi.set_time_signature_at d key ts)
  <-> ((key =? 0)%float = true \/ Spec.at_zero Spec.has_time_signature d).
Proof.
  unfold Spec.at_zero. rewrite set_time_signature_at_zero_key.
  destruct (key =? 0)%float; split.
  - intros _. left. reflexivity.
  - intros _. eexists. split; [reflexivity|]. exists ts. reflexivity.
  - intros H. right. exact H.
  - intros [H|H]; [discriminate H|exact H].
Qed.

Lemma time_sig_fold_zero_ts (changes : list Midi.TimeSigChange) :
  forall d,
    Spec.at_zero Spec.has_time_signature (fold_left Midi.time_sig_step changes d)
    <-> (Spec.at_zero Spec.has_time_signature d
         \/ exists ch, In ch changes /\ Spec.keyed_at_zero (Midi.ts_time_ms ch)).
Proof.
  induction changes as [|c changes IH]; cbn [fold_left]; intros d.
  - split; [intros H; left; exact H|].
    intros [H|[ch [Hin _]]]; [exact H|contradiction].
  - rewrite IH. unfold Midi.time_sig_step at 1.
    rewrite set_time_signature_at_zero_ts. unfold Spec.keyed_at_zero. split.
    + intros [[H|H]|[ch [Hin Hch]]].
      * right. exists c. split; [left; reflexivity|exact H].
      * left. exact H.
      * right. exists ch. split; [right; exact Hin|exact Hch].
    + intros [H|[ch [[Heq|Hin] Hch]]].
      * left. right. exact H.
      * subst ch. left. left. exact Hch.
      * right. exists ch. split; [exact Hin|exact Hch].
Qed.

Lemma no_time_signature_at_zero (d : ChangeMap) :
  Forall (fun kc => ch_time_signature (snd kc) = None) d ->
  ~ Spec.at_zero Spec.has_time_signature d.
Proof.
  intros Hnone [c [Hc [ts Hts]]].
  destruct (dict_get_Some_In _ _ _ Hc) as [k Hin].
  rewrite Forall_forall in Hnone. specialize (Hnone _ Hin). cbn [snd] in Hnone.
  congruence.
Qed.

(** C5, as stated, fails: for a MIDI structure without time-signature
    messages the builder returns a map whose key [0.0] has the synthesized
    tempo and no time signature. *)
Lemma C5_counterexample_no_time_signature :
  Midi.extract_tempo_and_time_signature_changes Examples.midi_without_time_signature 120
  = [(0%float,
      {| ch_tempo := Some {| tc_time_ms := 0; tc_bpm := 120; tc_tempo := Flt 500000 |};
         ch_time_signature := None |});
     (1000%float,
      {| ch_tempo := Some {| tc_time_ms := 1000; tc_bpm := 150; tc_tempo := Int 400000 |};
         ch_time_signature := None |})]
  /\ ~ Spec.zero_key_defined
         (Midi.extract_tempo_and_time_signature_changes
            Examples.midi_without_time_signature 120).
Proof.
  assert (E : Midi.extract_tempo_and_time_signature_changes
                Examples.midi_without_time_signature 120
              = [(0%float,
                  {| ch_tempo := Some {| tc_time_ms := 0; tc_bpm := 120;
                                         tc_tempo := Flt 500000 |};
                     ch_time_signature := None |});
                 (1000%float,
                  {| ch_tempo := Some {| tc_time_ms := 1000; tc_bpm := 150;
                                         tc_tempo := Int 400000 |};
                     ch_time_signature := None |})])
    by (vm_compute; reflexivity).
  split; [exact E|].
  rewrite E. intros [c [t [ts [Hc [_ Hts]]]]].
  cbn in Hc. inversion Hc; subst. discriminate.
Qed.

(** C5, amended.  When the builder's [try] body raises nothing, the map it
    returns resolves key [0.0] as follows.

    - Tempo.  If the MIDI has no tempo message at tick 0, key [0.0] has a
      tempo: the one synthesized from the base BPM (time 0.0, tempo
      [60000000 / bpm], BPM [round(tempo2bpm(tempo), 2)]), unless a tempo
      event of the file whose time rounds to 0.000 ms was written over it,
      and then it is that event's tempo.
    - Time signature.  None is synthesized.  Key [0.0] has a time signature
      exactly when one of the changes that [extract_time_signature_changes]
      returns, for the tempo events of the file and the tempo the builder
      hands it, has a time whose key [round(time_ms, 3)] equals [0.0].  That
      is so whenever a time-signature message stands at tick 0, and never
      for a file without time-signature messages. *)
Theorem C5_zero_key_of_timeline :
  forall (midi_file : Midi.MidiFile) (bpm : float) (cm : ChangeMap),
    Midi.extract_body midi_file bpm = Ok cm ->
    Midi.extract_tempo_and_time_signature_changes midi_file bpm = cm
    /\ (Spec.no_tempo_event_at_tick_zero midi_file = true ->
        exists c t,
          dict_get cm 0 = Some c /\ ch_tempo c = Some t
          /\ (Spec.synthesized_tempo bpm t
              \/ Spec.tempo_of_event_keyed_at_zero midi_file t))
    /\ (exists (initial_tempo : Z) (changes : list Midi.TimeSigChange),
          Spec.timing_tempo midi_file bpm initial_tempo
          /\ Midi.extract_time_signature_changes midi_file
               (Midi.extract_tempo_changes midi_file) initial_tempo = Ok changes
          /\ (Spec.at_zero Spec.has_time_signature cm
              <-> exists ch, In ch changes /\ Spec.keyed_at_zero (Midi.ts_time_ms ch)))
    /\ (Spec.time_signature_at_tick_zero midi_file = true ->
        Spec.at_zero Spec.has_time_signature cm)
    /\ (Spec.no_time_signature_message midi_file = true ->
        ~ Spec.at_zero Spec.has_time_signature cm).
Proof.
  intros midi_file bpm cm Hbody.
  split; [unfold Midi.extract_tempo_and_time_signature_changes; rewrite Hbody; reflexivity|].
  unfold Midi.extract_body in Hbody.
  bind_as Hbody base Hbase. bind_as Hbody initial Hinitial.
  bind_as Hbody st Hrun. bind_as Hbody it Hit. bind_as Hbody changes Hchanges.
  inversion Hbody; subst cm. clear Hbody.
  (* no entry has a time signature when the loop over the tempo events ends *)
  assert (Hnone : Forall (fun kc => ch_time_signature (snd kc) = None)
                    (Midi.time_changes st)).
  { apply (tempo_loop_run_no_time_signature _ _ _ _ Hrun). cbn [Midi.time_changes].
    destruct (match Midi.extract_tempo_changes midi_file with
              | [] => true
              | first :: _ => 0 <? Midi.time_ticks first
              end).
    - bind_as Hinitial b Hb. inversion Hinitial; subst initial.
      constructor; [reflexivity|constructor].
    - inversion Hinitial; subst. constructor. }
  assert (Hiff : Spec.at_zero Spec.has_time_signature
                   (fold_left Midi.time_sig_step changes (Midi.time_changes st))
                 <-> exists ch, In ch changes /\ Spec.keyed_at_zero (Midi.ts_time_ms ch)).
  { rewrite time_sig_fold_zero_ts. split.
    - intros [H|H]; [exfalso; exact (no_time_signature_at_zero _ Hnone H)|exact H].
    - intros H. right. exact H. }
  split; [|split; [|split]].
  - (* the tempo *)
    intros Hno.
    assert (G : match Midi.extract_tempo_changes midi_file with
                | [] => true
                | first :: _ => 0 <? Midi.time_ticks first
                end = true).
    { destruct (Midi.extract_tempo_changes midi_file) as [|first rest] eqn:Ev;
        [reflexivity|].
      unfold Spec.no_tempo_event_at_tick_zero in Hno. rewrite forallb_forall in Hno.
      apply Hno. unfold Midi.extract_tempo_changes in Ev.
      apply (sorted_In (fun a b => Midi.time_ticks a <? Midi.time_ticks b)).
      rewrite Ev. left. reflexivity. }
    rewrite G in Hinitial. bind_as Hinitial b Hb. inversion Hinitial; subst initial.
    destruct (time_sig_fold_zero_tempo midi_file bpm changes (Midi.time_changes st))
      as [c [Hc [t [Ht Hwhich]]]].
    { apply (tempo_loop_run_zero_tempo midi_file bpm _ _ _ _ (fun ev H => H) Hrun).
      cbn [Midi.time_changes]. eexists. split; [reflexivity|].
      eexists. split; [reflexivity|]. left. exists base, b. auto. }
    exists c, t. auto.
  - (* the time signature *)
    exists it, changes. split; [|split; [exact Hchanges|exact Hiff]].
    unfold Spec.timing_tempo.
    destruct (Midi.extract_tempo_changes midi_file) as [|first rest] eqn:Ev.
    + cbn [Midi.tempo_loop_run] in Hrun. inversion Hrun; subst st.
      cbn [Midi.current_tempo num_int] in Hit. exists base. auto.
    + pose proof (tempo_loop_run_current _ _ _ _ _ Hrun) as Hcur.
      exact (num_int_of_eq _ _ _ Hcur Hit).
  - intros Hz. apply Hiff.
    unfold Midi.extract_time_signature_changes in Hchanges.
    bind_as Hchanges collected Hcollected. inversion Hchanges; subst changes.
    destruct (all_tracks_time_sig_at_zero _ _ _ _ _ _ Hz Hcollected) as [c [Hin Hc]].
    exists c. split; [apply sorted_In; exact Hin|].
    unfold Spec.keyed_at_zero. rewrite Hc. reflexivity.
  - intros Hno Hz. apply Hiff in Hz. destruct Hz as [ch [Hin _]].
    unfold Midi.extract_time_signature_changes in Hchanges.
    rewrite (tracks_without_time_signature _ _ _ _ _ Hno) in Hchanges.
    cbn in Hchanges. inversion Hchanges; subst changes. contradiction.
Qed.

(** A time signature at tick 1, in a file whose only tempo, 400
    microseconds per beat at 960 ticks per beat, makes one tick last less
    than half a microsecond: the file has no time signature at tick 0, and
    key [0.0] resolves to a tempo and a time signature. *)
Lemma C5_zero_key_of_timeline_witness :
  Spec.time_signature_at_tick_zero Examples.midi_with_early_time_signature = false
  /\ Spec.zero_key_defined
       (Midi.extract_tempo_and_time_signature_changes
          Examples.midi_with_early_time_signature 120).
Proof.
  split; [reflexivity|].
  destruct (Midi.extract_body Examples.midi_with_early_time_signature 120)
    as [cm|e] eqn:E; [|vm_compute in E; discriminate E].
  destruct (C5_zero_key_of_timeline Examples.midi_with_early_time_signature 120 cm E)
    as [Hcm [Htempo [[it [changes [Hit [Hchanges Hiff]]]] _]]].
  rewrite Hcm.
  destruct (Htempo eq_refl) as [c [t [Hc [Ht _]]]].
  assert (Hts : Spec.at_zero Spec.has_time_signature cm).
  { apply Hiff. unfold Spec.timing_tempo in Hit. vm_compute in Hit. subst it.
    vm_compute in Hchanges. inversion Hchanges; subst changes.
    eexists. split; [left; reflexivity|]. vm_compute. reflexivity. }
  destruct Hts as [c' [Hc' [ts Hts]]].
  rewrite Hc in Hc'. inversion Hc'; subst c'.
  exists c, t, ts. auto.
Defined.

(* ================================================================== *)
(** * Further properties of the merger (merging.py) *)
(* ================================================================== *)

Section MoreFloatOrder.
Local Open Scope float_scope.

Lemma float_eqb_leb (x y : float) : (x =? y) = true -> (x <=? y) = true /\ (y <=? x) = true.
Proof.
  rewrite eqb_spec, !leb_spec. unfold SFeqb, SFleb.
  rewrite (SFcompare_antisym (Prim2SF x) (Prim2SF y)).
  destruct (SFcompare (Prim2SF x) (Prim2SF y)) as [[ | | ]|]; cbn; try discriminate.
  split; reflexivity.
Qed.

Lemma float_ltb_not_leb (x y : float) : (x <? y) = true -> (y <=? x) = false.
Proof.
  rewrite ltb_spec, leb_spec. unfold SFltb, SFleb.
  rewrite (SFcompare_antisym (Prim2SF x) (Prim2SF y)).
  destruct (SFcompare (Prim2SF x) (Prim2SF y)) as [[ | | ]|]; cbn; try discriminate.
  reflexivity.
Qed.

(** Nothing at or above a key that is greater than [x] equals what [x]
    equals. *)
Lemma float_above_not_equal (x y z t : float) :
  (x =? t) = true -> (x <? y) = true -> (y <=? z) = true -> (z =? t) = false.
Proof.
  intros Hxt Hxy Hyz. destruct (z =? t) eqn:Hzt; [exfalso|reflexivity].
  destruct (float_eqb_leb _ _ Hxt) as [_ Htx].
  destruct (float_eqb_leb _ _ Hzt) as [Hzt' _].
  pose proof (float_leb_trans _ _ _ Hyz (float_leb_trans _ _ _ Hzt' Htx)) as Hyx.
  rewrite (float_ltb_not_leb _ _ Hxy) in Hyx. discriminate.
Qed.

End MoreFloatOrder.

Section Stable.
Local Open Scope float_scope.
Context {A : Type}.
Variable key : A -> float.
Variable t : float.

Let lt (x y : A) : bool := key x <? key y.
Let at_t (x : A) : bool := key x =? t.
Let le (x y : A) : Prop := (key x <=? key y) = true.
Let good (x : A) : Prop := is_nan (key x) = false.

Lemma le_trans_key : forall x y z, le x y -> le y z -> le x z.
Proof. unfold le. intros x y z. apply float_leb_trans. Qed.

Lemma insert_sorted_filter (x : A) (l : list A) :
  StronglySorted le l ->
  filter at_t (insert_sorted lt x l)
  = if at_t x then filter at_t l ++ [x] else filter at_t l.
Proof.
  induction l as [|y l IH]; intros Hs; cbn [insert_sorted filter].
  - destruct (at_t x); reflexivity.
  - apply StronglySorted_inv in Hs. destruct Hs as [Hs Hy].
    destruct (lt x y) eqn:Hlt.
    + cbn [filter]. destruct (at_t x) eqn:Hx; [|reflexivity].
      assert (Hnone : filter at_t (y :: l) = []).
      { assert (Hall : Forall (fun z => le y z) (y :: l)).
        { constructor; [|exact Hy]. unfold le.
          apply float_ltb_false_leb.
          - apply (float_ltb_not_nan _ _ Hlt).
          - apply (float_ltb_not_nan _ _ Hlt).
          - destruct (key y <? key y) eqn:E; [|reflexivity].
            rewrite (float_ltb_asym _ _ E) in E. discriminate. }
        clear - Hall Hx Hlt. induction Hall as [|z l' Hz _ IH']; [reflexivity|].
        cbn [filter]. unfold at_t at 1.
        rewrite (float_above_not_equal _ _ _ _ Hx Hlt Hz). exact IH'. }
      change (filter at_t (y :: l)) with
        (if at_t y then y :: filter at_t l else filter at_t l) in Hnone.
      rewrite Hnone. reflexivity.
    + cbn [filter]. rewrite (IH Hs).
      destruct (at_t y), (at_t x); reflexivity.
Qed.

Lemma fold_insert_filter (l : list A) :
  forall acc, Forall good l -> Forall good acc -> StronglySorted le acc ->
    filter at_t (fold_left (fun acc x => insert_sorted lt x acc) l acc)
    = filter at_t acc ++ filter at_t l.
Proof.
  induction l as [|x l IH]; intros acc Gl Ga Hs; cbn [fold_left filter].
  - rewrite app_nil_r. reflexivity.
  - apply Forall_cons_iff in Gl. destruct Gl as [Gx Gl].
    rewrite IH.
    + rewrite (insert_sorted_filter x acc Hs).
      destruct (at_t x); [rewrite <- app_assoc|]; reflexivity.
    + exact Gl.
    + apply insert_sorted_good; assumption.
    + apply Sorted_StronglySorted; [exact le_trans_key|].
      apply (insert_sorted_Sorted lt le good).
      * intros a b. apply float_ltb_leb.
      * intros a b Ha Hb. apply float_ltb_false_leb; assumption.
      * exact Gx.
      * exact Ga.
      * apply StronglySorted_Sorted. exact Hs.
Qed.

(** [sorted] by a float key is stable: the elements whose key equals [t]
    come out in the order in which they went in. *)
Lemma sorted_stable (l : list A) :
  Forall good l -> filter at_t (sorted lt l) = filter at_t l.
Proof.
  intros G. unfold sorted. rewrite fold_insert_filter; [reflexivity|exact G| |];
    constructor.
Qed.

End Stable.

(** Segment files whose names decode to the same start time are merged in
    the order of the listing: sorting by start time is stable. *)
Theorem equal_start_times_keep_listing_order :
  forall (data : list (Merging.SegmentInfo * Synth.SynthFile)) (t : float),
    Forall (fun d => is_nan (Merging.start_time (fst d)) = false) data ->
    filter (fun d => (Merging.start_time (fst d) =? t)%float) (Merging.sort_segments data)
    = filter (fun d => (Merging.start_time (fst d) =? t)%float) data.
Proof.
  intros data t Hgood. unfold Merging.sort_segments.
  apply (sorted_stable (fun d => Merging.start_time (fst d)) t data Hgood).
Qed.

Lemma equal_start_times_keep_listing_order_witness :
  map (fun d => Merging.segment_number (fst d))
    (filter (fun d => (Merging.start_time (fst d) =? 5)%float)
       (Merging.sort_segments
          [ (Examples.decoded 7 Examples.four_four 5 10 5, Examples.beatmap);
            (Examples.decoded 1 Examples.four_four 0 5 5, Examples.beatmap);
            (Examples.decoded 2 Examples.four_four 5 10 5, Examples.beatmap) ]))
  = [7; 2].
Proof.
  rewrite equal_start_times_keep_listing_order.
  - reflexivity.
  - repeat constructor.
Defined.

Lemma mapM_raises {A B : Type} (g : A -> result B) (l : list A) (x : A) :
  In x l -> is_ok (g x) = false -> exists e, mapM g l = Raise e.
Proof.
  induction l as [|y l IH]; cbn [mapM]; intros Hin Hx; [contradiction|].
  destruct (g y) as [b|e] eqn:Ey; cbn [Py.bind]; [|eauto].
  destruct Hin as [Heq|Hin].
  - subst y. rewrite Ey in Hx. discriminate.
  - destruct (IH Hin Hx) as [e He]. rewrite He. cbn [Py.bind]. eauto.
Qed.

(** The merger is all or nothing: one listed file whose name does not
    decode, or that does not load, makes it raise, and no beatmap is
    returned. *)
Theorem merger_raises_when_one_file_fails :
  forall (from_synth : str -> result Synth.SynthFile) (base_beatmap : str)
         (segments : list str) (segment : str),
    In segment segments ->
    is_ok (Merging.parse_segment_filename (path_name segment)) = false
    \/ is_ok (from_synth segment) = false ->
    exists e, Merging.merge_synth_segments from_synth base_beatmap segments = Raise e.
Proof.
  intros from_synth base segments segment Hin Hbad.
  unfold Merging.merge_synth_segments, Merging.load_segments.
  match goal with
  | |- context [mapM ?g segments] =>
      destruct (mapM_raises g segments segment Hin) as [e He]
  end.
  - destruct Hbad as [Hp|Hl].
    + destruct (Merging.parse_segment_filename (path_name segment)); [discriminate|].
      reflexivity.
    + destruct (Merging.parse_segment_filename (path_name segment)); [|reflexivity].
      cbn [Py.bind]. destruct (from_synth segment); [discriminate|]. reflexivity.
  - rewrite He. cbn [Py.bind]. eauto.
Qed.

(** Two good segment files and one named without a time signature: nothing
    is merged. *)
Lemma merger_raises_when_one_file_fails_witness :
  exists e,
    Merging.merge_synth_segments Examples.loader "base.synth"
      [ "out/song_1_BPM100_TimeSignature4-4_0s-5s_dur5s_Segment.synth";
        "out/song_2_BPM100_5s-10s_dur5s_Segment.synth";
        "out/song_3_BPM100_TimeSignature6-8_10s-12.5s_dur2.5s_Segment.synth" ]
    = Raise e.
Proof.
  apply (merger_raises_when_one_file_fails Examples.loader "base.synth" _
           "out/song_2_BPM100_5s-10s_dur5s_Segment.synth").
  - right. left. reflexivity.
  - left. vm_compute. reflexivity.
Defined.

(** ** The bookmark of a merged segment *)

Section ListMin.
Local Open Scope float_scope.

Lemma list_min_spec (l : list float) :
  forall x, is_nan x = false -> Forall (fun y => is_nan y = false) l ->
    In (Merging.list_min x l) (x :: l)
    /\ is_nan (Merging.list_min x l) = false
    /\ (Merging.list_min x l <=? x) = true
    /\ Forall (fun y => (Merging.list_min x l <=? y) = true) l.
Proof.
  unfold Merging.list_min.
  induction l as [|y l IH]; intros x Hx Hl; cbn [fold_left].
  - split; [left; reflexivity|]. split; [exact Hx|].
    split; [|constructor].
    apply float_ltb_false_leb; try assumption.
    destruct (x <? x) eqn:E; [|reflexivity].
    rewrite (float_ltb_asym _ _ E) in E. discriminate.
  - apply Forall_cons_iff in Hl. destruct Hl as [Hy Hl].
    destruct (y <? x) eqn:E.
    + destruct (IH y Hy Hl) as [Hin [Hn [Hle Hall]]].
      split; [right; exact Hin|]. split; [exact Hn|].
      split; [|constructor; assumption].
      apply (float_leb_trans _ _ _ Hle). apply float_ltb_leb, E.
    + destruct (IH x Hx Hl) as [Hin [Hn [Hle Hall]]].
      split; [destruct Hin as [Hin|Hin]; [left; exact Hin|right; right; exact Hin]|].
      split; [exact Hn|]. split; [exact Hle|].
      constructor; [|exact Hall].
      apply (float_leb_trans _ _ _ Hle). apply float_ltb_false_leb; assumption.
Qed.

End ListMin.

Lemma bookmarks_set_at (l : list (num * str)) (k : num) (label : str) :
  num_eqb k k = true ->
  exists beat, num_eqb beat k = true /\ In (beat, label) (Synth.bookmarks_set l k label).
Proof.
  intros Hk. induction l as [|[k' v'] l IH]; cbn [Synth.bookmarks_set].
  - exists k. split; [exact Hk|left; reflexivity].
  - destruct (num_eqb k' k) eqn:E.
    + exists k'. split; [exact E|left; reflexivity].
    + destruct IH as [beat [Hb Hin]]. exists beat. split; [exact Hb|right; exact Hin].
Qed.

(** A segment is merged with its offset reset to 0 and a bookmark at its
    earliest note: at a beat that equals the least of the note positions of
    the four hand categories of the Expert difficulty (after the shift by
    the start time), or at beat 0 when it has no notes. *)
Theorem merged_segment_is_bookmarked_at_its_first_note :
  forall (info : Merging.SegmentInfo) (segment_file copy : Synth.SynthFile),
    Merging.prepare_segment info segment_file = Ok copy ->
    exists (notes : Synth.Notes) (label : str),
      Synth.offset_ms copy = Int 0
      /\ Synth.expert copy = Some notes
      /\ let positions :=
           Synth.right notes ++ Synth.left notes ++ Synth.single notes ++ Synth.both notes in
         (positions = [] ->
          exists beat, num_eqb beat (Int 0) = true /\ In (beat, label) (Synth.bookmarks copy))
         /\ (positions <> [] ->
             Forall (fun p => is_nan p = false) positions ->
             exists first beat,
               In first positions
               /\ Forall (fun p => (first <=? p)%float = true) positions
               /\ num_eqb beat (Flt first) = true
               /\ In (beat, label) (Synth.bookmarks copy)).
Proof.
  intros info file copy H. unfold Merging.prepare_segment in H.
  bind_as H notes Hnotes.
  destruct (Synth.expert (Synth.offset_everything (Synth.change_offset file (Int 0))
                            (Merging.start_time info))) as [notes'|] eqn:Hexp;
    [|discriminate].
  inversion Hnotes; subst notes'. clear Hnotes.
  bind_as H beats_str Hbeats. bind_as H four_str Hfour.
  inversion H; subst copy. clear H.
  eexists notes, _. split; [reflexivity|]. split; [exact Hexp|].
  cbn zeta. cbn [Synth.bookmarks Synth.set_bookmark].
  destruct (Synth.right notes ++ Synth.left notes ++ Synth.single notes ++ Synth.both notes)
    as [|x l] eqn:Hpos.
  - split; [|intros Hne; congruence]. intros _.
    apply bookmarks_set_at. reflexivity.
  - split; [discriminate|]. intros _ Hgood.
    apply Forall_cons_iff in Hgood. destruct Hgood as [Hx Hl].
    destruct (list_min_spec l x Hx Hl) as [Hin [Hn [Hle Hall]]].
    destruct (bookmarks_set_at
                (Synth.bookmarks
                   (Synth.offset_everything (Synth.change_offset file (Int 0))
                      (Merging.start_time info)))
                (Flt (Merging.list_min x l))
                (float_repr
                   (Synth.bpm
                      (Synth.offset_everything (Synth.change_offset file (Int 0))
                         (Merging.start_time info)))
                 +++ " BPM || Time Signature " +++ beats_str +++ "/" +++ four_str))
      as [beat [Hb Hbin]].
    { cbn [num_eqb]. apply eqb_refl_not_nan. exact Hn. }
    exists (Merging.list_min x l), beat.
    split; [exact Hin|]. split; [constructor; assumption|].
    split; [exact Hb|exact Hbin].
Qed.

Lemma merged_segment_is_bookmarked_at_its_first_note_witness :
  exists copy notes label first beat,
    Merging.prepare_segment (Examples.decoded 2 Examples.four_four 6 10 4) Examples.beatmap
    = Ok copy
    /\ Synth.offset_ms copy = Int 0
    /\ Synth.expert copy = Some notes
    /\ Synth.right notes ++ Synth.left notes ++ Synth.single notes ++ Synth.both notes
       = [11; 13; 12]%float
    /\ In first [11; 13; 12]%float
    /\ Forall (fun p => (first <=? p)%float = true) [11; 13; 12]%float
    /\ num_eqb beat (Flt first) = true
    /\ In (beat, label) (Synth.bookmarks copy).
Proof.
  destruct (Merging.prepare_segment (Examples.decoded 2 Examples.four_four 6 10 4)
              Examples.beatmap) as [copy|e] eqn:Hprep;
    [|vm_compute in Hprep; discriminate Hprep].
  destruct (merged_segment_is_bookmarked_at_its_first_note _ _ _ Hprep)
    as [notes [label [Hoff [Hexp [_ Hfirst]]]]].
  assert (Hpos : Synth.right notes ++ Synth.left notes ++ Synth.single notes
                 ++ Synth.both notes = [11; 13; 12]%float).
  { vm_compute in Hprep. inversion Hprep; subst copy.
    cbn in Hexp. inversion Hexp; subst notes. reflexivity. }
  rewrite Hpos in Hfirst.
  destruct (Hfirst ltac:(discriminate) ltac:(repeat constructor))
    as [first [beat [Hin [Hall [Hb Hbin]]]]].
  exists copy, notes, label, first, beat.
  repeat (split; [assumption || reflexivity|]). assumption.
Defined.
(* ================================================================== *)
(** * Further properties of the file names (util.py) *)
(* ================================================================== *)

(** The parts of a name that [generate_segment_filename] returns. *)
Lemma generate_segment_filename_Ok
  (base_path : str) (index total_count : Z) (segment : Segment) (name : str) :
  Util.generate_segment_filename base_path index total_count segment = Ok name ->
  exists total_str index_str time_sig_str,
    str_of_int total_count = Ok total_str
    /\ str_of_int (index + 1) = Ok index_str
    /\ match seg_time_signature segment with
       | Some ts =>
           exists n d, str_of_int (numerator ts) = Ok n
                       /\ str_of_int (denominator ts) = Ok d
                       /\ time_sig_str = "_TimeSignature" +++ n +++ "-" +++ d
       | None => time_sig_str = ""
       end
    /\ name = path_stem base_path +++ "_" +++ zfill index_str (slen total_str) +++
              "_BPM" +++ format_g (seg_bpm segment) +++ time_sig_str +++
              "_" +++ Util.seconds_str (start_ms segment / 1000) +++
              "s-" +++ Util.seconds_str (end_ms segment / 1000) +++
              "s_dur" +++ Util.seconds_str (duration_ms segment / 1000) +++
              "s_Segment" +++ path_suffix base_path.
Proof.
  unfold Util.generate_segment_filename. intros H.
  bind_as H total_str Htotal. bind_as H index_str Hindex.
  bind_as H time_sig_str Hts. inversion H; subst name. clear H.
  exists total_str, index_str, time_sig_str.
  split; [exact Htotal|]. split; [exact Hindex|]. split; [|reflexivity].
  destruct (seg_time_signature segment) as [ts|].
  - bind_as Hts n Hn. bind_as Hts d Hd. inversion Hts; subst time_sig_str.
    exists n, d. auto.
  - inversion Hts. reflexivity.
Qed.

Lemma generate_segment_filename_distinct
  (base_path : str) (total_count i j : Z) (segment_i segment_j : Segment)
  (name_i name_j : str) :
  0 <= i < total_count -> 0 <= j < total_count -> i <> j ->
  Util.generate_segment_filename base_path i total_count segment_i = Ok name_i ->
  Util.generate_segment_filename base_path j total_count segment_j = Ok name_j ->
  name_i <> name_j.
Proof.
  intros Hi Hj Hij Hgi Hgj Heq. rename total_count into total.
  destruct (generate_segment_filename_Ok _ _ _ _ _ Hgi)
    as [total_i [index_i [ts_i [Hti [Hii [_ Hni]]]]]].
  destruct (generate_segment_filename_Ok _ _ _ _ _ Hgj)
    as [total_j [index_j [ts_j [Htj [Hij' [_ Hnj]]]]]].
  rewrite Hti in Htj. inversion Htj; subst total_j. clear Htj.
  destruct (str_of_int_nonneg total total_i ltac:(lia) Hti) as [Et _].
  destruct (str_of_int_nonneg (i + 1) index_i ltac:(lia) Hii) as [Ei _].
  destruct (str_of_int_nonneg (j + 1) index_j ltac:(lia) Hij') as [Ej _].
  subst total_i index_i index_j. rewrite Hni, Hnj in Heq.
  apply append_inj_l in Heq. cbn [app] in Heq. inversion Heq as [Heq']. clear Heq.
  destruct (zfill_number (i + 1) (slen (str_of_nonneg total)) ltac:(lia))
    as [_ [_ [Hvi Hwi]]].
  destruct (zfill_number (j + 1) (slen (str_of_nonneg total)) ltac:(lia))
    as [_ [_ [Hvj Hwj]]].
  assert (Hw : forall n, 0 <= n < total ->
                         slen (str_of_nonneg (n + 1)) <= slen (str_of_nonneg total)).
  { intros n Hn. apply str_of_nonneg_width. lia. }
  apply append_inj_same_length in Heq'.
  - destruct Heq' as [Hseq _]. rewrite Hseq in Hvi. lia.
  - rewrite Hwi, Hwj by (apply Hw; assumption). reflexivity.
Qed.

(** Within one run no two segments get the same file name: for a fixed
    source and segment count, the names returned for two different indices
    below the count differ, whatever the segments are. *)
Theorem segment_file_names_are_distinct :
  forall (base_path : str) (total_count i j : Z) (segment_i segment_j : Segment)
         (name_i name_j : str),
    0 <= i < total_count -> 0 <= j < total_count -> i <> j ->
    Util.generate_segment_filename base_path i total_count segment_i = Ok name_i ->
    Util.generate_segment_filename base_path j total_count segment_j = Ok name_j ->
    name_i <> name_j.
Proof.
  intros base_path total_count i j segment_i segment_j name_i name_j Hi Hj Hij Hgi Hgj.
  exact (generate_segment_filename_distinct base_path total_count i j
           segment_i segment_j name_i name_j Hi Hj Hij Hgi Hgj).
Qed.

Lemma segment_file_names_are_distinct_witness :
  "TheCrowing_01_BPM170_TimeSignature4-4_0s-228.706s_dur228.706s_Segment.synth"
  <> "TheCrowing_10_BPM170_TimeSignature4-4_0s-228.706s_dur228.706s_Segment.synth".
Proof.
  apply (segment_file_names_are_distinct "TheCrowing.synth" 10 0 9
           (Examples.the_crowing None (Some Examples.four_four))
           (Examples.the_crowing None (Some Examples.four_four)));
    try lia; vm_compute; reflexivity.
Defined.

(* ================================================================== *)
(** * Further properties of the segment materializer (beatmap.py) *)
(* ================================================================== *)

(** The timing markers that [create_body] asks for, read off the saved
    beatmap. *)
Lemma create_body_grid (ext : Beatmap.externals) (beatmap saved : Synth.SynthFile)
  (segment : Segment) :
  Beatmap.create_body ext beatmap segment = Ok saved ->
  exists ts b bf nv whole whole_i floor_beats measures measures_up,
    seg_time_signature segment = Some ts
    /\ Util.beats_per_measure_from_time_signature
         {| Util.td_numerator := Some (numerator ts);
            Util.td_denominator := Some (denominator ts) |} = Ok b
    /\ float_of_int b = Ok bf
    /\ py_floordiv (Synth.second_to_beat 2 (seg_bpm segment)) bf = Ok whole
    /\ py_int whole = Ok whole_i
    /\ py_floor (Synth.second_to_beat
                   ((end_ms segment - start_ms segment) / 1000) (seg_bpm segment))
       = Ok floor_beats
    /\ int_truediv floor_beats b = Ok measures
    /\ py_ceil measures = Ok measures_up
    /\ Synth.timing saved
       = Some {| Synth.tg_beats_per_measure := b;
                 Synth.tg_note_value := nv;
                 Synth.tg_start_beat := (whole_i + 1) * b;
                 Synth.tg_end_beat :=
                   (if measures_up * b <? b then b else measures_up * b) / b * b
                   + (if (start_ms segment =? 0)%float then 0 else (whole_i + 1) * b) |}.
Proof.
  unfold Beatmap.create_body. intros H.
  bind_as H seconds_per_beat Hspb.
  bind_as H ts Hts.
  bind_as H b Hb.
  bind_as H nv Hnv.
  bind_as H bf Hbf.
  bind_as H remainder Hrem.
  destruct (seg_time_signature segment) as [ts'|] eqn:Ets; [|discriminate].
  inversion Hts; subst ts'.
  unfold Beatmap.segment_beatmap_audio in H.
  destruct (Beatmap.slice_ok ext).
  - bind_as H whole Hwhole. bind_as H whole_i Hwi.
    bind_as H floor_beats Hfloor. bind_as H measures Hmeasures.
    bind_as H measures_up Hup. bind_as H with_notes Hnotes.
    cbn [negb] in H.
    destruct (Beatmap.save_ok ext); [|discriminate].
    inversion H; subst saved.
    unfold Beatmap.add_timing_notes in Hnotes.
    destruct (Beatmap.notes_ok ext); [|discriminate].
    inversion Hnotes; subst with_notes.
    exists ts, b, bf, nv, whole, whole_i, floor_beats, measures, measures_up.
    repeat (split; [assumption || reflexivity|]).
    cbn [Synth.timing Synth.set_timing]. do 2 f_equal.
    destruct (start_ms segment =? 0)%float; cbn [negb]; lia.
  - bind_as H whole Hwhole. bind_as H whole_i Hwi.
    bind_as H floor_beats Hfloor. bind_as H measures Hmeasures.
    bind_as H measures_up Hup. bind_as H with_notes Hnotes.
    cbn [negb] in H. discriminate H.
Qed.

Lemma floordiv_by_zero (x : float) : py_floordiv x 0 = Raise ZeroDivisionError.
Proof. reflexivity. Qed.

(** The request that [create_tempo_segment_with_audio] makes to
    [add_timing_notes]: the measure is not zero beats, the start beat and
    the end beat are multiples of it, and for a measure of positive length
    the end beat is at least one measure, counted from the start beat when
    the segment does not start at 0 ms and from beat 0 when it does. *)
Lemma timing_grid_of_saved_segment :
  forall (ext : Beatmap.externals) (beatmap saved : Synth.SynthFile) (segment : Segment),
    Beatmap.create_tempo_segment_with_audio ext beatmap segment = (true, Some saved) ->
    exists grid,
      Synth.timing saved = Some grid
      /\ Synth.tg_beats_per_measure grid <> 0
      /\ (Synth.tg_beats_per_measure grid | Synth.tg_start_beat grid)
      /\ (Synth.tg_beats_per_measure grid | Synth.tg_end_beat grid)
      /\ (0 < Synth.tg_beats_per_measure grid ->
          Synth.tg_beats_per_measure grid
          <= Synth.tg_end_beat grid
             - (if (start_ms segment =? 0)%float then 0 else Synth.tg_start_beat grid)).
Proof.
  intros ext beatmap saved segment H.
  unfold Beatmap.create_tempo_segment_with_audio in H.
  destruct (Beatmap.create_body ext beatmap segment) as [saved'|e] eqn:Hbody;
    [|discriminate].
  inversion H; subst saved'. clear H.
  destruct (create_body_grid _ _ _ _ Hbody)
    as [ts [b [bf [nv [whole [whole_i [fb [ms [mu
         [Hts [Hb [Hbf [Hwhole [Hwi [Hfb [Hms [Hmu Hgrid]]]]]]]]]]]]]]]]].
  eexists. split; [exact Hgrid|].
  cbn [Synth.tg_beats_per_measure Synth.tg_start_beat Synth.tg_end_beat].
  assert (Hb0 : b <> 0).
  { intros E. subst b. cbn in Hbf. inversion Hbf; subst bf.
    rewrite floordiv_by_zero in Hwhole. discriminate Hwhole. }
  split; [exact Hb0|]. split; [exists (whole_i + 1); reflexivity|].
  split.
  - apply Z.divide_add_r.
    + exists ((if mu * b <? b then b else mu * b) / b). reflexivity.
    + destruct (start_ms segment =? 0)%float;
        [exists 0; reflexivity|exists (whole_i + 1); reflexivity].
  - intros Hpos.
    replace ((if mu * b <? b then b else mu * b) / b * b)
      with (if mu * b <? b then b else mu * b).
    + destruct (mu * b <? b) eqn:E;
        [|apply Z.ltb_ge in E];
        destruct (start_ms segment =? 0)%float; lia.
    + destruct (mu * b <? b).
      * rewrite Z.div_same by exact Hb0. lia.
      * rewrite Z.div_mul by exact Hb0. reflexivity.
Qed.

(** The timing markers that [create_tempo_segment_with_audio] asks
    [add_timing_notes] for lie on measure boundaries: the measure is not
    zero beats, and the start beat and the end beat are multiples of it.
    For a segment that does not start at 0 ms the end beat is shifted by
    the start beat, and with a measure of positive length the markers span
    at least one measure.  For the segment that starts at 0 ms the end beat
    is not shifted: it is at least one measure counted from beat 0, while
    the markers still start at the start beat, so the range from the start
    beat to the end beat can be empty.  The segment from 0 ms to 2000 ms at
    120 BPM in 4/4 asks for markers from beat 8 to beat 4. *)
Theorem timing_markers_lie_on_measure_boundaries :
  (forall (ext : Beatmap.externals) (beatmap saved : Synth.SynthFile) (segment : Segment),
     Beatmap.create_tempo_segment_with_audio ext beatmap segment = (true, Some saved) ->
     exists grid,
       Synth.timing saved = Some grid
       /\ Synth.tg_beats_per_measure grid <> 0
       /\ (Synth.tg_beats_per_measure grid | Synth.tg_start_beat grid)
       /\ (Synth.tg_beats_per_measure grid | Synth.tg_end_beat grid)
       /\ (0 < Synth.tg_beats_per_measure grid ->
           (start_ms segment =? 0)%float = false ->
           Synth.tg_beats_per_measure grid
           <= Synth.tg_end_beat grid - Synth.tg_start_beat grid)
       /\ (0 < Synth.tg_beats_per_measure grid ->
           (start_ms segment =? 0)%float = true ->
           Synth.tg_beats_per_measure grid <= Synth.tg_end_beat grid))
  /\ (exists saved grid,
        Beatmap.create_tempo_segment_with_audio Examples.all_fine Examples.beatmap
          Examples.two_second_opening = (true, Some saved)
        /\ Synth.timing saved = Some grid
        /\ Synth.tg_start_beat grid = 8
        /\ Synth.tg_end_beat grid = 4).
Proof.
  split.
  - intros ext beatmap saved segment H.
    destruct (timing_grid_of_saved_segment ext beatmap saved segment H)
      as [grid [Hgrid [Hb [Hstart [Hend Hspan]]]]].
    exists grid. repeat (split; [assumption|]). split.
    + intros Hpos E. specialize (Hspan Hpos). rewrite E in Hspan. exact Hspan.
    + intros Hpos E. specialize (Hspan Hpos). rewrite E in Hspan. lia.
  - eexists. eexists. split; [vm_compute; reflexivity|].
    split; [reflexivity|]. split; reflexivity.
Qed.

Lemma timing_markers_lie_on_measure_boundaries_witness :
  exists saved grid,
    Beatmap.create_tempo_segment_with_audio Examples.all_fine Examples.beatmap
      Examples.later_segment = (true, Some saved)
    /\ Synth.timing saved = Some grid
    /\ (Synth.tg_beats_per_measure grid | Synth.tg_start_beat grid)
    /\ (Synth.tg_beats_per_measure grid | Synth.tg_end_beat grid)
    /\ Synth.tg_beats_per_measure grid
       <= Synth.tg_end_beat grid - Synth.tg_start_beat grid.
Proof.
  destruct (Beatmap.create_tempo_segment_with_audio Examples.all_fine Examples.beatmap
              Examples.later_segment) as [ok saved] eqn:Hrun.
  vm_compute in Hrun.
  match type of Hrun with
  | (true, Some ?s) = _ =>
      destruct (proj1 timing_markers_lie_on_measure_boundaries
                  Examples.all_fine Examples.beatmap
                  s Examples.later_segment ltac:(vm_compute; reflexivity))
        as [grid [Hgrid [Hb [Hstart [Hend [Hspan _]]]]]];
      exists s, grid
  end.
  inversion Hrun; subst. repeat (split; [assumption || reflexivity|]).
  apply Hspan; [|reflexivity].
  vm_compute in Hgrid. inversion Hgrid; subst grid. reflexivity.
Defined.

(* ================================================================== *)
(** * The splitter's run (split.py) *)
(* ================================================================== *)

Section Loop.
Variable w : Split.world.
Variable beatmap : Synth.SynthFile.
Variable source_filename : str.
Variable total : Z.

(** The loop never lowers the count of failures; when it leaves the count
    as it was, every segment was saved, in order, under its generated
    name. *)
Lemma variants_loop_all_saved :
  forall (segs : list Segment) (i : nat) (t t' : Split.tally),
    Split.variants_loop w beatmap source_filename total i segs t = Ok t' ->
    Split.failed_variants t <= Split.failed_variants t'
    /\ (Split.failed_variants t' = Split.failed_variants t ->
        exists new,
          Split.saved t' = Split.saved t ++ new
          /\ List.length new = List.length segs
          /\ forall j segment,
               nth_error segs j = Some segment ->
               exists file name,
                 Beatmap.create_tempo_segment_with_audio
                   (Split.externals_at w (i + j)) beatmap segment = (true, Some file)
                 /\ Util.generate_segment_filename source_filename
                      (Z.of_nat (i + j)) total segment = Ok name
                 /\ nth_error new j = Some (name, file)).
Proof.
  induction segs as [|segment rest IH]; intros i t t' Hloop;
    cbn [Split.variants_loop] in Hloop.
  - inversion Hloop; subst t'. split; [lia|]. intros _. exists [].
    split; [rewrite app_nil_r; reflexivity|].
    split; [reflexivity|]. intros j s Hj. destruct j; discriminate Hj.
  - bind_as Hloop name Hname.
    destruct (Beatmap.create_tempo_segment_with_audio (Split.externals_at w i) beatmap
                segment) as [[|] [file|]] eqn:Hrun;
      destruct (IH _ _ _ Hloop) as [Hle Hall];
      cbn [Split.failed_variants Split.saved] in Hle, Hall;
      (split; [lia|]); intros Hsame; try lia.
    destruct (Hall Hsame) as [new [Hsaved [Hlen Hnth]]].
    exists ((name, file) :: new).
    split; [rewrite Hsaved, <- app_assoc; reflexivity|].
    split; [cbn [List.length]; rewrite Hlen; reflexivity|].
    intros j s Hj. destruct j as [|j].
    + cbn [nth_error] in Hj. inversion Hj; subst s. rewrite Nat.add_0_r.
      exists file, name. split; [exact Hrun|]. split; [exact Hname|reflexivity].
    + cbn [nth_error] in Hj. destruct (Hnth j s Hj) as [file' [name' [Hrun' [Hname' Hnew]]]].
      replace (i + S j)%nat with (S i + j)%nat by lia.
      exists file', name'. split; [exact Hrun'|]. split; [exact Hname'|exact Hnew].
Qed.

(** The files the loop saves carry the names of distinct indices, so no
    two of them share a name. *)
Lemma variants_loop_names :
  forall (segs : list Segment) (i : nat) (t t' : Split.tally),
    Z.of_nat (i + List.length segs) <= total ->
    Split.variants_loop w beatmap source_filename total i segs t = Ok t' ->
    exists new,
      Split.saved t' = Split.saved t ++ new
      /\ Forall (fun f => exists j segment,
                            (i <= j)%nat /\ Z.of_nat j < total
                            /\ Util.generate_segment_filename source_filename
                                 (Z.of_nat j) total segment = Ok (fst f)) new
      /\ NoDup (map fst new).
Proof.
  induction segs as [|segment rest IH]; intros i t t' Htotal Hloop;
    cbn [Split.variants_loop] in Hloop.
  - inversion Hloop; subst t'. exists [].
    split; [rewrite app_nil_r; reflexivity|]. split; constructor.
  - cbn [List.length] in Htotal. bind_as Hloop name Hname.
    assert (Hrest : Z.of_nat (S i + List.length rest) <= total) by lia.
    destruct (IH _ _ _ Hrest Hloop) as [new [Hsaved [Hnames Hnd]]].
    assert (Hnames' : Forall (fun f => exists j segment,
                                (i <= j)%nat /\ Z.of_nat j < total
                                /\ Util.generate_segment_filename source_filename
                                     (Z.of_nat j) total segment = Ok (fst f)) new).
    { eapply Forall_impl; [|exact Hnames].
      intros f [j [s [Hj [Hlt Hf]]]]. exists j, s. split; [lia|]. auto. }
    destruct (Beatmap.create_tempo_segment_with_audio (Split.externals_at w i) beatmap
                segment) as [[|] [file|]] eqn:Hrun;
      cbn [Split.saved] in Hsaved;
      try (exists new; split; [exact Hsaved|]; split; [exact Hnames'|exact Hnd]).
    exists ((name, file) :: new).
    split; [rewrite Hsaved, <- app_assoc; reflexivity|]. split.
    + constructor; [|exact Hnames'].
      exists i, segment. cbn [fst]. split; [lia|]. split; [lia|exact Hname].
    + cbn [map fst]. constructor; [|exact Hnd].
      intros Hin. apply in_map_iff in Hin. destruct Hin as [f [Hf Hfin]].
      rewrite Forall_forall in Hnames. destruct (Hnames f Hfin) as [j [s [Hj [Hlt Hfname]]]].
      rewrite Hf in Hfname.
      apply (generate_segment_filename_distinct source_filename total
               (Z.of_nat j) (Z.of_nat i) s segment name name);
        [lia|lia|lia|exact Hfname|exact Hname|reflexivity].
Qed.

End Loop.

(** What a run that returns went through. *)
Lemma main_returns (w : Split.world) (args : Split.arguments) (code : Z)
  (files : list (str * Synth.SynthFile)) :
  Split.main w args = Split.Returns code files ->
  (code = 1 /\ files = [])
  \/ exists beatmap midi_file segs t,
       Split.from_synth w (Split.source args) = Ok beatmap
       /\ Split.read_midi w (Split.midi args) = Ok midi_file
       /\ Audio.create_tempo_segments
            (Midi.extract_tempo_and_time_signature_changes midi_file (Synth.bpm beatmap))
            (Split.audio_duration w beatmap * 1000) (Synth.bpm beatmap) = Ok segs
       /\ segs <> []
       /\ Split.variants_loop w beatmap (path_name (Split.source args))
            (Z.of_nat (List.length segs)) 0 segs
            {| Split.successful_variants := 0; Split.failed_variants := 0;
               Split.saved := [] |} = Ok t
       /\ files = Split.saved t
       /\ code = if 0 <? Split.failed_variants t then 1 else 0.
Proof.
  unfold Split.main. intros H.
  destruct (Util.validate_inputs (Split.fs w) (Split.midi args) (Split.source args)
              (Split.output_dir args)); cbn [negb] in H;
    [|inversion H; left; auto].
  destruct (Split.read_midi w (Split.midi args)) as [midi_file|e]; [|discriminate H].
  unfold Beatmap.load_beatmap_from_synth in H.
  destruct (Split.from_synth w (Split.source args)) as [beatmap|e]; [|discriminate H].
  destruct (Midi.extract_tempo_and_time_signature_changes midi_file (Synth.bpm beatmap))
    as [|entry cm] eqn:Hcm; [inversion H; left; auto|].
  destruct (Audio.create_tempo_segments (entry :: cm)
              (Split.audio_duration w beatmap * 1000) (Synth.bpm beatmap))
    as [[|segment segs]|e] eqn:Hsegs; [inversion H; left; auto| |discriminate H].
  destruct (Split.variants_loop w beatmap (path_name (Split.source args))
              (Z.of_nat (List.length (segment :: segs))) 0 (segment :: segs)
              {| Split.successful_variants := 0; Split.failed_variants := 0;
                 Split.saved := [] |}) as [t|e] eqn:Hloop; [|discriminate H].
  right. exists beatmap, midi_file, (segment :: segs), t.
  split; [reflexivity|]. split; [reflexivity|]. split; [rewrite Hcm; exact Hsegs|].
  split; [discriminate|]. split; [exact Hloop|].
  destruct (0 <? Split.failed_variants t); inversion H; auto.
Qed.

(** Exit code 0 means that every segment of the timeline was saved: the
    files are as many as the segments and, in order, each is the beatmap
    that [create_tempo_segment_with_audio] made of its segment, under the
    name generated for its index. *)
Theorem exit_code_zero_means_every_segment_saved :
  forall (w : Split.world) (args : Split.arguments)
         (files : list (str * Synth.SynthFile)),
    Split.main w args = Split.Returns 0 files ->
    exists beatmap midi_file segs,
      Split.from_synth w (Split.source args) = Ok beatmap
      /\ Split.read_midi w (Split.midi args) = Ok midi_file
      /\ Audio.create_tempo_segments
           (Midi.extract_tempo_and_time_signature_changes midi_file (Synth.bpm beatmap))
           (Split.audio_duration w beatmap * 1000) (Synth.bpm beatmap) = Ok segs
      /\ segs <> []
      /\ List.length files = List.length segs
      /\ forall i segment,
           nth_error segs i = Some segment ->
           exists file name,
             Beatmap.create_tempo_segment_with_audio (Split.externals_at w i) beatmap segment
             = (true, Some file)
             /\ Util.generate_segment_filename (path_name (Split.source args))
                  (Z.of_nat i) (Z.of_nat (List.length segs)) segment = Ok name
             /\ nth_error files i = Some (name, file).
Proof.
  intros w args files H.
  destruct (main_returns w args 0 files H)
    as [[Hcode _]|[beatmap [midi_file [segs [t [Hload [Hmidi [Hsegs [Hne
         [Hloop [Hfiles Hcode]]]]]]]]]]];
    [discriminate Hcode|].
  exists beatmap, midi_file, segs. repeat (split; [assumption|]).
  destruct (variants_loop_all_saved w beatmap (path_name (Split.source args))
              (Z.of_nat (List.length segs)) segs 0 _ t Hloop) as [Hle Hall].
  cbn [Split.failed_variants Split.saved] in Hle, Hall.
  destruct (0 <? Split.failed_variants t) eqn:E in Hcode; [discriminate Hcode|].
  apply Z.ltb_ge in E.
  destruct (Hall ltac:(lia)) as [new [Hsaved [Hlen Hnth]]].
  cbn [app] in Hsaved. rewrite <- Hfiles in Hsaved. subst new.
  split; [exact Hlen|exact Hnth].
Qed.

Lemma exit_code_zero_means_every_segment_saved_witness :
  exists files,
    Split.main (Examples.world_of (Ok Examples.midi_with_both) true Examples.all_fine)
      Examples.command_line = Split.Returns 0 files
    /\ map fst files
       = [ "song_1_BPM100_TimeSignature4-4_0s-1.2s_dur1.2s_Segment.synth";
           "song_2_BPM150_TimeSignature4-4_1.2s-1.6s_dur0.4s_Segment.synth";
           "song_3_BPM150_TimeSignature3-4_1.6s-10s_dur8.4s_Segment.synth" ].
Proof.
  destruct (Split.main (Examples.world_of (Ok Examples.midi_with_both) true
                          Examples.all_fine) Examples.command_line) as [code files| |]
    eqn:Hmain; try (vm_compute in Hmain; discriminate Hmain).
  assert (Hcode : code = 0) by (vm_compute in Hmain; inversion Hmain; reflexivity).
  subst code. exists files. split; [reflexivity|].
  destruct (exit_code_zero_means_every_segment_saved _ _ _ Hmain)
    as [beatmap [midi_file [segs [_ [_ [_ [_ [Hlen _]]]]]]]].
  vm_compute in Hmain. inversion Hmain. reflexivity.
Defined.

(** A run never saves two files under one name. *)
Theorem saved_files_have_distinct_names :
  forall (w : Split.world) (args : Split.arguments) (code : Z)
         (files : list (str * Synth.SynthFile)),
    Split.main w args = Split.Returns code files ->
    NoDup (map fst files).
Proof.
  intros w args code files H.
  destruct (main_returns w args code files H)
    as [[_ Hfiles]|[beatmap [midi_file [segs [t [_ [_ [_ [_ Hloop]]]]]]]]].
  - subst files. constructor.
  - destruct Hloop as [Hloop [Hfiles _]].
    destruct (variants_loop_names w beatmap (path_name (Split.source args))
                (Z.of_nat (List.length segs)) segs 0 _ t ltac:(cbn; lia) Hloop)
      as [new [Hsaved [_ Hnd]]].
    cbn [Split.saved app] in Hsaved. rewrite <- Hfiles in Hsaved. subst new. exact Hnd.
Qed.

Lemma saved_files_have_distinct_names_witness :
  exists code files,
    Split.main (Examples.world_of (Ok Examples.midi_with_both) true Examples.all_fine)
      Examples.command_line = Split.Returns code files
    /\ List.length files = 3%nat /\ NoDup (map fst files).
Proof.
  destruct (Split.main (Examples.world_of (Ok Examples.midi_with_both) true
                          Examples.all_fine) Examples.command_line) as [code files| |]
    eqn:Hmain; try (vm_compute in Hmain; discriminate Hmain).
  exists code, files. split; [reflexivity|].
  split; [vm_compute in Hmain; inversion Hmain; reflexivity|].
  exact (saved_files_have_distinct_names _ _ _ _ Hmain).
Defined.

(** When the source beatmap does not load, the run does not end with exit
    code 1 as for the other input errors: [load_beatmap_from_synth] returns
    [False], the test [beatmap is None] lets it through, and the run ends
    with an exception, [AttributeError] on [beatmap.bpm] once the MIDI file
    is parsed. *)
Theorem unloadable_source_ends_in_an_exception :
  forall (w : Split.world) (args : Split.arguments),
    Util.validate_inputs (Split.fs w) (Split.midi args) (Split.source args)
      (Split.output_dir args) = true ->
    is_ok (Split.from_synth w (Split.source args)) = false ->
    (forall code files, Split.main w args <> Split.Returns code files)
    /\ (forall midi_file,
          Split.read_midi w (Split.midi args) = Ok midi_file ->
          Split.main w args = Split.RaisesAttributeError).
Proof.
  intros w args Hvalid Hload. unfold Split.main, Beatmap.load_beatmap_from_synth.
  rewrite Hvalid. cbn [negb].
  destruct (Split.from_synth w (Split.source args)) as [beatmap|e]; [discriminate Hload|].
  split.
  - intros code files. destruct (Split.read_midi w (Split.midi args)); discriminate.
  - intros midi_file Hmidi. rewrite Hmidi. reflexivity.
Qed.

Lemma unloadable_source_ends_in_an_exception_witness :
  Split.main (Examples.world_of (Ok Examples.midi_with_both) false Examples.all_fine)
    Examples.command_line = Split.RaisesAttributeError.
Proof.
  apply (proj2 (unloadable_source_ends_in_an_exception
                  (Examples.world_of (Ok Examples.midi_with_both) false Examples.all_fine)
                  Examples.command_line ltac:(vm_compute; reflexivity) eq_refl)
           Examples.midi_with_both).
  reflexivity.
Defined.

(** For a MIDI file without time-signature messages the run saves nothing
    and never ends with exit code 0: it returns 1 before the loop, or an
    exception ends it (the segmenter's, when the timeline is not empty). *)
Theorem run_without_time_signature_saves_nothing :
  forall (w : Split.world) (args : Split.arguments) (midi_file : Midi.MidiFile),
    Split.read_midi w (Split.midi args) = Ok midi_file ->
    Spec.no_time_signature_message midi_file = true ->
    Split.main w args = Split.Returns 1 []
    \/ (exists e, Split.main w args = Split.Raises e)
    \/ Split.main w args = Split.RaisesAttributeError.
Proof.
  intros w args midi_file Hmidi Hno. unfold Split.main.
  destruct (Util.validate_inputs (Split.fs w) (Split.midi args) (Split.source args)
              (Split.output_dir args)); cbn [negb]; [|left; reflexivity].
  rewrite Hmidi.
  destruct (Beatmap.load_beatmap_from_synth (Split.from_synth w) (Split.source args))
    as [beatmap|]; [|right; right; reflexivity].
  pose proof (timeline_without_time_signature midi_file (Synth.bpm beatmap) Hno) as Hnone.
  destruct (Midi.extract_tempo_and_time_signature_changes midi_file (Synth.bpm beatmap))
    as [|entry cm] eqn:Hcm; [left; reflexivity|].
  destruct (segmenter_raises_without_time_signatures (entry :: cm)
              (Split.audio_duration w beatmap * 1000) (Synth.bpm beatmap) Hnone
              ltac:(discriminate)) as [e He].
  rewrite He. right. left. exists e. reflexivity.
Qed.

Lemma run_without_time_signature_saves_nothing_witness :
  Split.main (Examples.world_of (Ok Examples.midi_without_time_signature) true
                Examples.all_fine) Examples.command_line
  = Split.Raises TypeError.
Proof.
  destruct (run_without_time_signature_saves_nothing
              (Examples.world_of (Ok Examples.midi_without_time_signature) true
                 Examples.all_fine)
              Examples.command_line Examples.midi_without_time_signature
              eq_refl eq_refl) as [H|[[e H]|H]];
    vm_compute in H; try discriminate H.
  vm_compute. reflexivity.
Defined.

(* ================================================================== *)
(** * The filename codec: names that the encoder writes decode *)
(* ================================================================== *)

Section Matcher.

Lemma strip_prefix_append (t s : str) : strip_prefix t (t +++ s) = Some s.
Proof.
  induction t as [|c t IH]; cbn [app strip_prefix]; [destruct s; reflexivity|].
  unfold char_eqb. rewrite N.eqb_refl. exact IH.
Qed.

Lemma firstn_prefix (x y : str) : firstn (List.length x) (x +++ y) = x.
Proof.
  induction x as [|c x IH]; cbn [List.length app firstn]; [reflexivity|].
  rewrite IH. reflexivity.
Qed.

Lemma take_prefix (x y : str) : take (slen (x +++ y) - slen y) (x +++ y) = x.
Proof.
  unfold take. rewrite slen_append.
  replace (slen x + slen y - slen y) with (slen x) by lia.
  unfold slen. rewrite Nat2Z.id. apply firstn_prefix.
Qed.

Lemma rmatch_lit {A : Type} (t s : str) (g : groups) (k : str -> groups -> option A) :
  rmatch (RLit t) (t +++ s) g k = k s g.
Proof. cbn [rmatch]. rewrite strip_prefix_append. reflexivity. Qed.

(** A greedy run of digits takes all the digits there are, when what
    follows is accepted by the rest of the pattern. *)
Lemma plus_loop_digits {A : Type} (ds rest : str) (k : str -> option A) (x : A) :
  all_digits ds = true ->
  match rest with c :: _ => is_digit c = false | [] => True end ->
  k rest = Some x ->
  plus_loop true CDigit (ds +++ rest) k = Some x.
Proof.
  intros Hds Hrest Hk. induction ds as [|c ds IH]; cbn [app].
  - destruct rest as [|c rest]; cbn [plus_loop]; [exact Hk|].
    cbn [cls_match]. rewrite Hrest. exact Hk.
  - cbn [all_digits] in Hds. apply andb_prop in Hds. destruct Hds as [Hc Hds].
    cbn [plus_loop cls_match]. rewrite Hc, (IH Hds). reflexivity.
Qed.

(** A group captures what its pattern takes. *)
Lemma rmatch_group {A : Type} (n : nat) (r : regex) (x rest : str) (g : groups)
  (k : str -> groups -> option A) (v : A) :
  (forall k', k' rest g = Some v -> rmatch r (x +++ rest) g k' = Some v) ->
  k rest ((n, x) :: g) = Some v ->
  rmatch (RGroup n r) (x +++ rest) g k = Some v.
Proof.
  intros Hr Hk. cbn [rmatch]. apply Hr. rewrite take_prefix. exact Hk.
Qed.

Lemma rmatch_digits {A : Type} (ds rest : str) (g : groups)
  (k : str -> groups -> option A) (x : A) :
  all_digits ds = true -> ds <> "" ->
  match rest with c :: _ => is_digit c = false | [] => True end ->
  k rest g = Some x ->
  rmatch (RPlus true CDigit) (ds +++ rest) g k = Some x.
Proof.
  intros Hds Hne Hrest Hk. cbn [rmatch].
  destruct ds as [|c ds]; [congruence|]. cbn [app].
  cbn [all_digits] in Hds. apply andb_prop in Hds. destruct Hds as [Hc Hds].
  cbn [cls_match]. rewrite Hc.
  apply plus_loop_digits; assumption.
Qed.

Lemma split_point_spec (s : str) :
  match split_point s with
  | (ip, None) => s = ip
  | (ip, Some f) => s = ip +++ "."%chr :: f
  end.
Proof.
  induction s as [|c s IH]; cbn [split_point]; [reflexivity|].
  unfold char_eqb. destruct (N.eqb c "."%chr) eqn:E.
  - apply N.eqb_eq in E. subst. reflexivity.
  - destruct (split_point s) as [a [f|]]; cbn [app]; rewrite IH; reflexivity.
Qed.

Lemma slen_zero (s : str) : (slen s =? 0) = false -> s <> "".
Proof. intros H E. subst. discriminate H. Qed.

(** The pattern of a decimal takes a plain decimal whole, when what follows
    starts with neither a digit nor a point. *)
Lemma rmatch_decimal {A : Type} (d rest : str) (g : groups)
  (k : str -> groups -> option A) (x : A) :
  Spec.plain_decimal d = true ->
  match rest with
  | c :: _ => is_digit c = false /\ char_eqb "." c = false
  | [] => True
  end ->
  k rest g = Some x ->
  rmatch Merging.decimal (d +++ rest) g k = Some x.
Proof.
  intros Hd Hrest Hk. unfold Spec.plain_decimal in Hd.
  pose proof (split_point_spec d) as Hsplit.
  assert (Hrest' : match rest with c :: _ => is_digit c = false | [] => True end)
    by (destruct rest; [exact I|apply Hrest]).
  unfold Merging.decimal.
  change (rmatch (RPlus true CDigit;;; ROpt (RLit "." ;;; RPlus true CDigit)) (d +++ rest) g k)
    with (rmatch (RPlus true CDigit) (d +++ rest) g
            (fun s' g' => rmatch (ROpt (RLit "." ;;; RPlus true CDigit)) s' g' k)).
  destruct (split_point d) as [ip [f|]].
  - apply andb_prop in Hd. destruct Hd as [Hd Hf]. apply andb_prop in Hd.
    destruct Hd as [Hip Hipn]. apply andb_prop in Hf. destruct Hf as [Hf Hfn].
    apply negb_true_iff in Hipn, Hfn. apply slen_zero in Hipn, Hfn.
    subst d. rewrite append_assoc.
    apply rmatch_digits; [exact Hip|exact Hipn|reflexivity|].
    change (("."%chr :: f) +++ rest) with ("." +++ (f +++ rest)).
    cbn [rmatch]. rewrite strip_prefix_append.
    change (match f +++ rest with
            | a :: s' =>
                if cls_match CDigit a
                then plus_loop true CDigit s' (fun s'' => k s'' g)
                else None
            | [] => None
            end) with (rmatch (RPlus true CDigit) (f +++ rest) g k).
    rewrite (rmatch_digits f rest g k x Hf Hfn Hrest' Hk). reflexivity.
  - apply andb_prop in Hd. destruct Hd as [Hd _]. apply andb_prop in Hd.
    destruct Hd as [Hip Hipn]. apply negb_true_iff in Hipn. apply slen_zero in Hipn.
    subst d. apply rmatch_digits; [exact Hip|exact Hipn|exact Hrest'|].
    cbn [rmatch].
    assert (Hnone : strip_prefix "." rest = None).
    { destruct rest as [|c' rest]; [reflexivity|].
      cbn [strip_prefix]. destruct Hrest as [_ Hdot]. rewrite Hdot. reflexivity. }
    rewrite Hnone. exact Hk.
Qed.

(** The greedy [(.+)] at the end of the pattern takes all that is left. *)
Lemma plus_loop_any_to_end {A : Type} (s : str) (k : str -> option A) (x : A) :
  Spec.no_newline s = true -> k "" = Some x -> plus_loop true CAny s k = Some x.
Proof.
  intros Hs Hk. induction s as [|c s IH]; cbn [plus_loop]; [exact Hk|].
  cbn [Spec.no_newline] in Hs. apply andb_prop in Hs. destruct Hs as [Hc Hs].
  cbn [cls_match]. rewrite Hc, (IH Hs). reflexivity.
Qed.

Lemma rmatch_any_to_end {A : Type} (s : str) (g : groups)
  (k : str -> groups -> option A) (x : A) :
  s <> "" -> Spec.no_newline s = true -> k "" g = Some x ->
  rmatch (RPlus true CAny) (s +++ "") g k = Some x.
Proof.
  intros Hne Hs Hk. rewrite append_empty_r. cbn [rmatch].
  destruct s as [|c s]; [congruence|].
  cbn [Spec.no_newline] in Hs. apply andb_prop in Hs. destruct Hs as [Hc Hs].
  cbn [cls_match]. rewrite Hc. apply plus_loop_any_to_end; assumption.
Qed.

(** The lazy [(.+?)] at the start of the pattern stops at the first place
    where the rest of the pattern matches; inside a plain stem the rest,
    which wants an underscore and a digit, matches nowhere. *)
Lemma plus_loop_lazy_stem {A : Type} (tail rest : str) (k : str -> option A) (x : A) :
  Spec.no_underscore_digit tail = true ->
  (forall c d s, char_eqb c "_" = false \/ is_digit d = false ->
                 k (c :: d :: s) = None) ->
  match rest with
  | c :: _ => char_eqb c "_" = true
  | [] => False
  end ->
  k rest = Some x ->
  plus_loop false CAny (tail +++ rest) k = Some x.
Proof.
  intros Htail Hfail Hrest Hk.
  destruct rest as [|r0 rest]; try contradiction.
  assert (Hr0d : is_digit r0 = false).
  { unfold char_eqb in Hrest. apply N.eqb_eq in Hrest. subst r0. reflexivity. }
  induction tail as [|c tail IH]; cbn [app].
  - cbn [plus_loop]. rewrite Hk. destruct (cls_match CAny r0); reflexivity.
  - cbn [Spec.no_underscore_digit] in Htail. apply andb_prop in Htail.
    destruct Htail as [Htail Hrec]. apply andb_prop in Htail. destruct Htail as [Hc Hnext].
    cbn [plus_loop cls_match]. rewrite Hc.
    assert (Hnone : k (c :: tail +++ r0 :: rest) = None).
    { destruct tail as [|d tail]; cbn [app].
      - apply Hfail. destruct (char_eqb c "_"); [right; exact Hr0d|left; reflexivity].
      - apply Hfail. destruct (char_eqb c "_");
          [right; apply negb_true_iff; exact Hnext|left; reflexivity]. }
    rewrite Hnone. apply IH. exact Hrec.
Qed.

Lemma seq_lit {A : Type} (t s : str) (g : groups) (r : regex)
  (k : str -> groups -> option A) (v : A) :
  rmatch r s g k = Some v -> rmatch (RLit t ;;; r) (t +++ s) g k = Some v.
Proof. intros H. cbn [rmatch]. rewrite strip_prefix_append. exact H. Qed.

Lemma group_digits {A : Type} (n : nat) (ds rest : str) (g : groups)
  (k : str -> groups -> option A) (v : A) :
  all_digits ds = true -> ds <> "" ->
  match rest with c :: _ => is_digit c = false | [] => True end ->
  k rest ((n, ds) :: g) = Some v ->
  rmatch (RGroup n (RPlus true CDigit)) (ds +++ rest) g k = Some v.
Proof.
  intros Hds Hne Hrest Hk. apply rmatch_group; [|exact Hk].
  intros k' Hk'. apply rmatch_digits; assumption.
Qed.

Lemma seq_group_digits {A : Type} (n : nat) (ds rest : str) (g : groups) (r : regex)
  (k : str -> groups -> option A) (v : A) :
  all_digits ds = true -> ds <> "" ->
  match rest with c :: _ => is_digit c = false | [] => True end ->
  rmatch r rest ((n, ds) :: g) k = Some v ->
  rmatch (RGroup n (RPlus true CDigit) ;;; r) (ds +++ rest) g k = Some v.
Proof.
  intros Hds Hne Hrest Hk.
  change (rmatch (RGroup n (RPlus true CDigit) ;;; r) (ds +++ rest) g k)
    with (rmatch (RGroup n (RPlus true CDigit)) (ds +++ rest) g
            (fun s' g' => rmatch r s' g' k)).
  apply group_digits; assumption.
Qed.

Lemma seq_group_decimal {A : Type} (n : nat) (d rest : str) (g : groups) (r : regex)
  (k : str -> groups -> option A) (v : A) :
  Spec.plain_decimal d = true ->
  match rest with
  | c :: _ => is_digit c = false /\ char_eqb "." c = false
  | [] => True
  end ->
  rmatch r rest ((n, d) :: g) k = Some v ->
  rmatch (RGroup n Merging.decimal ;;; r) (d +++ rest) g k = Some v.
Proof.
  intros Hd Hrest Hk.
  change (rmatch (RGroup n Merging.decimal ;;; r) (d +++ rest) g k)
    with (rmatch (RGroup n Merging.decimal) (d +++ rest) g
            (fun s' g' => rmatch r s' g' k)).
  apply rmatch_group; [|exact Hk].
  intros k' Hk'. apply rmatch_decimal; assumption.
Qed.

Lemma seq_opt {A : Type} (inner r : regex) (s : str) (g : groups)
  (k : str -> groups -> option A) (v : A) :
  rmatch inner s g (fun s' g' => rmatch r s' g' k) = Some v ->
  rmatch (ROpt inner ;;; r) s g k = Some v.
Proof. intros H. cbn [rmatch]. cbn [rmatch] in H. rewrite H. reflexivity. Qed.

Lemma group_any_to_end {A : Type} (n : nat) (s : str) (g : groups)
  (k : str -> groups -> option A) (v : A) :
  s <> "" -> Spec.no_newline s = true -> k "" ((n, s) :: g) = Some v ->
  rmatch (RGroup n (RPlus true CAny)) s g k = Some v.
Proof.
  intros Hne Hs Hk. rewrite <- (append_empty_r s) at 1.
  apply rmatch_group; [|exact Hk].
  intros k' Hk'. apply rmatch_any_to_end; assumption.
Qed.

Lemma seq_group_lazy_stem {A : Type} (stem rest : str) (r : regex)
  (k : str -> groups -> option A) (v : A) :
  Spec.plain_stem stem = true ->
  match rest with
  | c :: _ => char_eqb c "_" = true
  | [] => False
  end ->
  (forall c d s g, char_eqb c "_" = false \/ is_digit d = false ->
                   rmatch r (c :: d :: s) g k = None) ->
  rmatch r rest [(1%nat, stem)] k = Some v ->
  rmatch (RGroup 1 (RPlus false CAny) ;;; r) (stem +++ rest) [] k = Some v.
Proof.
  intros Hstem Hrest Hfail Hk. destruct stem as [|c0 tail]; [discriminate Hstem|].
  cbn [Spec.plain_stem] in Hstem. apply andb_prop in Hstem. destruct Hstem as [Hc0 Htail].
  cbn [rmatch app cls_match]. rewrite Hc0.
  apply plus_loop_lazy_stem; [exact Htail| |exact Hrest|].
  - intros c d s Hcd. apply Hfail. exact Hcd.
  - change (c0 :: (tail +++ rest)) with ((c0 :: tail) +++ rest).
    rewrite take_prefix. exact Hk.
Qed.

Lemma underscore_digits_fails {A : Type} (n : nat) (r : regex) (c d : char) (s : str)
  (g : groups) (k : str -> groups -> option A) :
  char_eqb c "_" = false \/ is_digit d = false ->
  rmatch (RLit "_" ;;; RGroup n (RPlus true CDigit) ;;; r) (c :: d :: s) g k = None.
Proof.
  intros H. cbn [rmatch strip_prefix].
  destruct (char_eqb "_" c) eqn:E; [|reflexivity].
  cbn [cls_match]. destruct H as [H|H].
  - unfold char_eqb in *. rewrite N.eqb_sym in E. congruence.
  - rewrite H. reflexivity.
Qed.

(** The filename pattern on a name of the encoder's shape: each group takes
    its field. *)
Lemma pattern_matches_encoded_name (stem seq bpm n d a b c ext : str) :
  Spec.plain_stem stem = true ->
  all_digits seq = true -> seq <> "" ->
  Spec.plain_decimal bpm = true ->
  all_digits n = true -> n <> "" ->
  all_digits d = true -> d <> "" ->
  Spec.plain_decimal a = true -> Spec.plain_decimal b = true ->
  Spec.plain_decimal c = true ->
  ext <> "" -> Spec.no_newline ext = true ->
  re_match Merging.pattern
    (stem +++ "_" +++ seq +++ "_BPM" +++ bpm +++ "_TimeSignature" +++ n +++ "-" +++ d
     +++ "_" +++ a +++ "s-" +++ b +++ "s_dur" +++ c +++ "s_Segment." +++ ext)
  = Some [(9%nat, ext); (8%nat, c); (7%nat, b); (6%nat, a); (5%nat, d); (4%nat, n);
          (3%nat, bpm); (2%nat, seq); (1%nat, stem)].
Proof.
  intros Hstem Hseq Hseqn Hbpm Hn Hnn Hd Hdn Ha Hb Hc Hext Hnl.
  unfold re_match, Merging.pattern.
  apply seq_group_lazy_stem; [exact Hstem|reflexivity| |].
  { intros c1 d1 s g H. apply underscore_digits_fails. exact H. }
  apply seq_lit.
  apply seq_group_digits; [exact Hseq|exact Hseqn|reflexivity|].
  apply seq_lit.
  apply seq_group_decimal; [exact Hbpm|split; reflexivity|].
  apply seq_opt.
  change (rmatch
            (RLit "_TimeSignature" ;;; RGroup 4 (RPlus true CDigit) ;;; RLit "-" ;;;
             RGroup 5 (RPlus true CDigit))
            ("_TimeSignature" +++ n +++ "-" +++ d +++ "_" +++ a +++ "s-" +++ b +++ "s_dur"
             +++ c +++ "s_Segment." +++ ext)
            [(3%nat, bpm); (2%nat, seq); (1%nat, stem)]
            (fun s' g' =>
               rmatch (RLit "_" ;;; RGroup 6 Merging.decimal ;;; RLit "s-" ;;;
                       RGroup 7 Merging.decimal ;;; RLit "s_dur" ;;;
                       RGroup 8 Merging.decimal ;;; RLit "s_Segment." ;;;
                       RGroup 9 (RPlus true CAny)) s' g' (fun _ g => Some g))
          = Some [(9%nat, ext); (8%nat, c); (7%nat, b); (6%nat, a); (5%nat, d); (4%nat, n);
                  (3%nat, bpm); (2%nat, seq); (1%nat, stem)]).
  apply seq_lit.
  apply seq_group_digits; [exact Hn|exact Hnn|reflexivity|].
  apply seq_lit.
  apply group_digits; [exact Hd|exact Hdn|reflexivity|].
  apply seq_lit.
  apply seq_group_decimal; [exact Ha|split; reflexivity|].
  apply seq_lit.
  apply seq_group_decimal; [exact Hb|split; reflexivity|].
  apply seq_lit.
  apply seq_group_decimal; [exact Hc|split; reflexivity|].
  apply seq_lit.
  apply group_any_to_end; [exact Hext|exact Hnl|reflexivity].
Qed.

End Matcher.

Lemma int_of_str_digits (s : str) :
  all_digits s = true -> s <> "" -> slen s <= int_max_str_digits ->
  int_of_str (Some s) = Ok (digits_value s 0).
Proof.
  intros Hs Hne Hlen. unfold int_of_str. destruct s as [|c s]; [congruence|].
  rewrite Hs. replace (int_max_str_digits <? slen (c :: s)) with false
    by (symmetry; apply Z.ltb_ge; exact Hlen).
  reflexivity.
Qed.

Lemma float_of_str_plain (s : str) :
  Spec.plain_decimal s = true -> exists x, float_of_str (Some s) = Ok x.
Proof.
  unfold Spec.plain_decimal, float_of_str. destruct (split_point s) as [ip [f|]]; intros H.
  - apply andb_prop in H. destruct H as [H Hf]. apply andb_prop in H. destruct H as [Hip Hipn].
    apply andb_prop in Hf. destruct Hf as [Hf Hfn].
    rewrite Hip, Hf, Hipn, Hfn. cbn [andb]. eauto.
  - apply andb_prop in H. destruct H as [H _]. apply andb_prop in H. destruct H as [Hip Hipn].
    rewrite Hip, Hipn. cbn [all_digits andb]. eauto.
Qed.

(** [str(n)] for a number that [str] can write: its digits, which [int]
    reads back. *)
Lemma str_of_int_digits (n : Z) :
  0 <= n < 10 ^ int_max_str_digits ->
  str_of_int n = Ok (str_of_nonneg n)
  /\ all_digits (str_of_nonneg n) = true /\ str_of_nonneg n <> ""
  /\ slen (str_of_nonneg n) <= int_max_str_digits
  /\ digits_value (str_of_nonneg n) 0 = n.
Proof.
  intros Hn.
  destruct (str_of_nonneg_spec n ltac:(lia)) as [Hall [Hlen _]].
  split; [apply str_of_int_fits; exact Hn|].
  split; [exact Hall|]. split.
  - intros E. rewrite E in Hlen. unfold slen in Hlen. cbn in Hlen. lia.
  - split; [|apply str_of_nonneg_value; lia].
    apply str_of_nonneg_fits; [exact Hn|]. unfold int_max_str_digits. lia.
Qed.

(** The names that the encoder writes decode, and to the fields they were
    written from.  For a source whose stem is plain (no underscore that a
    decimal digit follows, no newline) and whose suffix is a point and an
    extension, an index and a count that are not negative, a segment with a
    time signature of non-negative numbers, all these numbers below
    [10 ^ 4300] (what [str] and [int] convert), and a BPM and times that
    print as plain decimals (digits, optionally a point and digits): the
    encoder returns a name, and the decoder returns for it the stem, the
    sequence number [index + 1], the time signature, the extension, and for
    the BPM and the three times the floats that their printed texts
    denote. *)
Theorem encoded_names_decode :
  forall (base_path : str) (index total_count : Z) (segment : Segment)
         (ts : TimeSignature) (stem ext : str),
    path_stem base_path = stem ->
    path_suffix base_path = "."%chr :: ext ->
    Spec.plain_stem stem = true ->
    ext <> "" -> Spec.no_newline ext = true ->
    0 <= index -> index + 1 < 10 ^ int_max_str_digits ->
    0 <= total_count < 10 ^ int_max_str_digits ->
    seg_time_signature segment = Some ts ->
    0 <= numerator ts < 10 ^ int_max_str_digits ->
    0 <= denominator ts < 10 ^ int_max_str_digits ->
    Spec.plain_decimal (format_g (seg_bpm segment)) = true ->
    Spec.plain_decimal (Util.seconds_str (start_ms segment / 1000)) = true ->
    Spec.plain_decimal (Util.seconds_str (end_ms segment / 1000)) = true ->
    Spec.plain_decimal (Util.seconds_str (duration_ms segment / 1000)) = true ->
    exists name info,
      Util.generate_segment_filename base_path index total_count segment = Ok name
      /\ Merging.parse_segment_filename name = Ok info
      /\ Merging.base_name info = Some stem
      /\ Merging.segment_number info = index + 1
      /\ Merging.time_signature info = Some ts
      /\ Merging.file_extension info = Some ext
      /\ float_of_str (Some (format_g (seg_bpm segment))) = Ok (Merging.bpm info)
      /\ float_of_str (Some (Util.seconds_str (start_ms segment / 1000)))
         = Ok (Merging.start_time info)
      /\ float_of_str (Some (Util.seconds_str (end_ms segment / 1000)))
         = Ok (Merging.end_time info)
      /\ float_of_str (Some (Util.seconds_str (duration_ms segment / 1000)))
         = Ok (Merging.duration info).
Proof.
  intros base_path index total segment ts stem ext Hstem Hsuffix Hplain Hext Hnl
         Hindex Hindex' Htotal Hts Hnum Hden Hbpm Hstart Hend Hdur.
  destruct (str_of_int_digits total Htotal) as [Etotal [_ [_ [Htl _]]]].
  destruct (str_of_int_digits (index + 1) ltac:(lia)) as [Eindex [_ [_ [Hil _]]]].
  destruct (zfill_number (index + 1) (slen (str_of_nonneg total)) ltac:(lia))
    as [Hseq [Hseqlen [Hseqval _]]].
  pose proof (zfill_number_width (index + 1) (slen (str_of_nonneg total)) ltac:(lia))
    as Hseqw.
  destruct (str_of_int_digits (numerator ts) Hnum) as [En [Hn [Hnn [Hnl' Hnv]]]].
  destruct (str_of_int_digits (denominator ts) Hden) as [Ed [Hd [Hdn [Hdl Hdv]]]].
  assert (Hseqn : zfill (str_of_nonneg (index + 1)) (slen (str_of_nonneg total)) <> "").
  { intros E. rewrite E in Hseqlen. unfold slen in Hseqlen. cbn in Hseqlen. lia. }
  assert (Hname :
    Util.generate_segment_filename base_path index total segment
    = Ok (stem +++ "_" +++ zfill (str_of_nonneg (index + 1)) (slen (str_of_nonneg total))
          +++ "_BPM" +++ format_g (seg_bpm segment)
          +++ "_TimeSignature" +++ str_of_nonneg (numerator ts) +++ "-"
          +++ str_of_nonneg (denominator ts)
          +++ "_" +++ Util.seconds_str (start_ms segment / 1000)
          +++ "s-" +++ Util.seconds_str (end_ms segment / 1000)
          +++ "s_dur" +++ Util.seconds_str (duration_ms segment / 1000)
          +++ "s_Segment." +++ ext)).
  { unfold Util.generate_segment_filename.
    rewrite Etotal. cbn [Py.bind]. rewrite Eindex. cbn [Py.bind].
    rewrite Hts, En. cbn [Py.bind]. rewrite Ed. cbn [Py.bind].
    rewrite Hstem, Hsuffix.
    rewrite !append_assoc. reflexivity. }
  pose proof (pattern_matches_encoded_name stem _ _ _ _ _ _ _ ext
                Hplain Hseq Hseqn Hbpm Hn Hnn Hd Hdn Hstart Hend Hdur Hext Hnl) as Hmatch.
  destruct (float_of_str_plain _ Hbpm) as [fbpm Hfbpm].
  destruct (float_of_str_plain _ Hstart) as [fstart Hfstart].
  destruct (float_of_str_plain _ Hend) as [fend Hfend].
  destruct (float_of_str_plain _ Hdur) as [fdur Hfdur].
  eexists. eexists. split; [exact Hname|]. split.
  - unfold Merging.parse_segment_filename. rewrite Hmatch.
    cbn [group Nat.eqb].
    rewrite (int_of_str_digits _ Hseq Hseqn ltac:(lia)). cbn [Py.bind].
    rewrite Hfbpm. cbn [Py.bind].
    rewrite (int_of_str_digits _ Hn Hnn Hnl'). cbn [Py.bind].
    rewrite (int_of_str_digits _ Hd Hdn Hdl). cbn [Py.bind].
    rewrite Hfstart. cbn [Py.bind]. rewrite Hfend. cbn [Py.bind].
    rewrite Hfdur. cbn [Py.bind]. reflexivity.
  - cbn [Merging.base_name Merging.segment_number Merging.time_signature
         Merging.file_extension Merging.bpm Merging.start_time Merging.end_time
         Merging.duration].
    rewrite Hseqval, Hnv, Hdv. destruct ts as [nu de]. cbn [numerator denominator].
    repeat (split; [reflexivity || assumption|]). assumption.
Qed.

Lemma encoded_names_decode_witness :
  exists name info,
    Util.generate_segment_filename "maps/The_Crowing.synth" 11 120
      (Examples.segment_of 61500 228706 172.5 {| numerator := 6; denominator := 8 |})
    = Ok name
    /\ Merging.parse_segment_filename name = Ok info
    /\ Merging.base_name info = Some "The_Crowing"
    /\ Merging.segment_number info = 12
    /\ Merging.time_signature info = Some {| numerator := 6; denominator := 8 |}
    /\ Merging.file_extension info = Some "synth"
    /\ Merging.bpm info = 172.5%float
    /\ Merging.start_time info = 61.5%float
    /\ Merging.end_time info = 228.706%float.
Proof.
  assert (Hpow : 1000 < 10 ^ int_max_str_digits).
  { change 1000 with (10 ^ 3). apply Z.pow_lt_mono_r; unfold int_max_str_digits; lia. }
  destruct (encoded_names_decode "maps/The_Crowing.synth" 11 120
              (Examples.segment_of 61500 228706 172.5 {| numerator := 6; denominator := 8 |})
              {| numerator := 6; denominator := 8 |} "The_Crowing" "synth"
              ltac:(vm_compute; reflexivity) ltac:(vm_compute; reflexivity)
              ltac:(vm_compute; reflexivity) ltac:(discriminate)
              ltac:(vm_compute; reflexivity) ltac:(lia) ltac:(lia) ltac:(lia) eq_refl
              ltac:(cbn [numerator]; lia) ltac:(cbn [denominator]; lia)
              ltac:(vm_compute; reflexivity) ltac:(vm_compute; reflexivity)
              ltac:(vm_compute; reflexivity) ltac:(vm_compute; reflexivity))
    as [name [info [Hname [Hparse [Hbase [Hnum [Hts [Hext [Hbpm [Hstart [Hend _]]]]]]]]]]].
  exists name, info. repeat (split; [assumption|]).
  vm_compute in Hbpm, Hstart, Hend.
  inversion Hbpm. inversion Hstart. inversion Hend. auto.
Defined.

(* ================================================================== *)
(** * The tempo events of a MIDI structure (midi.py) *)
(* ================================================================== *)

Lemma track_tempo_events_spec (idx : Z) :
  forall (msgs : list Midi.Message) (t0 : Z) (e : Midi.TempoEvent),
    In e (Midi.track_tempo_events idx msgs t0)
    <-> exists p msg,
          nth_error msgs p = Some msg
          /\ Midi.msg_type msg = Midi.SetTempo (Midi.tempo e)
          /\ Midi.track e = idx
          /\ Midi.time_ticks e
             = t0 + fold_right Z.add 0 (map Midi.msg_time (firstn (S p) msgs)).
Proof.
  induction msgs as [|m rest IH]; intros t0 e; cbn [Midi.track_tempo_events].
  - split; [contradiction|]. intros [p [msg [Hp _]]]. destruct p; discriminate Hp.
  - assert (Hrest :
      In e (Midi.track_tempo_events idx rest (t0 + Midi.msg_time m))
      <-> exists p msg,
            nth_error (m :: rest) (S p) = Some msg
            /\ Midi.msg_type msg = Midi.SetTempo (Midi.tempo e)
            /\ Midi.track e = idx
            /\ Midi.time_ticks e
               = t0 + fold_right Z.add 0
                        (map Midi.msg_time (firstn (S (S p)) (m :: rest)))).
    { rewrite IH. split; intros [p [msg [Hp [Hty [Htr Hti]]]]]; exists p, msg;
        (split; [exact Hp|]); (split; [exact Hty|]); (split; [exact Htr|]);
        change (firstn (S (S p)) (m :: rest)) with (m :: firstn (S p) rest) in *;
        cbn [map fold_right] in *; lia. }
    assert (Hlater :
      (exists p msg,
          nth_error (m :: rest) (S p) = Some msg
          /\ Midi.msg_type msg = Midi.SetTempo (Midi.tempo e)
          /\ Midi.track e = idx
          /\ Midi.time_ticks e
             = t0 + fold_right Z.add 0
                      (map Midi.msg_time (firstn (S (S p)) (m :: rest))))
      -> exists p msg,
          nth_error (m :: rest) p = Some msg
          /\ Midi.msg_type msg = Midi.SetTempo (Midi.tempo e)
          /\ Midi.track e = idx
          /\ Midi.time_ticks e
             = t0 + fold_right Z.add 0 (map Midi.msg_time (firstn (S p) (m :: rest)))).
    { intros [p [msg H]]. exists (S p), msg. exact H. }
    destruct (Midi.msg_type m) as [tp|nu de cl n32|] eqn:Hm.
    + split.
      * intros [Heq|Hin].
        -- subst e. exists 0%nat, m. cbn. split; [reflexivity|]. split; [exact Hm|].
           split; [reflexivity|lia].
        -- apply Hlater, Hrest, Hin.
      * intros [[|p] [msg [Hp [Hty [Htr Hti]]]]].
        -- left. cbn in Hp, Hti. inversion Hp; subst msg. rewrite Hm in Hty.
           inversion Hty; subst tp. destruct e as [ti te tr]. cbn in *. f_equal; lia.
        -- right. apply Hrest. exists p, msg. auto.
    + split.
      * intros Hin. apply Hlater, Hrest, Hin.
      * intros [[|p] [msg [Hp [Hty [Htr Hti]]]]].
        -- cbn in Hp. inversion Hp; subst msg. congruence.
        -- apply Hrest. exists p, msg. auto.
    + split.
      * intros Hin. apply Hlater, Hrest, Hin.
      * intros [[|p] [msg [Hp [Hty [Htr Hti]]]]].
        -- cbn in Hp. inversion Hp; subst msg. congruence.
        -- apply Hrest. exists p, msg. auto.
Qed.

Lemma all_tracks_tempo_events_spec :
  forall (trs : list (list Midi.Message)) (n : Z) (e : Midi.TempoEvent),
    In e (Midi.all_tracks_tempo_events n trs)
    <-> exists tr msgs,
          nth_error trs tr = Some msgs
          /\ In e (Midi.track_tempo_events (n + Z.of_nat tr) msgs 0).
Proof.
  induction trs as [|t trs IH]; intros n e; cbn [Midi.all_tracks_tempo_events].
  - split; [contradiction|]. intros [tr [msgs [Htr _]]]. destruct tr; discriminate Htr.
  - rewrite in_app_iff, IH. split.
    + intros [Hin|[tr [msgs [Htr Hin]]]].
      * exists 0%nat, t. split; [reflexivity|]. rewrite Z.add_0_r. exact Hin.
      * exists (S tr), msgs. split; [exact Htr|].
        replace (n + Z.of_nat (S tr)) with (n + 1 + Z.of_nat tr) by lia. exact Hin.
    + intros [[|tr] [msgs [Htr Hin]]].
      * left. cbn in Htr. inversion Htr; subst msgs. rewrite Z.add_0_r in Hin. exact Hin.
      * right. exists tr, msgs. split; [exact Htr|].
        replace (n + 1 + Z.of_nat tr) with (n + Z.of_nat (S tr)) by lia. exact Hin.
Qed.

(** The tempo events of a MIDI structure are its [set_tempo] messages, each
    with the index of its track and, as its tick, the sum of the deltas of
    the messages of the track up to and including it; they come out in
    ascending order of tick. *)
Theorem tempo_events_are_the_tempo_messages_by_tick :
  forall midi_file : Midi.MidiFile,
    StronglySorted (fun a b => Midi.time_ticks a <= Midi.time_ticks b)
      (Midi.extract_tempo_changes midi_file)
    /\ forall e : Midi.TempoEvent,
         In e (Midi.extract_tempo_changes midi_file)
         <-> exists tr msgs p msg,
               nth_error (Midi.tracks midi_file) tr = Some msgs
               /\ nth_error msgs p = Some msg
               /\ Midi.msg_type msg = Midi.SetTempo (Midi.tempo e)
               /\ Midi.track e = Z.of_nat tr
               /\ Midi.time_ticks e
                  = fold_right Z.add 0 (map Midi.msg_time (firstn (S p) msgs)).
Proof.
  intros midi_file. unfold Midi.extract_tempo_changes. split.
  - apply Sorted_StronglySorted; [intros a b c; lia|].
    apply (sorted_Sorted _ (fun a b => Midi.time_ticks a <= Midi.time_ticks b)
             (fun _ => True)).
    + intros x y H. apply Z.ltb_lt in H. lia.
    + intros x y _ _ H. apply Z.ltb_ge in H. exact H.
    + apply Forall_forall. intros; exact I.
  - intros e. rewrite sorted_In, all_tracks_tempo_events_spec. split.
    + intros [tr [msgs [Htr Hin]]]. apply track_tempo_events_spec in Hin.
      destruct Hin as [p [msg [Hp [Hty [Htrack Hti]]]]].
      exists tr, msgs, p, msg. repeat (split; [assumption || lia|]). lia.
    + intros [tr [msgs [p [msg [Htr [Hp [Hty [Htrack Hti]]]]]]]].
      exists tr, msgs. split; [exact Htr|]. apply track_tempo_events_spec.
      exists p, msg. repeat (split; [assumption || lia|]). lia.
Qed.

(* ================================================================== *)
(** * What the decoder returns (merging.py) *)
(* ================================================================== *)

Lemma int_of_str_nonneg (s : option str) (z : Z) : int_of_str s = Ok z -> 0 <= z.
Proof. intros H. apply (int_of_str_range s z H). Qed.

(** Whatever name decodes, the decoded numbers are well formed: the
    sequence number and the two numbers of the time signature are not
    negative, and the BPM and the three times are not NaN. *)
Theorem decoded_numbers_are_well_formed :
  forall (filename : str) (info : Merging.SegmentInfo),
    Merging.parse_segment_filename filename = Ok info ->
    0 <= Merging.segment_number info
    /\ (exists ts, Merging.time_signature info = Some ts
                   /\ 0 <= numerator ts /\ 0 <= denominator ts)
    /\ is_nan (Merging.bpm info) = false
    /\ is_nan (Merging.start_time info) = false
    /\ is_nan (Merging.end_time info) = false
    /\ is_nan (Merging.duration info) = false.
Proof.
  intros filename info H. unfold Merging.parse_segment_filename in H.
  destruct (re_match Merging.pattern filename) as [m|]; [|discriminate].
  bind_as H number Hnumber. bind_as H bpm Hbpm.
  bind_as H nu Hnu. bind_as H de Hde.
  bind_as H start Hstart. bind_as H end_ Hend. bind_as H dur Hdur.
  inversion H; subst info. clear H.
  cbn [Merging.segment_number Merging.time_signature Merging.bpm Merging.start_time
       Merging.end_time Merging.duration].
  split; [apply (int_of_str_nonneg _ _ Hnumber)|].
  split.
  { eexists. split; [reflexivity|]. cbn [numerator denominator].
    split; [apply (int_of_str_nonneg _ _ Hnu)|apply (int_of_str_nonneg _ _ Hde)]. }
  split; [apply (float_of_str_not_nan _ _ Hbpm)|].
  split; [apply (float_of_str_not_nan _ _ Hstart)|].
  split; [apply (float_of_str_not_nan _ _ Hend)|apply (float_of_str_not_nan _ _ Hdur)].
Qed.

Lemma decoded_numbers_are_well_formed_witness :
  exists info,
    Merging.parse_segment_filename Examples.six_eight_name = Ok info
    /\ 0 <= Merging.segment_number info
    /\ is_nan (Merging.start_time info) = false.
Proof.
  destruct (Merging.parse_segment_filename Examples.six_eight_name) as [info|e] eqn:Hparse;
    [|vm_compute in Hparse; discriminate Hparse].
  destruct (decoded_numbers_are_well_formed _ _ Hparse) as [Hn [_ [_ [Hs _]]]].
  exists info. auto.
Defined.

(* ================================================================== *)
(** * The filename codec: what the decoder does with any name *)
(* ================================================================== *)

Section MatcherSound.

Lemma strip_prefix_sound (t s s' : str) : strip_prefix t s = Some s' -> s = t +++ s'.
Proof.
  revert s. induction t as [|c t IH]; intros s H; cbn [strip_prefix] in H.
  - inversion H. reflexivity.
  - destruct s as [|d s]; [discriminate|].
    unfold char_eqb in H. destruct (N.eqb c d) eqn:E; [|discriminate].
    apply N.eqb_eq in E. subst d. cbn [app]. f_equal. apply IH, H.
Qed.

(** What a repetition takes is a run of characters of its class, and the
    rest of the pattern accepts what is left. *)
Lemma plus_loop_sound {A : Type} (greedy : bool) (c : cls) (s : str)
  (k : str -> option A) (v : A) :
  plus_loop greedy c s k = Some v ->
  exists cs s', s = cs +++ s'
                /\ (c = CDigit -> all_digits cs = true)
                /\ k s' = Some v.
Proof.
  induction s as [|a s IH]; cbn [plus_loop]; intros H.
  - exists "", "". split; [reflexivity|]. split; [reflexivity|exact H].
  - assert (Hstop : k (a :: s) = Some v ->
                    exists cs s', a :: s = cs +++ s'
                                  /\ (c = CDigit -> all_digits cs = true)
                                  /\ k s' = Some v).
    { intros Hk. exists "", (a :: s). split; [reflexivity|]. split; [reflexivity|exact Hk]. }
    assert (Hmore : cls_match c a = true -> plus_loop greedy c s k = Some v ->
                    exists cs s', a :: s = cs +++ s'
                                  /\ (c = CDigit -> all_digits cs = true)
                                  /\ k s' = Some v).
    { intros Ha Hl. destruct (IH Hl) as [cs [s' [Hs [Hcs Hk]]]].
      exists (a :: cs), s'. split; [cbn [app]; rewrite Hs; reflexivity|].
      split; [|exact Hk]. intros Hc. subst c. cbn [all_digits].
      cbn [cls_match] in Ha. rewrite Ha, (Hcs eq_refl). reflexivity. }
    destruct (cls_match c a) eqn:Ha; [|apply Hstop, H].
    destruct greedy.
    + destruct (plus_loop true c s k) eqn:Hl; [inversion H; subst; apply Hmore; auto|].
      apply Hstop, H.
    + destruct (k (a :: s)) eqn:Hk; [inversion H; subst; apply Hstop; reflexivity|].
      apply Hmore; [reflexivity|exact H].
Qed.

Lemma sound_plus {A : Type} (greedy : bool) (c : cls) (s : str) (g : groups)
  (k : str -> groups -> option A) (v : A) :
  rmatch (RPlus greedy c) s g k = Some v ->
  exists x s', s = x +++ s' /\ x <> ""
               /\ (c = CDigit -> all_digits x = true)
               /\ k s' g = Some v.
Proof.
  cbn [rmatch]. destruct s as [|a s]; [discriminate|].
  destruct (cls_match c a) eqn:Ha; [|discriminate]. intros H.
  destruct (plus_loop_sound _ _ _ _ _ H) as [cs [s' [Hs [Hcs Hk]]]].
  exists (a :: cs), s'. split; [cbn [app]; rewrite Hs; reflexivity|].
  split; [discriminate|]. split; [|exact Hk].
  intros Hc. subst c. cbn [all_digits]. cbn [cls_match] in Ha.
  rewrite Ha, (Hcs eq_refl). reflexivity.
Qed.

Lemma sound_group {A : Type} (n : nat) (r : regex) (s : str) (g : groups)
  (k : str -> groups -> option A) (v : A) (P : str -> Prop) :
  (forall k', rmatch r s g k' = Some v ->
              exists x s', s = x +++ s' /\ P x /\ k' s' g = Some v) ->
  rmatch (RGroup n r) s g k = Some v ->
  exists x s', s = x +++ s' /\ P x /\ k s' ((n, x) :: g) = Some v.
Proof.
  intros Hr H. cbn [rmatch] in H.
  destruct (Hr _ H) as [x [s' [Hs [Hx Hk]]]].
  exists x, s'. split; [exact Hs|]. split; [exact Hx|].
  rewrite Hs, take_prefix in Hk. exact Hk.
Qed.

Lemma sound_lit {A : Type} (t s : str) (g : groups) (r : regex)
  (k : str -> groups -> option A) (v : A) :
  rmatch (RLit t ;;; r) s g k = Some v ->
  exists s', s = t +++ s' /\ rmatch r s' g k = Some v.
Proof.
  cbn [rmatch]. destruct (strip_prefix t s) as [s'|] eqn:E; [|discriminate].
  intros H. exists s'. split; [apply strip_prefix_sound, E|exact H].
Qed.

Lemma sound_group_digits {A : Type} (n : nat) (s : str) (g : groups)
  (k : str -> groups -> option A) (v : A) :
  rmatch (RGroup n (RPlus true CDigit)) s g k = Some v ->
  exists ds s', s = ds +++ s' /\ (all_digits ds = true /\ ds <> "")
                /\ k s' ((n, ds) :: g) = Some v.
Proof.
  apply sound_group. intros k' H.
  destruct (sound_plus _ _ _ _ _ _ H) as [x [s' [Hs [Hne [Hx Hk]]]]].
  exists x, s'. split; [exact Hs|]. split; [|exact Hk]. split; [apply Hx; reflexivity|exact Hne].
Qed.

Lemma sound_group_any {A : Type} (n : nat) (greedy : bool) (s : str) (g : groups)
  (k : str -> groups -> option A) (v : A) :
  rmatch (RGroup n (RPlus greedy CAny)) s g k = Some v ->
  exists x s', s = x +++ s' /\ x <> "" /\ k s' ((n, x) :: g) = Some v.
Proof.
  apply sound_group. intros k' H.
  destruct (sound_plus _ _ _ _ _ _ H) as [x [s' [Hs [Hne [_ Hk]]]]].
  exists x, s'. auto.
Qed.

Lemma split_point_digits (ip : str) : all_digits ip = true -> split_point ip = (ip, None).
Proof.
  induction ip as [|c ip IH]; cbn [all_digits split_point]; intros H; [reflexivity|].
  apply andb_prop in H. destruct H as [Hc Hip].
  unfold char_eqb. destruct (N.eqb c "."%chr) eqn:E.
  - apply N.eqb_eq in E. subst c. discriminate Hc.
  - rewrite (IH Hip). reflexivity.
Qed.

Lemma split_point_fraction (ip f : str) :
  all_digits ip = true -> split_point (ip +++ "."%chr :: f) = (ip, Some f).
Proof.
  induction ip as [|c ip IH]; cbn [all_digits app split_point]; intros H;
    [reflexivity|].
  apply andb_prop in H. destruct H as [Hc Hip].
  unfold char_eqb. destruct (N.eqb c "."%chr) eqn:E.
  - apply N.eqb_eq in E. subst c. discriminate Hc.
  - rewrite (IH Hip). reflexivity.
Qed.

Lemma slen_nonzero (s : str) : s <> "" -> negb (slen s =? 0) = true.
Proof. destruct s; [congruence|reflexivity]. Qed.

Lemma sound_group_decimal {A : Type} (n : nat) (s : str) (g : groups)
  (k : str -> groups -> option A) (v : A) :
  rmatch (RGroup n Merging.decimal) s g k = Some v ->
  exists d s', s = d +++ s' /\ Spec.plain_decimal d = true
               /\ k s' ((n, d) :: g) = Some v.
Proof.
  apply sound_group. intros k' H. unfold Merging.decimal in H.
  change (rmatch (RPlus true CDigit) s g
            (fun s1 g1 => rmatch (ROpt (RLit "." ;;; RPlus true CDigit)) s1 g1 k') = Some v)
    in H.
  destruct (sound_plus _ _ _ _ _ _ H) as [ip [s1 [Hs [Hne [Hip Hopt]]]]].
  specialize (Hip eq_refl). cbn [rmatch] in Hopt.
  destruct (strip_prefix "." s1) as [s2|] eqn:Edot.
  - change (match s2 with
            | a :: s' =>
                if cls_match CDigit a
                then plus_loop true CDigit s' (fun s'' => k' s'' g)
                else None
            | [] => None
            end) with (rmatch (RPlus true CDigit) s2 g k') in Hopt.
    destruct (rmatch (RPlus true CDigit) s2 g k') as [w|] eqn:Efrac.
    + inversion Hopt; subst w.
      destruct (sound_plus _ _ _ _ _ _ Efrac) as [f [s' [Hs2 [Hfne [Hf Hk]]]]].
      specialize (Hf eq_refl). apply strip_prefix_sound in Edot.
      exists (ip +++ "."%chr :: f), s'.
      split; [rewrite Hs, Edot, Hs2, append_assoc; reflexivity|].
      split; [|exact Hk].
      unfold Spec.plain_decimal. rewrite (split_point_fraction ip f Hip).
      rewrite Hip, Hf, (slen_nonzero _ Hne), (slen_nonzero _ Hfne). reflexivity.
    + exists ip, s1. split; [exact Hs|]. split; [|exact Hopt].
      unfold Spec.plain_decimal. rewrite (split_point_digits ip Hip).
      rewrite Hip, (slen_nonzero _ Hne). reflexivity.
  - exists ip, s1. split; [exact Hs|]. split; [|exact Hopt].
    unfold Spec.plain_decimal. rewrite (split_point_digits ip Hip).
    rewrite Hip, (slen_nonzero _ Hne). reflexivity.
Qed.

Lemma sound_seq {A : Type} (r1 r2 : regex) (s : str) (g : groups)
  (k : str -> groups -> option A) (v : A) :
  rmatch (r1 ;;; r2) s g k = Some v ->
  rmatch r1 s g (fun s' g' => rmatch r2 s' g' k) = Some v.
Proof. intros H. exact H. Qed.

Lemma sound_opt {A : Type} (inner r : regex) (s : str) (g : groups)
  (k : str -> groups -> option A) (v : A) :
  rmatch (ROpt inner ;;; r) s g k = Some v ->
  rmatch inner s g (fun s' g' => rmatch r s' g' k) = Some v
  \/ rmatch r s g k = Some v.
Proof.
  intros H. cbn [rmatch] in H.
  change (match rmatch inner s g (fun s' g' => rmatch r s' g' k) with
          | Some x => Some x
          | None => rmatch r s g k
          end = Some v) in H.
  destruct (rmatch inner s g (fun s' g' => rmatch r s' g' k)) as [w|];
    [left; exact H|right; exact H].
Qed.

(** What the tail of the pattern, from the start time on, leaves in the
    groups. *)
Lemma sound_times (s : str) (g m : groups) :
  rmatch (RLit "_" ;;; RGroup 6 Merging.decimal ;;; RLit "s-" ;;;
          RGroup 7 Merging.decimal ;;; RLit "s_dur" ;;;
          RGroup 8 Merging.decimal ;;; RLit "s_Segment." ;;;
          RGroup 9 (RPlus true CAny)) s g (fun _ g' => Some g') = Some m ->
  exists a b c ext,
    Spec.plain_decimal a = true /\ Spec.plain_decimal b = true
    /\ Spec.plain_decimal c = true /\ ext <> ""
    /\ m = (9%nat, ext) :: (8%nat, c) :: (7%nat, b) :: (6%nat, a) :: g.
Proof.
  intros H.
  apply sound_lit in H. destruct H as [s1 [_ H]].
  apply sound_seq, sound_group_decimal in H. destruct H as [a [s2 [_ [Ha H]]]].
  apply sound_lit in H. destruct H as [s3 [_ H]].
  apply sound_seq, sound_group_decimal in H. destruct H as [b [s4 [_ [Hb H]]]].
  apply sound_lit in H. destruct H as [s5 [_ H]].
  apply sound_seq, sound_group_decimal in H. destruct H as [c [s6 [_ [Hc H]]]].
  apply sound_lit in H. destruct H as [s7 [_ H]].
  apply sound_group_any in H. destruct H as [ext [s8 [_ [Hext H]]]].
  inversion H. exists a, b, c, ext. auto.
Qed.

(** Every match of the filename pattern: the groups hold digits and plain
    decimals, and groups 4 and 5 are set together or not at all. *)
Lemma pattern_sound (s : str) (m : groups) :
  re_match Merging.pattern s = Some m ->
  exists stem seq bpm a b c ext,
    all_digits seq = true /\ seq <> "" /\ Spec.plain_decimal bpm = true
    /\ Spec.plain_decimal a = true /\ Spec.plain_decimal b = true
    /\ Spec.plain_decimal c = true /\ stem <> "" /\ ext <> ""
    /\ ((exists n d,
           all_digits n = true /\ n <> "" /\ all_digits d = true /\ d <> ""
           /\ m = [(9%nat, ext); (8%nat, c); (7%nat, b); (6%nat, a); (5%nat, d);
                   (4%nat, n); (3%nat, bpm); (2%nat, seq); (1%nat, stem)])
        \/ m = [(9%nat, ext); (8%nat, c); (7%nat, b); (6%nat, a);
                (3%nat, bpm); (2%nat, seq); (1%nat, stem)]).
Proof.
  unfold re_match, Merging.pattern. intros H.
  apply sound_seq, sound_group_any in H. destruct H as [stem [s1 [_ [Hstem H]]]].
  apply sound_lit in H. destruct H as [s2 [_ H]].
  apply sound_seq, sound_group_digits in H. destruct H as [seq [s3 [_ [[Hseq Hseqn] H]]]].
  apply sound_lit in H. destruct H as [s4 [_ H]].
  apply sound_seq, sound_group_decimal in H. destruct H as [bpm [s5 [_ [Hbpm H]]]].
  apply sound_opt in H. destruct H as [H|H].
  - apply sound_lit in H. destruct H as [s6 [_ H]].
    apply sound_seq, sound_group_digits in H. destruct H as [n [s7 [_ [[Hn Hnn] H]]]].
    apply sound_lit in H. destruct H as [s8 [_ H]].
    apply sound_group_digits in H. destruct H as [d [s9 [_ [[Hd Hdn] H]]]].
    apply sound_times in H. destruct H as [a [b [c [ext [Ha [Hb [Hc [Hext Hm]]]]]]]].
    exists stem, seq, bpm, a, b, c, ext. repeat (split; [assumption|]).
    left. exists n, d. auto.
  - apply sound_times in H. destruct H as [a [b [c [ext [Ha [Hb [Hc [Hext Hm]]]]]]]].
    exists stem, seq, bpm, a, b, c, ext. repeat (split; [assumption|]).
    right. exact Hm.
Qed.

End MatcherSound.

Lemma int_of_str_all_digits (s : str) :
  all_digits s = true -> s <> "" ->
  int_of_str (Some s)
  = if int_max_str_digits <? slen s then Raise ValueError else Ok (digits_value s 0).
Proof.
  intros Hs Hne. unfold int_of_str. destruct s as [|c s]; [congruence|].
  rewrite Hs. reflexivity.
Qed.

(** The outcomes of the decoder.  It raises [ValueError] for the names that
    the pattern does not match.  For a name that the pattern matches, it
    raises [ValueError] when the sequence number has more digits than
    [int] converts; if not, [TypeError] when the name has no time
    signature; if it has one, [ValueError] when its numerator or its
    denominator has more digits than [int] converts, and otherwise it
    decodes the name.  No other exception leaves it: the conversions of the
    BPM and of the times never fail. *)
Theorem decoder_outcomes :
  forall filename : str,
    match re_match Merging.pattern filename with
    | None => Merging.parse_segment_filename filename = Raise ValueError
    | Some m =>
        exists seq,
          group m 2 = Some seq
          /\ if int_max_str_digits <? slen seq
             then Merging.parse_segment_filename filename = Raise ValueError
             else
               match group m 4, group m 5 with
               | Some n, Some d =>
                   if (int_max_str_digits <? slen n) || (int_max_str_digits <? slen d)
                   then Merging.parse_segment_filename filename = Raise ValueError
                   else
                     exists info,
                       Merging.parse_segment_filename filename = Ok info
                       /\ Merging.base_name info <> None
                       /\ Merging.file_extension info <> None
               | _, _ => Merging.parse_segment_filename filename = Raise TypeError
               end
    end.
Proof.
  intros filename. unfold Merging.parse_segment_filename.
  destruct (re_match Merging.pattern filename) as [m|] eqn:Hm; [|reflexivity].
  destruct (pattern_sound _ _ Hm)
    as [stem [seq [bpm [a [b [c [ext
         [Hseq [Hseqn [Hbpm [Ha [Hb [Hc [Hstem [Hext Hcase]]]]]]]]]]]]]]].
  destruct (float_of_str_plain _ Hbpm) as [fbpm Hfbpm].
  destruct (float_of_str_plain _ Ha) as [fa Hfa].
  destruct (float_of_str_plain _ Hb) as [fb Hfb].
  destruct (float_of_str_plain _ Hc) as [fc Hfc].
  exists seq.
  destruct Hcase as [[n [d [Hn [Hnn [Hd [Hdn Hcase]]]]]]|Hcase]; subst m;
    cbn [group Nat.eqb]; (split; [reflexivity|]);
    rewrite (int_of_str_all_digits _ Hseq Hseqn);
    destruct (int_max_str_digits <? slen seq); try reflexivity;
    cbn [Py.bind]; rewrite Hfbpm; cbn [Py.bind].
  - rewrite (int_of_str_all_digits _ Hn Hnn).
    destruct (int_max_str_digits <? slen n); [reflexivity|]. cbn [Py.bind orb].
    rewrite (int_of_str_all_digits _ Hd Hdn).
    destruct (int_max_str_digits <? slen d); [reflexivity|]. cbn [Py.bind].
    rewrite Hfa. cbn [Py.bind]. rewrite Hfb. cbn [Py.bind]. rewrite Hfc. cbn [Py.bind].
    eexists. split; [reflexivity|]. cbn. split; discriminate.
  - reflexivity.
Qed.

(* ================================================================== *)
(** * The search for the audio file (util.py) *)
(* ================================================================== *)

(** [find_ogg_file_in_synth] never finds a file: it calls [any] on a
    [bool], so it raises [TypeError] at the first file that the walk
    yields, and returns [None] when the tree holds no file at all. *)
Theorem find_ogg_file_in_synth_never_finds :
  forall (join : str -> str -> str)
         (walk : list (str * list str * list str)),
    (Forall (fun entry => snd entry = []) walk ->
     Util.find_ogg_file_in_synth join walk = Ok None)
    /\ (Exists (fun entry => snd entry <> []) walk ->
        Util.find_ogg_file_in_synth join walk = Raise TypeError)
    /\ forall path, Util.find_ogg_file_in_synth join walk <> Ok (Some path).
Proof.
  intros join walk.
  assert (Hfirst : forall root files,
             Util.find_ogg_file_among join root files
             = match files with [] => Ok None | _ :: _ => Raise TypeError end).
  { intros root [|file rest]; reflexivity. }
  induction walk as [|[[root dirs] files] walk [IHnone [IHsome IHnever]]];
    cbn [Util.find_ogg_file_in_synth].
  - split; [reflexivity|]. split; [intros H; inversion H|discriminate].
  - rewrite Hfirst. destruct files as [|file files]; cbn [Py.bind].
    + split; [|split].
      * intros H. apply Forall_cons_iff in H. apply IHnone, H.
      * intros H. apply Exists_cons in H. destruct H as [H|H]; [cbn in H; congruence|].
        apply IHsome, H.
      * exact IHnever.
    + split; [|split].
      * intros H. apply Forall_cons_iff in H. destruct H as [H _]. discriminate H.
      * reflexivity.
      * discriminate.
Qed.

(* ================================================================== *)
(** * The merger and the order of the listing (merging.py) *)
(* ================================================================== *)

Lemma mapM_In {A B : Type} (g : A -> result B) :
  forall (l : list A) (ys : list B) (y : B),
    mapM g l = Ok ys -> In y ys -> exists x, In x l /\ g x = Ok y.
Proof.
  induction l as [|x l IH]; cbn [mapM]; intros ys y H Hin.
  - inversion H; subst. contradiction.
  - bind_as H y0 Hy0. bind_as H ys0 Hys0. inversion H; subst ys.
    destruct Hin as [Heq|Hin].
    + subst y0. exists x. split; [left; reflexivity|exact Hy0].
    + destruct (IH _ _ Hys0 Hin) as [x' [Hx' Hg]]. exists x'. split; [right; exact Hx'|exact Hg].
Qed.

Lemma mapM_Permutation {A B : Type} (g : A -> result B) (l l' : list A) :
  Permutation l l' ->
  forall ys, mapM g l = Ok ys -> exists ys', mapM g l' = Ok ys' /\ Permutation ys ys'.
Proof.
  induction 1 as [|x l l' Hp IH|x y l|l l' l'' Hp1 IH1 Hp2 IH2]; intros ys H.
  - exists ys. split; [exact H|apply Permutation_refl].
  - cbn [mapM] in *. bind_as H y0 Hy0. bind_as H ys0 Hys0. inversion H; subst ys.
    destruct (IH _ Hys0) as [ys' [Hrun Hperm]].
    exists (y0 :: ys'). rewrite Hy0, Hrun. split; [reflexivity|apply perm_skip, Hperm].
  - cbn [mapM] in *. bind_as H y0 Hy0. bind_as H ys0 Hys0. bind_as Hys0 x0 Hx0.
    bind_as Hys0 rest Hrest. inversion Hys0; subst ys0. inversion H; subst ys.
    exists (x0 :: y0 :: rest). rewrite Hx0, Hy0, Hrest. split; [reflexivity|apply perm_swap].
  - destruct (IH1 _ H) as [ys' [Hrun' Hperm']].
    destruct (IH2 _ Hrun') as [ys'' [Hrun'' Hperm'']].
    exists ys''. split; [exact Hrun''|eapply Permutation_trans; eassumption].
Qed.

Lemma loaded_start_times_not_nan (from_synth : str -> result Synth.SynthFile)
  (segments : list str) (data : list (Merging.SegmentInfo * Synth.SynthFile)) :
  Merging.load_segments from_synth segments = Ok data ->
  Forall (fun d => is_nan (Merging.start_time (fst d)) = false) data.
Proof.
  intros H. apply Forall_forall. intros d Hd. unfold Merging.load_segments in H.
  destruct (mapM_In _ _ _ _ H Hd) as [segment [_ Hg]].
  bind_as Hg info Hinfo. bind_as Hg file Hfile. inversion Hg; subst d. cbn [fst].
  apply (parse_start_time_not_nan _ _ Hinfo).
Qed.

(** The merger does not depend on the order in which the segment files are
    listed: when the files of a listing decode and load, with pairwise
    different start times, every reordering of the listing is merged into
    the same result. *)
Theorem merge_does_not_depend_on_listing_order :
  forall (from_synth : str -> result Synth.SynthFile) (base_beatmap : str)
         (segments segments' : list str)
         (data : list (Merging.SegmentInfo * Synth.SynthFile)),
    Permutation segments segments' ->
    Merging.load_segments from_synth segments = Ok data ->
    (forall a b, In a data -> In b data -> Spec.start_le a b -> Spec.start_le b a -> a = b) ->
    Merging.merge_synth_segments from_synth base_beatmap segments'
    = Merging.merge_synth_segments from_synth base_beatmap segments.
Proof.
  intros from_synth base segments segments' data Hperm Hload Hdistinct.
  unfold Merging.load_segments in Hload.
  destruct (mapM_Permutation _ _ _ Hperm _ Hload) as [data' [Hload' Hdata]].
  unfold Merging.merge_synth_segments, Merging.load_segments.
  rewrite Hload, Hload'. cbn [Py.bind].
  assert (Hgood : Forall (fun d => is_nan (Merging.start_time (fst d)) = false) data)
    by (apply (loaded_start_times_not_nan from_synth segments); exact Hload).
  assert (Hsame : Merging.sort_segments data = Merging.sort_segments data').
  { assert (P1 : Permutation (Merging.sort_segments data) data) by apply sorted_perm.
    assert (P2 : Permutation (Merging.sort_segments data') data') by apply sorted_perm.
    apply ordered_perm_unique.
    - intros a b Ha Hb.
      apply Hdistinct; [exact (Permutation_in _ P1 Ha)|exact (Permutation_in _ P1 Hb)].
    - apply sort_segments_ordered, Hgood.
    - apply sort_segments_ordered. exact (Permutation_Forall Hdata Hgood).
    - eapply Permutation_trans; [exact P1|].
      eapply Permutation_trans; [exact Hdata|]. apply Permutation_sym, P2. }
  rewrite Hsame. reflexivity.
Qed.

Lemma merge_does_not_depend_on_listing_order_witness :
  Merging.merge_synth_segments Examples.loader "base.synth" (rev Examples.listing)
  = Merging.merge_synth_segments Examples.loader "base.synth" Examples.listing.
Proof.
  apply (merge_does_not_depend_on_listing_order Examples.loader "base.synth"
           Examples.listing (rev Examples.listing) Examples.listing_data).
  - apply Permutation_rev.
  - vm_compute. reflexivity.
  - unfold Spec.start_le, Examples.listing_data. intros a b Ha Hb Hab Hba.
    cbn [In] in Ha, Hb.
    repeat match goal with H : _ \/ _ |- _ => destruct H end;
      try contradiction; subst; try reflexivity;
      cbn in Hab, Hba; discriminate.
Defined.
